(** * Microblog: follower graph, timeline, notifications, search mirror, tasks

    A shallow embedding of [app/models.py], [app/search.py], [app/tasks.py],
    the synchronous [send_email] of [app/email.py], the username validator
    of [app/main/forms.py], and the views [index], [edit_profile], [follow],
    [unfollow], [send_message], [view_message] and [notifications] of
    [app/main/routes.py].

    Modelling conventions.
    - A table is the list of its rows, in insertion order; a column typed
      [Optional[...]] is an [option].
    - Python [int]s and primary keys are [Z].  A [datetime] and the float
      returned by [time()] are both read on one clock and kept as the integer
      number of microseconds ([Z]); only their order and sums are used.
    - A Python call that can raise returns an [outcome]; code that reads or
      writes the application objects lives in the state-and-exception monad
      [M] over [app].
    - The ORM session runs with autoflush, as Flask-SQLAlchemy configures it:
      every statement first writes the pending objects.  [db] therefore holds
      the store as the session sees it (rows written and rows pending), and
      [session] keeps the unit-of-work sets [new], [dirty] and [deleted] that
      [SearchableMixin.before_commit] reads; a flush empties them.  The
      primary key and the column defaults of a new object, which the ORM
      fills in at flush, are filled in when the object is added.
    - The JSON codec, the token signer, the search engine, the job queue,
      the mail transport, the web framework with its forms and the paginator
      are collaborators outside the repository; each has a small model
      below, marked as such. *)

From Stdlib Require Import ZArith DecimalString.
From stdpp Require Import base decidable option list sorting strings gmap.

Local Open Scope Z_scope.

(* ===================================================================== *)
(** ** Python runtime: exceptions and the effect monad                    *)
(* ===================================================================== *)

(** The exception classes the modelled code can meet.  [KeyboardInterrupt]
    and [SystemExit] derive from [BaseException] only. *)
Inductive exn : Type :=
| AttributeError | TypeError | KeyError | ValueError | IndexError
| ZeroDivisionError
| OperationalError
| ConnectionError | NotFoundError
| DecodeError | InvalidSignatureError | InvalidAlgorithmError
| ExpiredSignatureError
| SMTPException
| KeyboardInterrupt | SystemExit.

Global Instance exn_eq_dec : EqDecision exn.
Proof. solve_decision. Defined.

(** [isinstance(e, Exception)] *)
Definition is_Exception (e : exn) : bool :=
  match e with
  | KeyboardInterrupt | SystemExit => false
  | _ => true
  end.

Inductive outcome (A : Type) : Type :=
| Return (a : A)
| Raise (e : exn).
Global Arguments Return {A} a.
Global Arguments Raise {A} e.

(** ** JSON values and the codec [json.dumps] / [json.loads] *)

#[local] Unset Elimination Schemes.
Inductive json : Type :=
| JNull
| JBool (b : bool)
| JInt (z : Z)
| JStr (s : string)
| JList (l : list json)
| JDict (kv : list (string * json)).
#[local] Set Elimination Schemes.

(** The standard library's codec is a collaborator: [json_loads] gives
    [None] where [json.loads] raises on text that is not JSON. *)
Class JsonCodec : Type := {
  json_dumps : json → string;
  json_loads : string → option json
}.

(** [d[key]] on a decoded object, [None] standing for [KeyError] (or
    [TypeError] when the value is not an object). *)
Fixpoint dict_get (key : string) (kv : list (string * json)) : option json :=
  match kv with
  | [] => None
  | (k, v) :: kv' => if decide (k = key) then Some v else dict_get key kv'
  end.

Definition json_getitem (d : json) (key : string) : option json :=
  match d with
  | JDict kv => dict_get key kv
  | _ => None
  end.

(* ===================================================================== *)
(** ** The relational schema of [app/models.py]                           *)
(* ===================================================================== *)

Definition datetime : Type := Z.

(** One second, in clock units. *)
Definition seconds (n : Z) : Z := n * 1000000.

(** [int(t)] of a time [t] in seconds: the clock value cut to whole
    seconds. *)
Definition whole_seconds (t : Z) : Z := seconds (t `div` seconds 1).

Module User.
Record t : Type := mk {
  id : Z;
  username : string;
  email : string;
  password_hash : option string;
  about_me : option string;
  last_seen : option datetime;
  last_message_read_time : option datetime;
  token : option string;
  token_expiration : option datetime
}.
Global Instance eq_dec : EqDecision t.
Proof. solve_decision. Defined.
Definition set_token_expiration (v : option datetime) (u : t) : t :=
  mk (id u) (username u) (email u) (password_hash u) (about_me u)
     (last_seen u) (last_message_read_time u) (token u) v.
Definition set_token (v : option string) (u : t) : t :=
  mk (id u) (username u) (email u) (password_hash u) (about_me u)
     (last_seen u) (last_message_read_time u) v (token_expiration u).
End User.

Module Post.
Record t : Type := mk {
  id : Z;
  body : string;
  timestamp : datetime;
  user_id : Z
}.
Global Instance eq_dec : EqDecision t.
Proof. solve_decision. Defined.
End Post.

Module Message.
Record t : Type := mk {
  id : Z;
  sender_id : Z;
  recipient_id : Z;
  body : string;
  timestamp : datetime
}.
Global Instance eq_dec : EqDecision t.
Proof. solve_decision. Defined.
End Message.

Module Notification.
Record t : Type := mk {
  id : Z;
  name : string;
  user_id : Z;
  timestamp : Z;
  payload_json : string
}.
Global Instance eq_dec : EqDecision t.
Proof. solve_decision. Defined.
End Notification.

Module Task.
Record t : Type := mk {
  id : string;
  name : string;
  description : option string;
  user_id : Z;
  complete : bool
}.
Global Instance eq_dec : EqDecision t.
Proof. solve_decision. Defined.
Definition set_complete (b : bool) (k : t) : t :=
  mk (id k) (name k) (description k) (user_id k) b.
End Task.

(** The [followers] association table: one row per edge. *)
Module Follow.
Record t : Type := mk {
  follower_id : Z;
  followed_id : Z
}.
Global Instance eq_dec : EqDecision t.
Proof. solve_decision. Defined.
End Follow.

Record database : Type := mk_database {
  user : list User.t;
  followers : list Follow.t;
  post : list Post.t;
  message : list Message.t;
  notification : list Notification.t;
  task : list Task.t
}.

Definition set_user (f : list User.t → list User.t) (d : database) :=
  mk_database (f (user d)) (followers d) (post d) (message d)
              (notification d) (task d).
Definition set_followers (f : list Follow.t → list Follow.t) (d : database) :=
  mk_database (user d) (f (followers d)) (post d) (message d)
              (notification d) (task d).
Definition set_post (f : list Post.t → list Post.t) (d : database) :=
  mk_database (user d) (followers d) (f (post d)) (message d)
              (notification d) (task d).
Definition set_notification
    (f : list Notification.t → list Notification.t) (d : database) :=
  mk_database (user d) (followers d) (post d) (message d)
              (f (notification d)) (task d).
Definition set_task (f : list Task.t → list Task.t) (d : database) :=
  mk_database (user d) (followers d) (post d) (message d)
              (notification d) (f (task d)).

(* ===================================================================== *)
(** ** The application objects                                            *)
(* ===================================================================== *)

(** A mapped object of any model class, as the session holds it. *)
Inductive entity : Type :=
| EUser (u : User.t)
| EPost (p : Post.t)
| EMessage (m : Message.t)
| ENotification (n : Notification.t)
| ETask (k : Task.t).

(** [session._changes], the snapshot [before_commit] stores. *)
Record changes : Type := mk_changes {
  changes_add : list entity;
  changes_update : list entity;
  changes_delete : list entity
}.

(** The unit-of-work sets of [db.session] and the attribute the hooks add. *)
Record session : Type := mk_session {
  new : list entity;
  dirty : list entity;
  deleted : list entity;
  _changes : option changes
}.

(** The search engine behind [current_app.elasticsearch], a collaborator:
    its documents by (index name, document id), whether the server can be
    reached, and the hits and total it answers to a search (index,
    expression, offset, size).  A call to a server that cannot be reached
    raises [ConnectionError] in the client. *)
Definition document : Type := list (string * json).

Record es_client : Type := mk_es {
  es_reachable : bool;
  es_docs : gmap (string * Z) document;
  es_answer : string → string → Z → Z → list Z * Z
}.

(** The job the worker is running, as [rq.get_current_job()] returns it. *)
Record rq_job : Type := mk_job {
  job_id : string;
  meta_progress : option Z
}.

(** A message handed to [send_email]; a body is the template rendered for
    a user, kept as that pair. *)
Record email_message : Type := mk_email {
  subject : string;
  sender : string;
  recipients : list string;
  text_body : string * Z;
  html_body : string * Z;
  attachments : list (string * string * string)
}.

(** [config.py] *)
Record app_config : Type := mk_config {
  SECRET_KEY : string;
  ADMINS : list string;
  POSTS_PER_PAGE : Z
}.

Record app : Type := mk_app {
  config : app_config;
  db : database;
  db_session : session;
  elasticsearch : option es_client;
  current_job : option rq_job;
  (** successive readings of the wall clock, and how many were taken *)
  clock : nat → Z;
  clock_reads : nat;
  (** successive draws of [secrets.token_hex(16)], and how many were made *)
  token_source : nat → string;
  tokens_drawn : nat;
  (** what the mail transport does with a message: deliver it, or raise *)
  mail_failure : option exn;
  outbox : list email_message;
  (** the records of [app.logger.error] *)
  error_log : list (string * exn);
  (** what [db.session.get(User, id)] answers for an [id] that is not an
      integer: a row, none, or an error, as the ORM and the store decide *)
  get_by_identity : json → database → outcome (option User.t)
}.

Definition with_db (f : database → database) (a : app) : app :=
  mk_app (config a) (f (db a)) (db_session a) (elasticsearch a)
    (current_job a) (clock a) (clock_reads a) (token_source a)
    (tokens_drawn a) (mail_failure a) (outbox a) (error_log a)
    (get_by_identity a).
Definition with_db_session (f : session → session) (a : app) : app :=
  mk_app (config a) (db a) (f (db_session a)) (elasticsearch a)
    (current_job a) (clock a) (clock_reads a) (token_source a)
    (tokens_drawn a) (mail_failure a) (outbox a) (error_log a)
    (get_by_identity a).
Definition with_elasticsearch (e : option es_client) (a : app) : app :=
  mk_app (config a) (db a) (db_session a) e (current_job a) (clock a)
    (clock_reads a) (token_source a) (tokens_drawn a) (mail_failure a)
    (outbox a) (error_log a)
    (get_by_identity a).
Definition with_current_job (j : option rq_job) (a : app) : app :=
  mk_app (config a) (db a) (db_session a) (elasticsearch a) j (clock a)
    (clock_reads a) (token_source a) (tokens_drawn a) (mail_failure a)
    (outbox a) (error_log a)
    (get_by_identity a).
Definition with_clock_reads (n : nat) (a : app) : app :=
  mk_app (config a) (db a) (db_session a) (elasticsearch a) (current_job a)
    (clock a) n (token_source a) (tokens_drawn a) (mail_failure a)
    (outbox a) (error_log a)
    (get_by_identity a).
Definition with_tokens_drawn (n : nat) (a : app) : app :=
  mk_app (config a) (db a) (db_session a) (elasticsearch a) (current_job a)
    (clock a) (clock_reads a) (token_source a) n (mail_failure a) 
    (outbox a) (error_log a)
    (get_by_identity a).
Definition with_outbox (o : list email_message) (a : app) : app :=
  mk_app (config a) (db a) (db_session a) (elasticsearch a) (current_job a)
    (clock a) (clock_reads a) (token_source a) (tokens_drawn a)
    (mail_failure a) o (error_log a)
    (get_by_identity a).
Definition with_error_log (l : list (string * exn)) (a : app) : app :=
  mk_app (config a) (db a) (db_session a) (elasticsearch a) (current_job a)
    (clock a) (clock_reads a) (token_source a) (tokens_drawn a)
    (mail_failure a) (outbox a) l (get_by_identity a).

(** *** The monad: application state and exceptions *)

Definition M (A : Type) : Type := app → outcome A * app.

Global Instance M_ret : MRet M := λ A x a, (Return x, a).
Global Instance M_bind : MBind M := λ A B f m a,
  match m a with
  | (Return x, a') => f x a'
  | (Raise e, a') => (Raise e, a')
  end.

Definition raise {A} (e : exn) : M A := λ a, (Raise e, a).
Definition get_app : M app := λ a, (Return a, a).
Definition modify_app (f : app → app) : M unit := λ a, (Return tt, f a).

(** [try: m  except C: h], the handler taking the exceptions [catches]
    accepts. *)
Definition try_except {A} (m : M A) (catches : exn → bool) (h : exn → M A)
  : M A := λ a,
  match m a with
  | (Raise e, a') => if catches e then h e a' else (Raise e, a')
  | r => r
  end.

(** [try: m  finally: fin]: [fin] always runs; what [m] returned or raised
    stands unless [fin] raises itself. *)
Definition try_finally {A} (m : M A) (fin : M unit) : M A := λ a,
  match m a with
  | (r, a') =>
      match fin a' with
      | (Return _, a'') => (r, a'')
      | (Raise e, a'') => (Raise e, a'')
      end
  end.

(** A [for] loop with an effectful body. *)
Fixpoint for_each {A} (l : list A) (body : A → M unit) : M unit :=
  match l with
  | [] => mret tt
  | x :: l' => body x ;; for_each l' body
  end.

(** [time()] / [datetime.now(timezone.utc)]: the next clock reading. *)
Definition time : M Z := λ a,
  (Return (clock a (clock_reads a)), with_clock_reads (S (clock_reads a)) a).

(* ===================================================================== *)
(** ** The ORM session, as far as the code uses it                        *)
(* ===================================================================== *)

(** A statement that reads: the rows it selects from the store. *)
Definition query (A : Type) : Type := database → list A.

(** A flush writes what is pending; the unit-of-work sets empty. *)
Definition flush : M unit :=
  modify_app (with_db_session (λ s, mk_session [] [] [] (_changes s))).

(** [db.session.scalars(q)]: autoflush, then the rows. *)
Definition scalars {A} (q : query A) : M (list A) :=
  flush ;; a ← get_app; mret (q (db a)).

(** [db.session.scalar(q)]: the first row, [None] when there is none. *)
Definition scalar {A} (q : query A) : M (option A) :=
  rows ← scalars q; mret (head rows).

(** [db.session.scalar(sa.select(sa.func.count()).select_from(q.subquery()))] *)
Definition scalar_count {A} (q : query A) : M Z :=
  rows ← scalars q; mret (Z.of_nat (length rows)).

(** [db.session.execute(stmt)] for a bulk statement that writes. *)
Definition execute (stmt : database → database) : M unit :=
  flush ;; modify_app (with_db stmt).

(** [db.session.get(Model, pk)]: served from the identity map or the store. *)
Definition get_User (pk : Z) : M (option User.t) :=
  a ← get_app; mret (head (filter (λ u, User.id u = pk) (user (db a)))).
Definition get_Task (pk : string) : M (option Task.t) :=
  a ← get_app; mret (head (filter (λ k, Task.id k = pk) (task (db a)))).

(** The row an object becomes in its table. *)
Definition insert_row (e : entity) : database → database :=
  match e with
  | EUser u => set_user (λ t, t ++ [u])
  | EPost p => set_post (λ t, t ++ [p])
  | EMessage m => λ d,
      mk_database (user d) (followers d) (post d) (message d ++ [m])
                  (notification d) (task d)
  | ENotification n => set_notification (λ t, t ++ [n])
  | ETask k => set_task (λ t, t ++ [k])
  end.

(** The row of a persistent object after its attributes were set. *)
Definition update_row (e : entity) : database → database :=
  match e with
  | EUser u =>
      set_user (fmap (λ r, if decide (User.id r = User.id u) then u else r))
  | EPost p =>
      set_post (fmap (λ r, if decide (Post.id r = Post.id p) then p else r))
  | EMessage m => λ d,
      mk_database (user d) (followers d) (post d)
        ((λ r, if decide (Message.id r = Message.id m) then m else r)
           <$> message d)
        (notification d) (task d)
  | ENotification n =>
      set_notification
        (fmap (λ r, if decide (Notification.id r = Notification.id n)
                    then n else r))
  | ETask k =>
      set_task (fmap (λ r, if decide (Task.id r = Task.id k) then k else r))
  end.

(** [db.session.add(obj)] for a new object. *)
Definition session_add (e : entity) : M unit :=
  modify_app (λ a,
    with_db_session
      (λ s, mk_session (new s ++ [e]) (dirty s) (deleted s) (_changes s))
      (with_db (insert_row e) a)).

(** A persistent object whose attributes or collections changed is in
    [session.dirty]. *)
Definition mark_dirty (e : entity) : M unit :=
  modify_app (with_db_session (λ s,
    mk_session (new s) (dirty s ++ [e]) (deleted s) (_changes s))).

(** Setting attributes of a persistent object: its row as the session
    sees it changes, and the object is dirty. *)
Definition session_modified (e : entity) : M unit :=
  modify_app (with_db (update_row e)) ;; mark_dirty e.

(** [ORDER BY]: a sort of the rows by a total preorder on them. *)
Definition order_by {A} (R : relation A) `{∀ x y, Decision (R x y)}
  (rows : list A) : list A := merge_sort R rows.

(** The next value of an integer primary key. *)
Definition next_id (ids : list Z) : Z := 1 + foldr Z.max 0 ids.

(* ===================================================================== *)
(** ** [app/search.py]                                                    *)
(* ===================================================================== *)

(** What [search.py] reads of a model object: the class attributes
    [__tablename__] and [__searchable__], [id], and [getattr]. *)
Record searchable_model : Type := mk_searchable {
  __tablename__ : string;
  __searchable__ : list string;
  model_id : Z;
  getattr : string → option json
}.

(** [class Post(SearchableMixin, db.Model)] with
    [__searchable__ = ['body']]. *)
Definition Post_model (p : Post.t) : searchable_model :=
  mk_searchable "post" ["body"] (Post.id p)
    (λ field,
       if decide (field = "id") then Some (JInt (Post.id p))
       else if decide (field = "body") then Some (JStr (Post.body p))
       else if decide (field = "timestamp") then Some (JInt (Post.timestamp p))
       else if decide (field = "user_id") then Some (JInt (Post.user_id p))
       else None).

(** [isinstance(obj, SearchableMixin)], with the object seen as one. *)
Definition as_SearchableMixin (obj : entity) : option searchable_model :=
  match obj with
  | EPost p => Some (Post_model p)
  | _ => None
  end.

(** A call on the client: it fails when the server cannot be reached;
    otherwise what the server answers comes back, its result or the error
    the client makes of it, and the engine is as the call left it. *)
Definition es_request {A} (es : es_client)
    (f : es_client → outcome A * es_client) : M A :=
  if es_reachable es then
    let '(r, es') := f es in
    modify_app (with_elasticsearch (Some es')) ;;
    match r with
    | Return x => mret x
    | Raise e => raise e
    end
  else raise ConnectionError.

(** [es.index(index=..., id=..., document=...)]: the document is stored
    under the id, in place of one already there. *)
Definition es_index (index : string) (id : Z) (doc : document)
  (es : es_client) : outcome unit * es_client :=
  (Return tt, mk_es (es_reachable es) (<[(index, id) := doc]> (es_docs es))
                    (es_answer es)).

(** [es.delete(index=..., id=...)]: the document under the id is removed;
    for an id the index holds no document under, the server answers 404
    and the client raises [NotFoundError]. *)
Definition es_delete (index : string) (id : Z) (es : es_client)
  : outcome unit * es_client :=
  match es_docs es !! (index, id) with
  | Some _ =>
      (Return tt, mk_es (es_reachable es)
                        (base.delete (index, id) (es_docs es))
                        (es_answer es))
  | None => (Raise NotFoundError, es)
  end.

(** [es.search(index=..., query=..., from_=..., size=...)] *)
Definition es_search (index expression : string) (from_ size : Z)
  (es : es_client) : outcome (list Z * Z) * es_client :=
  (Return (es_answer es index expression from_ size), es).

(** The payload loop of [add_to_index]. *)
Fixpoint build_payload (model : searchable_model) (fields : list string)
  : M document :=
  match fields with
  | [] => mret []
  | field :: rest =>
      match getattr model field with
      | None => raise AttributeError
      | Some v =>
          payload ← build_payload model rest;
          mret ((field, v) :: payload)
      end
  end.

Definition add_to_index (index : string) (model : searchable_model)
  : M unit :=
  a ← get_app;
  match elasticsearch a with
  | None => mret tt
  | Some es =>
      payload ← build_payload model (__searchable__ model);
      es_request es (es_index index (model_id model) payload)
  end.

Definition remove_from_index (index : string) (model : searchable_model)
  : M unit :=
  a ← get_app;
  match elasticsearch a with
  | None => mret tt
  | Some es => es_request es (es_delete index (model_id model))
  end.

Definition query_index (index query_text : string) (page per_page : Z)
  : M (list Z * Z) :=
  a ← get_app;
  match elasticsearch a with
  | None => mret ([], 0)
  | Some es =>
      es_request es (es_search index query_text ((page - 1) * per_page)
                               per_page)
  end.

(* ===================================================================== *)
(** ** [app/models.py]                                                    *)
(* ===================================================================== *)

(** *** [SearchableMixin] *)

(** A model class as the mixin's class methods see it: [cls.__tablename__],
    its table, and the [id] column. *)
Record model_class (A : Type) : Type := mk_class {
  cls_tablename : string;
  cls_table : database → list A;
  cls_id : A → Z
}.
Global Arguments mk_class {A} _ _ _.
Global Arguments cls_tablename {A} _.
Global Arguments cls_table {A} _.
Global Arguments cls_id {A} _.

Definition Post_class : model_class Post.t := mk_class "post" post Post.id.

(** [db.case] over the [when] pairs with [value=v]: the result of the
    first WHEN equal to [v], NULL when there is none. *)
Fixpoint sql_case (when : list (Z * nat)) (v : Z) : option nat :=
  match when with
  | [] => None
  | (w, r) :: rest => if decide (w = v) then Some r else sql_case rest v
  end.

(** Ascending order of a sort key that may be NULL, NULL first. *)
Definition key_le (a b : option nat) : Prop :=
  match a, b with
  | None, _ => True
  | Some _, None => False
  | Some x, Some y => (x ≤ y)%nat
  end.
Global Instance key_le_dec a b : Decision (key_le a b).
Proof. destruct a, b; simpl; apply _. Defined.

(** [when = []; for i in range(len(ids)): when.append((ids[i], i))] *)
Definition when_list (ids : list Z) : list (Z * nat) :=
  imap (λ i x, (x, i)) ids.

(** The order [order_by(db.case(...))] puts two rows in. *)
Definition case_asc {A} (cls : model_class A) (when : list (Z * nat))
  (x y : A) : Prop :=
  key_le (sql_case when (cls_id cls x)) (sql_case when (cls_id cls y)).
Global Instance case_asc_dec {A} (cls : model_class A) when x y :
  Decision (case_asc cls when x y).
Proof. unfold case_asc; apply _. Defined.

(** The statement [search] builds:
    [sa.select(cls).where(cls.id.in_(ids)).order_by(db.case(...))]. *)
Definition search_query {A} (cls : model_class A) (ids : list Z)
  : query A := λ d,
  order_by (case_asc cls (when_list ids))
    (filter (λ x, cls_id cls x ∈ ids) (cls_table cls d)).

(** [SearchableMixin.search].  With an empty [when] the ORDER BY is a
    CASE with no WHEN, which is not SQL: the store rejects the statement
    when [db.session.scalars] runs it. *)
Definition search {A} (cls : model_class A) (expression : string)
  (page per_page : Z) : M (list A * Z) :=
  '(ids, total) ← query_index (cls_tablename cls) expression page per_page;
  if decide (total = 0) then mret ([], 0)
  else
    match when_list ids with
    | [] => flush ;; raise OperationalError
    | _ => rows ← scalars (search_query cls ids); mret (rows, total)
    end.

Definition before_commit : M unit :=
  modify_app (with_db_session (λ s,
    mk_session (new s) (dirty s) (deleted s)
      (Some (mk_changes (new s) (dirty s) (deleted s))))).

Definition after_commit : M unit :=
  a ← get_app;
  match _changes (db_session a) with
  | None => raise TypeError
  | Some ch =>
      for_each (changes_add ch) (λ obj,
        match as_SearchableMixin obj with
        | Some m => add_to_index (__tablename__ m) m
        | None => mret tt
        end) ;;
      for_each (changes_update ch) (λ obj,
        match as_SearchableMixin obj with
        | Some m => add_to_index (__tablename__ m) m
        | None => mret tt
        end) ;;
      for_each (changes_delete ch) (λ obj,
        match as_SearchableMixin obj with
        | Some m => remove_from_index (__tablename__ m) m
        | None => mret tt
        end) ;;
      modify_app (with_db_session (λ s,
        mk_session (new s) (dirty s) (deleted s) None))
  end.

(** [db.session.commit()] with the two listeners [db.event.listen]
    registers: [before_commit], the flush and the commit, [after_commit]. *)
Definition commit : M unit :=
  before_commit ;; flush ;; after_commit.

(** [SearchableMixin.reindex] *)
Definition reindex (cls : model_class Post.t) : M unit :=
  rows ← scalars (cls_table cls);
  for_each rows (λ obj, add_to_index (cls_tablename cls) (Post_model obj)).

(** *** [User]: the follower graph *)

(** [self.following.select()]: the users joined to the edges that leave
    [self]. *)
Definition following_select (self : User.t) : query User.t := λ d,
  u ← user d;
  f ← followers d;
  if decide (Follow.follower_id f = User.id self
             ∧ User.id u = Follow.followed_id f)
  then [u] else [].

(** [self.followers.select()]: the users joined to the edges that reach
    [self]. *)
Definition followers_select (self : User.t) : query User.t := λ d,
  u ← user d;
  f ← followers d;
  if decide (Follow.followed_id f = User.id self
             ∧ User.id u = Follow.follower_id f)
  then [u] else [].

(** [self.following.add(user)] and [self.following.remove(user)]: a row of
    the association table is written or deleted, and [self] is dirty. *)
Definition following_add (self user : User.t) : M unit :=
  modify_app (with_db (set_followers
    (λ t, t ++ [Follow.mk (User.id self) (User.id user)]))) ;;
  mark_dirty (EUser self).

Definition following_remove (self user : User.t) : M unit :=
  modify_app (with_db (set_followers
    (filter (λ f : Follow.t, ¬ (Follow.follower_id f = User.id self
                     ∧ Follow.followed_id f = User.id user))))) ;;
  mark_dirty (EUser self).

Definition is_following (self user : User.t) : M bool :=
  r ← scalar (λ d, filter (λ u, User.id u = User.id user)
                          (following_select self d));
  mret (bool_decide (r ≠ None)).

Definition follow (self user : User.t) : M unit :=
  b ← is_following self user;
  if negb b then following_add self user else mret tt.

Definition unfollow (self user : User.t) : M unit :=
  b ← is_following self user;
  if (b : bool) then following_remove self user else mret tt.

Definition followers_count (self : User.t) : M Z :=
  scalar_count (followers_select self).

Definition following_count (self : User.t) : M Z :=
  scalar_count (following_select self).

(** *** [User.following_posts] *)

(** SQL's three-valued [=] and [OR]; [None] is NULL. *)
Definition sql_eq (a b : option Z) : option bool :=
  match a, b with
  | Some x, Some y => Some (bool_decide (x = y))
  | _, _ => None
  end.

Definition sql_or (a b : option bool) : option bool :=
  match a, b with
  | Some true, _ | _, Some true => Some true
  | Some false, Some false => Some false
  | _, _ => None
  end.

(** [LEFT OUTER JOIN]: a row with no match is kept once, with NULLs. *)
Definition left_outer_join {A B} (rows : list A) (matches : A → list B)
  : list (A * option B) :=
  r ← rows;
  match matches r with
  | [] => [(r, None)]
  | ms => (λ b, (r, Some b)) <$> ms
  end.

(** [GROUP BY] on every column of the selected entity, with no
    aggregate: one row per distinct entity. *)
Definition group_by {A} `{EqDecision A} (rows : list A) : list A :=
  remove_dups rows.

(** [Post.timestamp.desc()] as the order of two rows. *)
Definition timestamp_desc (p q : Post.t) : Prop :=
  Post.timestamp q ≤ Post.timestamp p.
Global Instance timestamp_desc_dec p q : Decision (timestamp_desc p q).
Proof. unfold timestamp_desc; apply _. Defined.

Definition following_posts (self : User.t) : query Post.t := λ d,
  (* select(Post).join(Post.author.of_type(Author)) *)
  let post_author : list (Post.t * User.t) :=
    p ← post d;
    (λ Author, (p, Author))
      <$> filter (λ u, User.id u = Post.user_id p) (user d) in
  (* .join(Author.followers.of_type(Follower), isouter=True) *)
  let joined : list (Post.t * User.t * option User.t) :=
    left_outer_join post_author (λ r,
      f ← filter (λ f, Follow.followed_id f = User.id r.2) (followers d);
      filter (λ u, User.id u = Follow.follower_id f) (user d)) in
  (* .where(sa.or_(Follower.id == self.id, Author.id == self.id)) *)
  let selected :=
    filter (λ r, sql_or (sql_eq (User.id <$> r.2) (Some (User.id self)))
                        (sql_eq (Some (User.id r.1.2)) (Some (User.id self)))
                 = Some true) joined in
  (* .group_by(Post).order_by(Post.timestamp.desc()) *)
  order_by timestamp_desc
    (group_by ((λ r, r.1.1) <$> selected)).

(** *** [User]: notifications *)

Definition add_notification `{JsonCodec} (self : User.t) (name : string)
  (data : json) : M Notification.t :=
  execute (set_notification
    (filter (λ n : Notification.t, ¬ (Notification.user_id n = User.id self
                     ∧ Notification.name n = name)))) ;;
  a ← get_app;
  now ← time;
  let n := Notification.mk
             (next_id (Notification.id <$> notification (db a)))
             name (User.id self) now (json_dumps data) in
  session_add (ENotification n) ;;
  mret n.

(** [Notification.get_data] *)
Definition get_data `{JsonCodec} (self : Notification.t) : M json :=
  match json_loads (Notification.payload_json self) with
  | Some v => mret v
  | None => raise ValueError
  end.

(** *** [User]: password-reset and API tokens *)

(** PyJWT is a collaborator; its tokens are kept symbolically.  A token is
    either text that is no signed token at all, or a payload signed with
    some key under some algorithm: a signature verifies exactly when the
    keys are equal. *)
Inductive jwt_token : Type :=
| jwt_malformed (text : string)
| jwt_signed (algorithm : string) (key : string)
             (payload : list (string * json)).

Definition jwt_encode (payload : list (string * json)) (key : string)
  (algorithm : string) : jwt_token := jwt_signed algorithm key payload.

(** [jwt.decode(token, key, algorithms=...)]: the payload, unless the
    token is malformed, signed otherwise, or its [exp] claim, which the
    library cuts to whole seconds, has passed. *)
Definition jwt_decode (token : jwt_token) (key : string)
  (algorithms : list string) : M json :=
  match token with
  | jwt_malformed _ => raise DecodeError
  | jwt_signed alg k payload =>
      if decide (alg ∈ algorithms) then
        if decide (k = key) then
          match dict_get "exp" payload with
          | None => mret (JDict payload)
          | Some (JInt exp) =>
              now ← time;
              if decide (whole_seconds exp ≤ now)
              then raise ExpiredSignatureError
              else mret (JDict payload)
          | Some _ => raise DecodeError
          end
        else raise InvalidSignatureError
      else raise InvalidAlgorithmError
  end.

Definition get_reset_password_token (self : User.t) (expires_in : Z)
  : M jwt_token :=
  now ← time;
  a ← get_app;
  mret (jwt_encode [("reset_password", JInt (User.id self));
                    ("exp", JInt (now + seconds expires_in))]
                   (SECRET_KEY (config a)) "HS256").

(** [db.session.get(User, id)] on a decoded subject.  An integer finds
    the row with that primary key.  What the ORM and the store make of
    another value (a numeral in a string, a boolean, a list) is theirs:
    [get_by_identity] is their answer. *)
Definition get_User_by (id : json) : M (option User.t) :=
  match id with
  | JInt pk => get_User pk
  | _ =>
      a ← get_app;
      match get_by_identity a id (db a) with
      | Return r => mret r
      | Raise e => raise e
      end
  end.

Definition verify_reset_password_token (token : jwt_token)
  : M (option User.t) :=
  a ← get_app;
  r ← try_except
        (d ← jwt_decode token (SECRET_KEY (config a)) ["HS256"];
         match json_getitem d "reset_password" with
         | Some id => mret (Some id)
         | None => raise KeyError
         end)
        (λ _, true)
        (λ _, mret None);
  match r with
  | None => mret None
  | Some id => get_User_by id
  end.

(** [secrets.token_hex(16)] *)
Definition token_hex : M string := λ a,
  (Return (token_source a (tokens_drawn a)),
   with_tokens_drawn (S (tokens_drawn a)) a).

(** [self] is persistent: [db.session.add(self)] changes nothing, the
    attribute writes made it dirty.  The method returns the token; the
    model also returns [self] as written. *)
Definition get_token (self : User.t) (expires_in : Z) : M (string * User.t) :=
  now ← time;
  let fresh : M (string * User.t) :=
    tok ← token_hex;
    let self' := User.set_token_expiration (Some (now + seconds expires_in))
                   (User.set_token (Some tok) self) in
    session_modified (EUser self') ;;
    mret (tok, self') in
  match User.token self with
  | None => fresh
  | Some tok =>
      if decide (tok = "") then fresh
      else
        match User.token_expiration self with
        | None => raise AttributeError
        | Some exp =>
            if decide (now + seconds 60 < exp) then mret (tok, self)
            else fresh
        end
  end.

Definition revoke_token (self : User.t) : M User.t :=
  now ← time;
  let self' := User.set_token_expiration (Some (now - seconds 1)) self in
  session_modified (EUser self') ;;
  mret self'.

Definition check_token (token : string) : M (option User.t) :=
  user ← scalar (λ d, filter (λ u, User.token u = Some token) (user d));
  match user with
  | None => mret None
  | Some u =>
      match User.token_expiration u with
      | None => raise AttributeError
      | Some exp =>
          now ← time;
          if decide (exp < now) then mret None else mret (Some u)
      end
  end.

(* ===================================================================== *)
(** ** [app/main/routes.py]: the notification feed                        *)
(* ===================================================================== *)

(** [Notification.timestamp.asc()] as the order of two rows. *)
Definition timestamp_asc (m n : Notification.t) : Prop :=
  Notification.timestamp m ≤ Notification.timestamp n.
Global Instance timestamp_asc_dec m n : Decision (timestamp_asc m n).
Proof. unfold timestamp_asc; apply _. Defined.

(** [current_user.notifications.select()] *)
Definition notifications_select (self : User.t) : query Notification.t :=
  λ d, filter (λ n, Notification.user_id n = User.id self) (notification d).

(** The statement of the [notifications] view. *)
Definition notifications_query (current_user : User.t) (since : Z)
  : query Notification.t := λ d,
  order_by timestamp_asc
    (filter (λ n, since < Notification.timestamp n)
            (notifications_select current_user d)).

(** One element of the view's answer:
    [{'name': n.name, 'data': n.get_data(), 'timestamp': n.timestamp}]. *)
Record notification_item : Type := mk_item {
  item_name : string;
  item_data : json;
  item_timestamp : Z
}.

Fixpoint render_notifications `{JsonCodec} (rows : list Notification.t)
  : M (list notification_item) :=
  match rows with
  | [] => mret []
  | n :: rest =>
      data ← get_data n;
      items ← render_notifications rest;
      mret (mk_item (Notification.name n) data (Notification.timestamp n)
              :: items)
  end.

(** The view; [args_since] is the request's [since] argument, 0.0 when
    it is absent or no number. *)
Definition notifications `{JsonCodec} (current_user : User.t)
  (args_since : option Z) : M (list notification_item) :=
  let since := default 0 args_since in
  rows ← scalars (notifications_query current_user since);
  render_notifications rows.

(* ===================================================================== *)
(** ** [app/email.py] and [app/tasks.py]                                  *)
(* ===================================================================== *)

(** [render_template(name, user=user)]: the rendering is the template
    engine's; the model keeps what was rendered for whom. *)
Definition render_template (name : string) (user : User.t) : string * Z :=
  (name, User.id user).

(** [mail.send(msg)]: the transport delivers the message or raises. *)
Definition mail_send (msg : email_message) : M unit :=
  a ← get_app;
  match mail_failure a with
  | Some e => raise e
  | None => modify_app (with_outbox (outbox a ++ [msg]))
  end.

(** [send_email(..., sync=True)], the call [export_posts] makes. *)
Definition send_email (subject sender : string) (recipients : list string)
  (text_body html_body : string * Z)
  (attachments : list (string * string * string)) : M unit :=
  mail_send (mk_email subject sender recipients text_body html_body
                      attachments).

(** [app.logger.error(msg, exc_info=sys.exc_info())] *)
Definition logger_error (msg : string) (exc_info : exn) : M unit :=
  a ← get_app; modify_app (with_error_log (error_log a ++ [(msg, exc_info)])).

(** [time.sleep(n)]: the wait shows only in later clock readings. *)
Definition sleep (n : Z) : M unit := mret tt.

Definition _set_task_progress `{JsonCodec} (progress : Z) : M unit :=
  a ← get_app;
  match current_job a with
  | None => mret tt
  | Some job =>
      (* job.meta['progress'] = progress; job.save_meta() *)
      modify_app (with_current_job
                    (Some (mk_job (job_id job) (Some progress)))) ;;
      task ← get_Task (job_id job);
      match task with
      | None => raise AttributeError
      | Some task =>
          owner ← get_User (Task.user_id task);
          match owner with
          | None => raise AttributeError
          | Some owner =>
              add_notification owner "task_progress"
                (JDict [("task_id", JStr (job_id job));
                        ("progress", JInt progress)]) ;;
              (if decide (100 ≤ progress)
               then session_modified (ETask (Task.set_complete true task))
               else mret tt) ;;
              commit
          end
      end
  end.

(** [user.posts.select()] *)
Definition posts_select (self : User.t) : query Post.t := λ d,
  filter (λ p, Post.user_id p = User.id self) (post d).

(** [Post.timestamp.asc()] as the order of two rows. *)
Definition post_timestamp_asc (p q : Post.t) : Prop :=
  Post.timestamp p ≤ Post.timestamp q.
Global Instance post_timestamp_asc_dec p q : Decision (post_timestamp_asc p q).
Proof. unfold post_timestamp_asc; apply _. Defined.

(** The [for post in ...] loop of [export_posts], with its two
    accumulators.  The exported timestamp is kept as the clock value its
    ISO text denotes. *)
Fixpoint export_loop `{JsonCodec} (posts : list Post.t) (data : list json)
  (posts_count total_posts : Z) : M (list json) :=
  match posts with
  | [] => mret data
  | post :: rest =>
      let data := data ++ [JDict [("body", JStr (Post.body post));
                                  ("timestamp", JInt (Post.timestamp post))]] in
      sleep 5 ;;
      let posts_count := posts_count + 1 in
      (if decide (total_posts = 0) then raise ZeroDivisionError
       else _set_task_progress ((100 * posts_count) `div` total_posts)) ;;
      export_loop rest data posts_count total_posts
  end.

(** The [try] block of [export_posts]. *)
Definition export_posts_body `{JsonCodec} (user_id : Z) : M unit :=
  user ← get_User user_id;
  _set_task_progress 0 ;;
  match user with
  | None => raise AttributeError
  | Some user =>
      total_posts ← scalar_count (posts_select user);
      posts ← scalars (λ d, order_by post_timestamp_asc (posts_select user d));
      data ← export_loop posts [] 0 total_posts;
      a ← get_app;
      match ADMINS (config a) with
      | [] => raise IndexError
      | admin :: _ =>
          send_email "[Microblog] Your blog posts" admin [User.email user]
            (render_template "email/export_posts.txt" user)
            (render_template "email/export_posts.html" user)
            [("posts.json", "application/json",
              json_dumps (JDict [("posts", JList data)]))]
      end
  end.

Definition export_posts `{JsonCodec} (user_id : Z) : M unit :=
  try_finally
    (try_except (export_posts_body user_id)
       is_Exception
       (λ e, _set_task_progress 100 ;;
             logger_error "Unhandled exception" e))
    (_set_task_progress 100).

(* ===================================================================== *)
(** ** [app/models.py]: messages and tasks                                 *)
(* ===================================================================== *)

(** [datetime(1900, 1, 1)] on the clock, whose origin is the Unix epoch. *)
Definition datetime_1900_1_1 : datetime := seconds (-2208988800).

(** Attribute writes on a [User] object. *)
Definition set_last_message_read_time (v : option datetime) (u : User.t)
  : User.t :=
  User.mk (User.id u) (User.username u) (User.email u) (User.password_hash u)
    (User.about_me u) (User.last_seen u) v (User.token u)
    (User.token_expiration u).
Definition set_username (v : string) (u : User.t) : User.t :=
  User.mk (User.id u) v (User.email u) (User.password_hash u)
    (User.about_me u) (User.last_seen u) (User.last_message_read_time u)
    (User.token u) (User.token_expiration u).
Definition set_about_me (v : option string) (u : User.t) : User.t :=
  User.mk (User.id u) (User.username u) (User.email u) (User.password_hash u)
    v (User.last_seen u) (User.last_message_read_time u)
    (User.token u) (User.token_expiration u).

(** [User.unread_message_count]; a [datetime] is never falsy, so the
    [or] takes its right operand exactly when the column is NULL. *)
Definition unread_message_count (self : User.t) : M Z :=
  let last_read_time :=
    default datetime_1900_1_1 (User.last_message_read_time self) in
  scalar_count (λ d,
    filter (λ m, Message.recipient_id m = User.id self
                 ∧ last_read_time < Message.timestamp m) (message d)).

(** [self.tasks.select()] *)
Definition tasks_select (self : User.t) : query Task.t := λ d,
  filter (λ k, Task.user_id k = User.id self) (task d).

(** [User.launch_task], called with no further job arguments.  The job
    queue ([current_app.task_queue], kept in Redis) is a collaborator:
    [enqueue] is what it answers to a function name and its argument, the
    job it stored or the error it raised. *)
Definition launch_task (enqueue : string → Z → outcome rq_job)
    (self : User.t) (name description : string) : M Task.t :=
  match enqueue ("app.tasks." +:+ name) (User.id self) with
  | Raise e => raise e
  | Return rq_job =>
      let task := Task.mk (job_id rq_job) name (Some description)
                          (User.id self) false in
      session_add (ETask task) ;;
      mret task
  end.

Definition get_tasks_in_progress (self : User.t) : M (list Task.t) :=
  scalars (λ d, filter (λ k, Task.complete k = false) (tasks_select self d)).

Definition get_task_in_progress (self : User.t) (name : string)
  : M (option Task.t) :=
  scalar (λ d, filter (λ k, Task.name k = name ∧ Task.complete k = false)
                      (tasks_select self d)).

(* ===================================================================== *)
(** ** [app/main/forms.py]                                                *)
(* ===================================================================== *)

(** An inline validator returns [None] when it accepts the field and
    [Some msg] where the source raises [ValidationError(msg)], which the
    form library records as the field's error. *)
Module EditProfileForm.

Definition validate_username (original_username : string)
    (username_data : string) : M (option string) :=
  if decide (username_data ≠ original_username) then
    user ← scalar (λ d, filter (λ u, User.username u = username_data)
                               (user d));
    match user with
    | Some _ =>
        mret (Some
          "That username already exists! Please use a different username.")
    | None => mret None
    end
  else mret None.

End EditProfileForm.

(* ===================================================================== *)
(** ** [app/main/routes.py]: the views that write                         *)
(* ===================================================================== *)

(** Flask is a collaborator.  A URL is kept as the endpoint and values
    [url_for] was given; a flashed message as its message id and
    parameters; a rendered page as the template and the context it was
    given.  [flash] is the last effect before a view returns, so a view's
    reply holds the messages it flashed with its response.  [abort(404)]
    is kept as the response Flask makes of it. *)
Record url : Type := url_for {
  endpoint : string;
  url_values : list (string * json)
}.

Definition flash_message : Type := string * list (string * string).

(** A value of a template context.  A form is kept as its class and the
    field data the view itself filled in. *)
Inductive context_value : Type :=
| CText (s : string)
| CUrl (u : option url)
| CPosts (l : list Post.t)
| CMessages (l : list Message.t)
| CForm (class : string) (filled : list (string * option string)).

Inductive response : Type :=
| redirect (location : url)
| render_page (template : string) (context : list (string * context_value))
| not_found.

Record reply : Type := mk_reply {
  flashed : list flash_message;
  reply_response : response
}.

(** [db.paginate(select, page=page, per_page=per_page, error_out=False)]
    of Flask-SQLAlchemy, a collaborator: a page or page size below 1 is
    replaced by 1 and by 20, the items are the rows at offset
    [(page - 1) * per_page], limit [per_page], the total counts all
    rows. *)
Record pagination (A : Type) : Type := mk_pagination {
  pagination_page : Z;
  pagination_per_page : Z;
  pagination_items : list A;
  pagination_total : Z
}.
Global Arguments mk_pagination {A} _ _ _ _.
Global Arguments pagination_page {A} _.
Global Arguments pagination_per_page {A} _.
Global Arguments pagination_items {A} _.
Global Arguments pagination_total {A} _.

Definition paginate {A} (select : query A) (page per_page : Z)
  : M (pagination A) :=
  let page := if decide (page < 1) then 1 else page in
  let per_page := if decide (per_page < 1) then 20 else per_page in
  rows ← scalars select;
  mret (mk_pagination page per_page
          (take (Z.to_nat per_page)
                (drop (Z.to_nat ((page - 1) * per_page)) rows))
          (Z.of_nat (length rows))).

Definition pagination_pages {A} (p : pagination A) : Z :=
  if decide (pagination_total p = 0) then 0
  else - ((- pagination_total p) `div` pagination_per_page p).

Definition has_prev {A} (p : pagination A) : bool :=
  bool_decide (1 < pagination_page p).
Definition has_next {A} (p : pagination A) : bool :=
  bool_decide (pagination_page p < pagination_pages p).
Definition prev_num {A} (p : pagination A) : Z := pagination_page p - 1.
Definition next_num {A} (p : pagination A) : Z := pagination_page p + 1.

(** [Message.timestamp.desc()] as the order of two rows. *)
Definition message_timestamp_desc (m n : Message.t) : Prop :=
  Message.timestamp n ≤ Message.timestamp m.
Global Instance message_timestamp_desc_dec m n :
  Decision (message_timestamp_desc m n).
Proof. unfold message_timestamp_desc; apply _. Defined.

(** [current_user.messages_received.select()] *)
Definition messages_received_select (self : User.t) : query Message.t :=
  λ d, filter (λ m, Message.recipient_id m = User.id self) (message d).

(** The views take the logged-in account [current_user], what
    [validate_on_submit()] answered with the validated field data, and
    the request's arguments.  [user == current_user] is Flask-Login's
    [UserMixin.__eq__], which compares [get_id()], the primary key. *)
Module routes.

(** The two links of a paginated view. *)
Definition page_links {A} (endpoint : string) (values : list (string * json))
    (p : pagination A) : option url * option url :=
  (if has_next p
   then Some (url_for endpoint (values ++ [("page", JInt (next_num p))]))
   else None,
   if has_prev p
   then Some (url_for endpoint (values ++ [("page", JInt (prev_num p))]))
   else None).

(** [index]; [form] is the post's text when the [PostForm] validates on
    submit, [args_page] the request's [page] argument when it is an
    integer. *)
Definition index (current_user : User.t) (form : option string)
    (args_page : option Z) : M reply :=
  match form with
  | Some post_data =>
      now ← time;
      a ← get_app;
      let post := Post.mk (next_id (Post.id <$> post (db a))) post_data now
                          (User.id current_user) in
      session_add (EPost post) ;;
      commit ;;
      mret (mk_reply [("Your post is now live!", [])]
                     (redirect (url_for "main.index" [])))
  | None =>
      let page := default 1 args_page in
      a ← get_app;
      posts ← paginate (following_posts current_user) page
                       (POSTS_PER_PAGE (config a));
      let '(next_url, prev_url) := page_links "main.index" [] posts in
      mret (mk_reply []
        (render_page "index.html"
           [("title", CText "Homepage");
            ("posts", CPosts (pagination_items posts));
            ("form", CForm "PostForm" []);
            ("next_url", CUrl next_url);
            ("prev_url", CUrl prev_url)]))
  end.

(** [edit_profile].  Of the [EditProfileForm] the view takes the request
    method, the submitted [username] when [DataRequired] accepts it,
    [about_me.data], and whether the validators of the form library
    other than [DataRequired] on [username] accept the request; the
    inline validator runs after [DataRequired] and only if it
    accepted. *)
Definition edit_profile (current_user : User.t) (method : string)
    (username : option string) (about_me : option string)
    (other_validators : bool) : M reply :=
  let is_submitted :=
    bool_decide (method ∈ ["POST"; "PUT"; "PATCH"; "DELETE"]) in
  validates ←
    (if is_submitted then
       match username with
       | None => mret false
       | Some data =>
           error ← EditProfileForm.validate_username
                     (User.username current_user) data;
           mret (other_validators && bool_decide (error = None))
       end
     else mret false);
  match validates, username with
  | true, Some data =>
      session_modified
        (EUser (set_about_me about_me (set_username data current_user))) ;;
      commit ;;
      mret (mk_reply [("Your changes have been saved", [])]
                     (redirect (url_for "main.edit_profile" [])))
  | _, _ =>
      let filled :=
        if decide (method = "GET")
        then [("username", Some (User.username current_user));
              ("about_me", User.about_me current_user)]
        else [] in
      mret (mk_reply []
        (render_page "edit_profile.html"
           [("title", CText "Edit profile");
            ("form", CForm "EditProfileForm" filled)]))
  end.

(** [follow] and [unfollow]; the [EmptyForm] validates when the request
    carries a valid CSRF token. *)
Definition follow (current_user : User.t) (validate_on_submit : bool)
    (username : string) : M reply :=
  if validate_on_submit then
    user ← scalar (λ d, filter (λ u, User.username u = username) (user d));
    match user with
    | None =>
        mret (mk_reply [("User %(username)s not found",
                         [("username", username)])]
                       (redirect (url_for "main.index" [])))
    | Some user =>
        if decide (User.id user = User.id current_user) then
          mret (mk_reply [("You cannot follow yourself!", [])]
                  (redirect (url_for "main.user"
                                     [("username", JStr username)])))
        else
          follow current_user user ;;
          commit ;;
          mret (mk_reply [("You are now following %(username)s!",
                           [("username", username)])]
                  (redirect (url_for "main.user"
                                     [("username", JStr username)])))
    end
  else mret (mk_reply [] (redirect (url_for "main.index" []))).

Definition unfollow (current_user : User.t) (validate_on_submit : bool)
    (username : string) : M reply :=
  if validate_on_submit then
    user ← scalar (λ d, filter (λ u, User.username u = username) (user d));
    match user with
    | None =>
        mret (mk_reply [("User %(username)s not found",
                         [("username", username)])]
                       (redirect (url_for "main.index" [])))
    | Some user =>
        if decide (User.id user = User.id current_user) then
          mret (mk_reply [("You cannot unfollow yourself!", [])]
                  (redirect (url_for "main.user"
                                     [("username", JStr username)])))
        else
          unfollow current_user user ;;
          commit ;;
          mret (mk_reply [("You successfully unfollowed %(username)s!",
                           [("username", username)])]
                  (redirect (url_for "main.user"
                                     [("username", JStr username)])))
    end
  else mret (mk_reply [] (redirect (url_for "main.index" []))).

(** [send_message]; [form] is the message's text when the [MessageForm]
    validates on submit. *)
Definition send_message `{JsonCodec} (current_user : User.t)
    (form : option string) (recipient : string) : M reply :=
  user ← scalar (λ d, filter (λ u, User.username u = recipient) (user d));
  match user with
  | None => mret (mk_reply [] not_found)
  | Some user =>
      match form with
      | Some message_data =>
          now ← time;
          a ← get_app;
          let msg := Message.mk (next_id (Message.id <$> message (db a)))
                       (User.id current_user) (User.id user) message_data
                       now in
          session_add (EMessage msg) ;;
          count ← unread_message_count user;
          add_notification user "unread_message_count" (JInt count) ;;
          commit ;;
          mret (mk_reply [("Your message has been sent", [])]
                  (redirect (url_for "main.user"
                                     [("username", JStr recipient)])))
      | None =>
          mret (mk_reply []
            (render_page "send_message.html"
               [("title", CText "Send message");
                ("recipient", CText recipient);
                ("form", CForm "MessageForm" [])]))
      end
  end.

Definition view_message `{JsonCodec} (current_user : User.t)
    (args_page : option Z) : M reply :=
  now ← time;
  let current_user := set_last_message_read_time (Some now) current_user in
  session_modified (EUser current_user) ;;
  add_notification current_user "unread_message_count" (JInt 0) ;;
  commit ;;
  let page := default 1 args_page in
  a ← get_app;
  messages ← paginate
    (λ d, order_by message_timestamp_desc
            (messages_received_select current_user d))
    page (POSTS_PER_PAGE (config a));
  let '(next_url, prev_url) := page_links "main.view_message" [] messages in
  mret (mk_reply []
    (render_page "view_message.html"
       [("title", CText "View message");
        ("messages", CMessages (pagination_items messages));
        ("next_url", CUrl next_url);
        ("prev_url", CUrl prev_url)])).

End routes.

(* ===================================================================== *)
(** ** Running the model                                                  *)
(* ===================================================================== *)

(** The state a computation leaves, and what it returns or raises. *)
Definition exec {A} (m : M A) (a : app) : app := (m a).2.
Definition eval {A} (m : M A) (a : app) : outcome A := (m a).1.

(** The same call made [n] times in a row. *)
Fixpoint repeat_call (n : nat) (m : M unit) : M unit :=
  match n with
  | O => mret tt
  | S k => m ;; repeat_call k m
  end.

(** A codec to run examples with: it prints as [json.dumps] prints text
    of printable ASCII, and reads back the scalar texts (the unread
    counters the application stores are such). *)
Definition dquote : string := String (Ascii.ascii_of_nat 34) EmptyString.

Fixpoint escape (s : string) : string :=
  match s with
  | EmptyString => EmptyString
  | String c rest =>
      if decide (c = Ascii.ascii_of_nat 34 ∨ c = Ascii.ascii_of_nat 92)
      then String (Ascii.ascii_of_nat 92) (String c (escape rest))
      else String c (escape rest)
  end.

Definition quoted (s : string) : string := dquote +:+ escape s +:+ dquote.

Fixpoint join_with (sep : string) (parts : list string) : string :=
  match parts with
  | [] => ""
  | [x] => x
  | x :: rest => x +:+ sep +:+ join_with sep rest
  end.

Fixpoint example_dumps (j : json) : string :=
  match j with
  | JNull => "null"
  | JBool true => "true"
  | JBool false => "false"
  | JInt z => NilZero.string_of_int (Z.to_int z)
  | JStr s => quoted s
  | JList l => "[" +:+ join_with ", " (map example_dumps l) +:+ "]"
  | JDict kv =>
      "{" +:+ join_with ", "
                (map (λ p, quoted (fst p) +:+ ": " +:+ example_dumps (snd p))
                     kv)
          +:+ "}"
  end.

Definition example_loads (s : string) : option json :=
  if decide (s = "null") then Some JNull
  else if decide (s = "true") then Some (JBool true)
  else if decide (s = "false") then Some (JBool false)
  else (λ i, JInt (Z.of_int i)) <$> NilZero.int_of_string s.

Definition example_codec : JsonCodec :=
  {| json_dumps := example_dumps; json_loads := example_loads |}.

(** A small instance to run examples on: alice follows bob, bob has
    posted, carol follows nobody. *)
Definition example_user (id : Z) (name : string) : User.t :=
  User.mk id name (name +:+ "@example.com") None None None None None None.
Definition alice : User.t := example_user 1 "alice".
Definition bob : User.t := example_user 2 "bob".
Definition carol : User.t := example_user 3 "carol".

Definition example_db : database :=
  mk_database [alice; bob; carol] [Follow.mk 1 2]
    [Post.mk 1 "hello" 100 2; Post.mk 2 "first" 50 1; Post.mk 3 "again" 200 2]
    [] [] [].

Definition example_app (d : database) : app :=
  mk_app (mk_config "you-will-never-guess" ["admin@example.com"] 25)
    d (mk_session [] [] [] None) None None
    (λ n, 1000 + Z.of_nat n) 0 (λ _, "0f1e2d3c4b5a69788796a5b4c3d2e1f0") 0
    None [] [] (λ _ _, Return None).

(* ===================================================================== *)
(** ** The vocabulary of the properties                                   *)
(* ===================================================================== *)

Section vocabulary.
Context `{JsonCodec}.
Implicit Types (A B : User.t) (a : app) (d : database).
Implicit Types (x : Notification.t) (p : Post.t) (obj : entity).
Implicit Types (es : es_client) (ids : list Z) (j : rq_job).

(** The edge test [is_following] computes, as a function of the store. *)
Definition has_edge d A B : bool :=
  bool_decide (head (filter (λ u, User.id u = User.id B)
                            (following_select A d)) ≠ None).

(** What [follow] and [unfollow] leave in the store. *)
Definition follow_db d A B : database :=
  if has_edge d A B then d
  else set_followers (λ t, t ++ [Follow.mk (User.id A) (User.id B)]) d.

Definition unfollow_db d A B : database :=
  if has_edge d A B
  then set_followers
         (filter (λ f : Follow.t, ¬ (Follow.follower_id f = User.id A
                                     ∧ Follow.followed_id f = User.id B))) d
  else d.

(** The notifications of account [u] named [nm]. *)
Definition named (u : Z) (nm : string) x : Prop :=
  Notification.user_id x = u ∧ Notification.name x = nm.
Global Instance named_dec u nm x : Decision (named u nm x).
Proof. unfold named; apply _. Defined.

(** At most one notification per (account, name). *)
Definition coalesced d : Prop :=
  ∀ u nm, (length (filter (named u nm) (notification d)) ≤ 1)%nat.

(** The row [add_notification] creates in state [a]. *)
Definition fresh_notification A (name : string) (data : json) a
  : Notification.t :=
  Notification.mk
    (next_id (Notification.id
                <$> filter (λ x, ¬ named (User.id A) name x)
                           (notification (db a))))
    name (User.id A) (clock a (clock_reads a)) (json_dumps data).

(** A sequence of [add_notification] calls, each given as (account,
    name, payload). *)
Definition add_notifications (calls : list (User.t * string * json))
  : M unit :=
  for_each calls (λ c, add_notification c.1.1 c.1.2 c.2 ;; mret tt).

(** The rows the view's statement selects, before they are ordered. *)
Definition later_than A (since : Z) x : Prop :=
  Notification.user_id x = User.id A ∧ since < Notification.timestamp x.
Global Instance later_than_dec A since x : Decision (later_than A since x).
Proof. unfold later_than; apply _. Defined.

(** The clock reading the next [time()] call returns. *)
Definition next_reading a : Z := clock a (clock_reads a).

(** The token column is unique: two rows that hold the same token are
    the same row. *)
Definition token_unique (users : list User.t) : Prop :=
  ∀ u v tok, u ∈ users → v ∈ users →
             User.token u = Some tok → User.token v = Some tok → u = v.

(** What the specification asks of a commit, in its words: an upsert
    into the entity type's index under the primary key for every
    searchable entity added or updated, a removal for every searchable
    entity deleted, nothing for the others. *)
Inductive index_operation : Type :=
| Upsert (index : string) (id : Z) (doc : document)
| Remove (index : string) (id : Z).

Definition apply_operation (docs : gmap (string * Z) document)
  (op : index_operation) : gmap (string * Z) document :=
  match op with
  | Upsert index id doc => <[(index, id) := doc]> docs
  | Remove index id => base.delete (index, id) docs
  end.

Definition upsert_of obj : option index_operation :=
  match obj with
  | EPost p => Some (Upsert "post" (Post.id p) [("body", JStr (Post.body p))])
  | _ => None
  end.

Definition remove_of obj : option index_operation :=
  match obj with
  | EPost p => Some (Remove "post" (Post.id p))
  | _ => None
  end.

Definition mirror_operations (s : session) : list index_operation :=
  omap upsert_of (new s) ++ omap upsert_of (dirty s)
  ++ omap remove_of (deleted s).

(** Where the engine keeps the document of an entity: the index of its
    type and its primary key. *)
Definition document_key obj : option (string * Z) :=
  (λ m, (__tablename__ m, model_id m)) <$> as_SearchableMixin obj.

(** The removals asked for [objs] find their documents: the searchable
    entities among [objs] are distinct rows, and [docs] holds a document
    of each. *)
Definition removals_indexed (docs : gmap (string * Z) document)
    (objs : list entity) : Prop :=
  NoDup (omap document_key objs)
  ∧ Forall (λ k, is_Some (docs !! k)) (omap document_key objs).

(** The engine of [a'] is the engine of [a] with the operations [ops]
    applied to its documents. *)
Definition engine_applied a a' (ops : list index_operation) : Prop :=
  ∃ es es', elasticsearch a = Some es ∧ elasticsearch a' = Some es'
            ∧ es_reachable es' = es_reachable es
            ∧ es_answer es' = es_answer es
            ∧ es_docs es' = foldl apply_operation (es_docs es) ops.

(** Ascending CASE value, on ids. *)
Definition position_le ids (i j : Z) : Prop :=
  key_le (sql_case (when_list ids) i) (sql_case (when_list ids) j).

(** The worker can report progress: it runs a job, [db.session.get(Task,
    job.get_id())] finds the job's task, owned by account [uid], and
    [task.user] finds that account. *)
Definition worker_ready (jid : string) (uid : Z) a : Prop :=
  (∃ j, current_job a = Some j ∧ job_id j = jid)
  ∧ (∃ t, head (filter (λ k, Task.id k = jid) (task (db a))) = Some t
          ∧ Task.user_id t = uid)
  ∧ (∃ o, head (filter (λ u, User.id u = uid) (user (db a))) = Some o).

(** The payload [_set_task_progress] writes. *)
Definition progress_payload (jid : string) (progress : Z) : json :=
  JDict [("task_id", JStr jid); ("progress", JInt progress)].

(** The task [jid] is marked complete. *)
Definition task_complete (jid : string) a : Prop :=
  ∃ t, head (filter (λ k, Task.id k = jid) (task (db a))) = Some t
       ∧ Task.complete t = true.

(** Account [uid] has exactly one "task_progress" notification, and it
    reports [progress] for task [jid]. *)
Definition one_progress_notification (jid : string) (uid : Z)
    (progress : Z) a : Prop :=
  ∃ n, filter (named uid "task_progress") (notification (db a)) = [n]
       ∧ Notification.payload_json n
         = json_dumps (progress_payload jid progress).

(** A computation that leaves the job, its task and the owner in place,
    however it ends. *)
Definition keeps_ready (jid : string) (uid : Z) {X} (m : M X) : Prop :=
  ∀ a r a', worker_ready jid uid a → m a = (r, a') → worker_ready jid uid a'.

End vocabulary.

(** *** More instances to run examples on *)

(** Instances to run the mirror on: a post added in the open transaction,
    with an engine that is not configured, one that answers, and one that
    cannot be reached. *)
Definition new_post : Post.t := Post.mk 4 "new post" 300 1.

Definition empty_engine (reachable : bool) : es_client :=
  mk_es reachable ∅ (λ _ _ _ _, ([], 0)).

Definition pending_app (engine : option es_client) : app :=
  exec (session_add (EPost new_post))
       (with_elasticsearch engine (example_app example_db)).

(** An engine to run searches on: it holds the ranked hits of every
    expression and answers a page of them with their number. *)
Definition paged_engine (hits : list Z) : es_client :=
  mk_es true ∅
    (λ _ _ from_ size,
       (take (Z.to_nat size) (drop (Z.to_nat from_) hits),
        Z.of_nat (length hits))).

Definition search_app : app :=
  with_elasticsearch (Some (paged_engine [3; 9; 1])) (example_app example_db).

(** A feed: two notifications of bob and one of alice, written at clock
    readings 1000, 1001 and 1002. *)
Definition feed_app : app :=
  let H := example_codec in
  exec (add_notification bob "unread_message_count" (JInt 2) ;;
        add_notification bob "task_count" (JInt 7) ;;
        add_notification alice "unread_message_count" (JInt 1))
       (example_app example_db).

(** An account that holds an API token which expires at 5000. *)
Definition dave : User.t :=
  User.mk 4 "dave" "dave@example.com" None None None None
          (Some "9f86d081884c7d659a2feaa0c55ad015") (Some 5000).

Definition token_app : app :=
  example_app (set_user (λ t, t ++ [dave]) example_db).

(** A worker on job "job-1", the export of bob's posts, with a mail
    transport that fails. *)
Definition worker_app : app :=
  mk_app (mk_config "you-will-never-guess" ["admin@example.com"] 25)
    (set_task (λ _, [Task.mk "job-1" "export_posts"
                       (Some "Exporting posts...") 2 false]) example_db)
    (mk_session [] [] [] None) None (Some (mk_job "job-1" None))
    (λ n, 1000 + Z.of_nat n) 0 (λ _, "0f1e2d3c4b5a69788796a5b4c3d2e1f0") 0
    (Some SMTPException) [] [] (λ _ _, Return None).

(** *** More vocabulary *)

(** The account holds a non-empty token with more than 60 seconds left
    at clock reading [now]: the case in which [get_token] reuses it. *)
Definition reusable_token (u : User.t) (now : Z) : Prop :=
  match User.token u, User.token_expiration u with
  | Some tok, Some exp => tok ≠ "" ∧ now + seconds 60 < exp
  | _, _ => False
  end.
Global Instance reusable_token_dec u now : Decision (reusable_token u now).
Proof.
  unfold reusable_token.
  destruct (User.token u), (User.token_expiration u); apply _.
Defined.

(** A computation keeps the relation [R] between the state it starts in
    and the state it ends in, whether it returns or raises. *)
Definition preserves {X} (R : relation app) (m : M X) : Prop :=
  ∀ a, R a (exec m a).

(** What neither a progress report nor a commit touches: the tables
    other than notifications and tasks, the configuration, the mail
    transport, the outbox and the error log. *)
Definition untouched (a a' : app) : Prop :=
  user (db a') = user (db a)
  ∧ followers (db a') = followers (db a)
  ∧ post (db a') = post (db a)
  ∧ message (db a') = message (db a)
  ∧ config a' = config a
  ∧ mail_failure a' = mail_failure a
  ∧ outbox a' = outbox a
  ∧ error_log a' = error_log a.

(** Outside a worker, the store and the absence of a job stay. *)
Definition jobless (a a' : app) : Prop :=
  current_job a = None → db a' = db a ∧ current_job a' = None.

(** The store stays as it is. *)
Definition same_db (a a' : app) : Prop := db a' = db a.

(** A relation that looks at nothing the session bookkeeping, the search
    engine or the count of clock readings changes. *)
Definition blind (R : relation app) : Prop :=
  ∀ a, (∀ f, R a (with_db_session f a))
       ∧ (∀ e, R a (with_elasticsearch e a))
       ∧ (∀ n, R a (with_clock_reads n a)).

(** One post as [export_posts] writes it to the archive. *)
Definition exported_post (p : Post.t) : json :=
  JDict [("body", JStr (Post.body p)); ("timestamp", JInt (Post.timestamp p))].

(** The mail [export_posts] sends to [u] from [admin] with the posts
    [posts]. *)
Definition export_mail `{JsonCodec} (admin : string) (u : User.t)
    (posts : list Post.t) : email_message :=
  mk_email "[Microblog] Your blog posts" admin [User.email u]
    (render_template "email/export_posts.txt" u)
    (render_template "email/export_posts.html" u)
    [("posts.json", "application/json",
      json_dumps (JDict [("posts", JList (exported_post <$> posts))]))].

(** A message counts as unread by [r]: [r] is its recipient and it is
    later than [r]'s last read time, 1 January 1900 when there is
    none. *)
Definition unread_by (r : User.t) (m : Message.t) : Prop :=
  Message.recipient_id m = User.id r
  ∧ default datetime_1900_1_1 (User.last_message_read_time r)
    < Message.timestamp m.
Global Instance unread_by_dec r m : Decision (unread_by r m).
Proof. unfold unread_by; apply _. Defined.

(** The number of messages of a table that [r] has not read. *)
Definition unread_count (r : User.t) (messages : list Message.t) : Z :=
  Z.of_nat (length (filter (unread_by r) messages)).

(** The worker cannot report progress: the task row of its job, or the
    account that owns the task, is missing from the store. *)
Definition orphaned_job (j : rq_job) (a : app) : Prop :=
  head (filter (λ k, Task.id k = job_id j) (task (db a))) = None
  ∨ ∃ t, head (filter (λ k, Task.id k = job_id j) (task (db a))) = Some t
         ∧ head (filter (λ u, User.id u = Task.user_id t) (user (db a)))
           = None.

(** An item of the feed renders the row: its name, its timestamp and
    its decoded payload. *)
Definition renders `{JsonCodec} (i : notification_item)
    (x : Notification.t) : Prop :=
  item_name i = Notification.name x
  ∧ item_timestamp i = Notification.timestamp x
  ∧ json_loads (Notification.payload_json x) = Some (item_data i).

(** An engine that still holds the document of a post 9 which the store
    no longer has. *)
Definition stale_engine : es_client :=
  mk_es true {[ ("post", 9) := [("body", JStr "gone")] ]}
    (λ _ _ _ _, ([], 0)).

Definition stale_index_app : app :=
  with_elasticsearch (Some stale_engine) (example_app example_db).

(** The transaction deletes post 1, of which that engine has no
    document. *)
Definition unindexed_removal_app : app :=
  with_db_session
    (λ s, mk_session [] [] [EPost (Post.mk 1 "hello" 100 2)] (_changes s))
    stale_index_app.

(** The same worker with a mail transport that delivers. *)
Definition delivering_worker_app : app :=
  mk_app (mk_config "you-will-never-guess" ["admin@example.com"] 25)
    (set_task (λ _, [Task.mk "job-1" "export_posts"
                       (Some "Exporting posts...") 2 false]) example_db)
    (mk_session [] [] [] None) None (Some (mk_job "job-1" None))
    (λ n, 1000 + Z.of_nat n) 0 (λ _, "0f1e2d3c4b5a69788796a5b4c3d2e1f0") 0
    None [] [] (λ _ _, Return None).

(** Bob has read his messages up to clock reading 900, and holds a
    message alice sent at 800. *)
Definition reader_bob : User.t :=
  User.mk 2 "bob" "bob@example.com" None None None (Some 900) None None.

Definition inbox_app : app :=
  example_app
    (mk_database [alice; reader_bob; carol] [Follow.mk 1 2] []
       [Message.mk 1 1 2 "hi" 800] [] []).

(** An account whose row holds a token and no expiry. *)
Definition erin : User.t :=
  User.mk 5 "erin" "erin@example.com" None None None None
          (Some "c0ffee00c0ffee00c0ffee00c0ffee00") None.

Definition expiryless_app : app :=
  example_app (set_user (λ t, t ++ [erin]) example_db).

(** A worker on a job that has no task row. *)
Definition orphan_worker_app : app :=
  with_current_job (Some (mk_job "job-7" None)) (example_app example_db).

(** A decidable fact about a concrete instance, settled by running its
    decision procedure. *)
Ltac by_computation := apply (bool_decide_unpack _); vm_compute; exact I.

(* ===================================================================== *)
(** * Properties                                                          *)
(* ===================================================================== *)

(** ** The follower graph *)

Section follower_graph.
Implicit Types (A B : User.t) (a : app) (d : database).

Lemma flush_db a : db (exec flush a) = db a.
Proof. reflexivity. Qed.

Lemma is_following_run A B a :
  is_following A B a = (Return (has_edge (db a) A B), exec flush a).
Proof. reflexivity. Qed.

Lemma has_edge_spec d A B :
  has_edge d A B = true ↔
  Follow.mk (User.id A) (User.id B) ∈ followers d
  ∧ User.id B ∈ User.id <$> user d.
Proof.
  unfold has_edge. rewrite bool_decide_eq_true.
  rewrite not_eq_None_Some, head_is_Some.
  split.
  - intros Hne.
    destruct (filter _ _) as [|u l] eqn:E; [done|].
    assert (Hu : u ∈ filter (λ u, User.id u = User.id B)
                            (following_select A d))
      by (rewrite E; left).
    apply list_elem_of_filter in Hu as [Hid Hu].
    unfold following_select in Hu.
    apply list_elem_of_bind in Hu as (u' & Hu & Hu').
    apply list_elem_of_bind in Hu as (f & Hu & Hf).
    case_decide as Hd; [|by apply not_elem_of_nil in Hu].
    apply list_elem_of_singleton in Hu as ->.
    destruct Hd as [H1 H2]. destruct f as [f1 f2]; simpl in *. subst.
    split; [by rewrite <- Hid | apply list_elem_of_fmap; eauto].
  - intros [Hf Hu]. apply list_elem_of_fmap in Hu as (u & Hid & Hu).
    assert (Hin : u ∈ filter (λ u, User.id u = User.id B)
                             (following_select A d)).
    { apply list_elem_of_filter; split; [done|].
      unfold following_select.
      apply list_elem_of_bind; exists u; split; [|done].
      apply list_elem_of_bind; eexists; split; [|exact Hf].
      simpl. rewrite decide_True by done. left. }
    intros E. rewrite E in Hin. by apply not_elem_of_nil in Hin.
Qed.

Lemma follow_run A B a :
  eval (follow A B) a = Return tt
  ∧ db (exec (follow A B) a) = follow_db (db a) A B.
Proof.
  unfold eval, exec, follow, follow_db, mbind, M_bind.
  rewrite is_following_run. by destruct (has_edge (db a) A B).
Qed.

Lemma unfollow_run A B a :
  eval (unfollow A B) a = Return tt
  ∧ db (exec (unfollow A B) a) = unfollow_db (db a) A B.
Proof.
  unfold eval, exec, unfollow, unfollow_db, mbind, M_bind.
  rewrite is_following_run. by destruct (has_edge (db a) A B).
Qed.

Lemma has_edge_follow d A B :
  User.id B ∈ User.id <$> user d → has_edge (follow_db d A B) A B = true.
Proof.
  intros HB. unfold follow_db.
  destruct (has_edge d A B) eqn:E; [done|].
  apply has_edge_spec; split; [|done].
  simpl. apply elem_of_app; right. left.
Qed.

Lemma has_edge_unfollow d A B : has_edge (unfollow_db d A B) A B = false.
Proof.
  unfold unfollow_db. destruct (has_edge d A B) eqn:E; [|done].
  apply not_true_is_false. rewrite has_edge_spec. intros [Hf _].
  simpl in Hf. apply list_elem_of_filter in Hf as [Hn _]. by apply Hn.
Qed.

Lemma follow_db_fixed d A B : has_edge d A B = true → follow_db d A B = d.
Proof. unfold follow_db. by intros ->. Qed.

Lemma unfollow_db_fixed d A B :
  has_edge d A B = false → unfollow_db d A B = d.
Proof. unfold unfollow_db. by intros ->. Qed.

(** Sequencing after a call that returns, or that raises. *)
Lemma bind_run {X Y} (m : M X) (f : X → M Y) a x a' :
  m a = (Return x, a') → (m ≫= f) a = f x a'.
Proof. unfold mbind, M_bind. by intros ->. Qed.

Lemma bind_raise {X Y} (m : M X) (f : X → M Y) a e a' :
  m a = (Raise e, a') → (m ≫= f) a = (Raise e, a').
Proof. unfold mbind, M_bind. by intros ->. Qed.

Lemma exec_seq {X Y} (m : M X) (k : M Y) a :
  (∃ x, eval m a = Return x) → exec (m ;; k) a = exec k (exec m a).
Proof.
  unfold eval, exec, mbind, M_bind. intros [x Hx].
  destruct (m a) as [[x'|e] a']; simpl in *; [done | discriminate].
Qed.

Lemma eval_seq {X Y} (m : M X) (k : M Y) a :
  (∃ x, eval m a = Return x) → eval (m ;; k) a = eval k (exec m a).
Proof.
  unfold eval, exec, mbind, M_bind. intros [x Hx].
  destruct (m a) as [[x'|e] a']; simpl in *; [done | discriminate].
Qed.

Lemma repeat_follow_run n A B a :
  eval (repeat_call n (follow A B)) a = Return tt
  ∧ db (exec (repeat_call n (follow A B)) a)
    = Nat.iter n (λ d, follow_db d A B) (db a).
Proof.
  revert a. induction n as [|n IH]; intros a; [done|].
  destruct (follow_run A B a) as [Hr Hd].
  cbn [repeat_call]. rewrite eval_seq, exec_seq by eauto.
  destruct (IH (exec (follow A B) a)) as [-> ->].
  split; [done|]. by rewrite Hd, Nat.iter_succ_r.
Qed.

Lemma repeat_unfollow_run n A B a :
  eval (repeat_call n (unfollow A B)) a = Return tt
  ∧ db (exec (repeat_call n (unfollow A B)) a)
    = Nat.iter n (λ d, unfollow_db d A B) (db a).
Proof.
  revert a. induction n as [|n IH]; intros a; [done|].
  destruct (unfollow_run A B a) as [Hr Hd].
  cbn [repeat_call]. rewrite eval_seq, exec_seq by eauto.
  destruct (IH (exec (unfollow A B) a)) as [-> ->].
  split; [done|]. by rewrite Hd, Nat.iter_succ_r.
Qed.

Lemma iter_fixed {X} (f : X → X) (x : X) n : f x = x → Nat.iter n f x = x.
Proof. intros Hf. induction n as [|n IH]; simpl; congruence. Qed.

(** The two counters read the store only. *)
Lemma followers_count_run A a :
  eval (followers_count A) a
  = Return (Z.of_nat (length (followers_select A (db a)))).
Proof. reflexivity. Qed.

Lemma following_count_run A a :
  eval (following_count A) a
  = Return (Z.of_nat (length (following_select A (db a)))).
Proof. reflexivity. Qed.

End follower_graph.

(** C7. For accounts A and B (B a row of the user table): after
    [follow(A, B)] the check [is_following(A, B)] is true, after
    [unfollow(A, B)] it is false, and making either call [n >= 1] times
    leaves the same store, hence the same follower and following counts
    for every account, as making it once. *)
Theorem follow_unfollow_idempotent (A B : User.t) (a : app) (n : nat) :
  User.id B ∈ User.id <$> user (db a) →
  (1 ≤ n)%nat →
  eval (follow A B ;; is_following A B) a = Return true
  ∧ eval (unfollow A B ;; is_following A B) a = Return false
  ∧ eval (repeat_call n (follow A B)) a = Return tt
  ∧ eval (repeat_call n (unfollow A B)) a = Return tt
  ∧ db (exec (repeat_call n (follow A B)) a) = db (exec (follow A B) a)
  ∧ db (exec (repeat_call n (unfollow A B)) a) = db (exec (unfollow A B) a)
  ∧ (∀ X : User.t,
       eval (repeat_call n (follow A B) ;; followers_count X) a
       = eval (follow A B ;; followers_count X) a
       ∧ eval (repeat_call n (follow A B) ;; following_count X) a
         = eval (follow A B ;; following_count X) a
       ∧ eval (repeat_call n (unfollow A B) ;; followers_count X) a
         = eval (unfollow A B ;; followers_count X) a
       ∧ eval (repeat_call n (unfollow A B) ;; following_count X) a
         = eval (unfollow A B ;; following_count X) a).
Proof.
  intros HB Hn.
  destruct (follow_run A B a) as [Hf Hfd].
  destruct (unfollow_run A B a) as [Hu Hud].
  destruct (repeat_follow_run n A B a) as [Hrf Hrfd].
  destruct (repeat_unfollow_run n A B a) as [Hru Hrud].
  assert (Hfn : db (exec (repeat_call n (follow A B)) a)
                = db (exec (follow A B) a)).
  { rewrite Hrfd, Hfd. destruct n as [|n]; [lia|].
    rewrite Nat.iter_succ_r. apply iter_fixed, follow_db_fixed.
    by apply has_edge_follow. }
  assert (Hun : db (exec (repeat_call n (unfollow A B)) a)
                = db (exec (unfollow A B) a)).
  { rewrite Hrud, Hud. destruct n as [|n]; [lia|].
    rewrite Nat.iter_succ_r. apply iter_fixed, unfollow_db_fixed.
    apply has_edge_unfollow. }
  split_and!; try done.
  - rewrite eval_seq by eauto. unfold eval. rewrite is_following_run. simpl.
    rewrite Hfd. f_equal. by apply has_edge_follow.
  - rewrite eval_seq by eauto. unfold eval. rewrite is_following_run. simpl.
    rewrite Hud. f_equal. apply has_edge_unfollow.
  - intros X. rewrite !eval_seq by eauto.
    rewrite !followers_count_run, !following_count_run.
    by rewrite Hfn, Hun.
Qed.

(** C7 at work: alice follows bob three times, or once. *)
Lemma follow_unfollow_idempotent_example :
  User.id bob ∈ User.id <$> user (db (example_app example_db))
  ∧ (1 ≤ 3)%nat
  ∧ db (exec (repeat_call 3 (follow carol bob)) (example_app example_db))
    = db (exec (follow carol bob) (example_app example_db)).
Proof.
  assert (H1 : User.id bob ∈ User.id <$> user (db (example_app example_db)))
    by by_computation.
  assert (H2 : (1 ≤ 3)%nat) by lia.
  split_and!; [exact H1 | exact H2 |].
  exact (proj1 (proj2 (proj2 (proj2 (proj2
    (follow_unfollow_idempotent carol bob (example_app example_db) 3 H1 H2)))))).
Defined.

(** ** The timeline *)

Section timeline.
Implicit Types (A : User.t) (d : database) (p : Post.t).

Global Instance timestamp_desc_total : Total timestamp_desc.
Proof. intros p q. unfold timestamp_desc. lia. Qed.
Global Instance timestamp_desc_trans : Transitive timestamp_desc.
Proof. intros p q r. unfold timestamp_desc. lia. Qed.

Lemma elem_of_left_outer_join {X Y} (rows : list X) (matches : X → list Y)
    (r : X) (o : option Y) :
  (r, o) ∈ left_outer_join rows matches ↔
  r ∈ rows ∧ match o with
             | None => matches r = []
             | Some y => y ∈ matches r
             end.
Proof.
  unfold left_outer_join. rewrite list_elem_of_bind. split.
  - intros (r' & Hin & Hr').
    destruct (matches r') as [|y ys] eqn:E.
    + apply list_elem_of_singleton in Hin. by simplify_eq.
    + apply list_elem_of_fmap in Hin as (y' & Heq & Hy'). simplify_eq.
      by rewrite E.
  - intros [Hr Ho]. exists r; split; [|done].
    destruct o as [y|].
    + destruct (matches r) as [|y' ys] eqn:E; [by apply elem_of_nil in Ho|].
      apply list_elem_of_fmap. by exists y.
    + rewrite Ho. left.
Qed.

(** The WHERE clause of [following_posts], read back. *)
Lemma where_clause_true (follower_id : option Z) (author_id self_id : Z) :
  sql_or (sql_eq follower_id (Some self_id))
         (sql_eq (Some author_id) (Some self_id)) = Some true
  ↔ follower_id = Some self_id ∨ author_id = self_id.
Proof.
  destruct follower_id as [x|]; simpl.
  - destruct (bool_decide_reflect (x = self_id)),
             (bool_decide_reflect (author_id = self_id));
      intuition congruence.
  - destruct (bool_decide_reflect (author_id = self_id));
      intuition congruence.
Qed.

Lemma NoDup_fmap_inj_on {X Y} (f : X → Y) (l : list X) (x y : X) :
  NoDup (f <$> l) → x ∈ l → y ∈ l → f x = f y → x = y.
Proof.
  induction l as [|z l IH]; intros Hnd Hx Hy Hf; [by apply elem_of_nil in Hx|].
  rewrite fmap_cons in Hnd. apply NoDup_cons in Hnd as [Hz Hnd].
  apply elem_of_cons in Hx as [->|Hx]; apply elem_of_cons in Hy as [->|Hy].
  - done.
  - exfalso. apply Hz. rewrite Hf. by apply list_elem_of_fmap_2.
  - exfalso. apply Hz. rewrite <- Hf. by apply list_elem_of_fmap_2.
  - by apply IH.
Qed.

Lemma following_posts_sound A d p :
  p ∈ following_posts A d →
  p ∈ post d
  ∧ (Post.user_id p = User.id A
     ∨ Follow.mk (User.id A) (Post.user_id p) ∈ followers d).
Proof.
  unfold following_posts, order_by, group_by.
  rewrite merge_sort_Permutation, elem_of_remove_dups, list_elem_of_fmap.
  intros ([[q author] fo] & -> & Hr). simpl.
  apply list_elem_of_filter in Hr as [Hw Hr]. simpl in Hw.
  apply where_clause_true in Hw.
  apply elem_of_left_outer_join in Hr as [Hpa Hfo].
  apply list_elem_of_bind in Hpa as (q' & Hpa & Hq').
  apply list_elem_of_fmap in Hpa as (author' & Heq & Hau). simplify_eq.
  apply list_elem_of_filter in Hau as [Hid Hau].
  split; [done|]. destruct Hw as [Hw|Hw]; [right | left; congruence].
  destruct fo as [u|]; [|done]. simpl in *.
  apply list_elem_of_bind in Hfo as (f & Hu & Hf).
  apply list_elem_of_filter in Hf as [Hfd Hf].
  apply list_elem_of_filter in Hu as [Hfr Hu].
  destruct f as [f1 f2]; simpl in *.
  replace (Follow.mk (User.id A) (Post.user_id _)) with (Follow.mk f1 f2);
    [done | f_equal; congruence].
Qed.

Lemma following_posts_complete A d p :
  User.id A ∈ User.id <$> user d →
  p ∈ post d →
  Post.user_id p ∈ User.id <$> user d →
  Post.user_id p = User.id A
  ∨ Follow.mk (User.id A) (Post.user_id p) ∈ followers d →
  p ∈ following_posts A d.
Proof.
  intros HA Hp Hau Hcase. unfold following_posts, order_by, group_by.
  rewrite merge_sort_Permutation, elem_of_remove_dups, list_elem_of_fmap.
  apply list_elem_of_fmap in Hau as (author & Hid & Hau).
  assert (Hpa : (p, author) ∈
            post d ≫= λ p, (λ Author, (p, Author))
              <$> filter (λ u, User.id u = Post.user_id p) (user d)).
  { apply list_elem_of_bind. exists p; split; [|done].
    apply list_elem_of_fmap. exists author; split; [done|].
    by apply list_elem_of_filter. }
  set (matches := λ r : Post.t * User.t,
         filter (λ f, Follow.followed_id f = User.id r.2) (followers d)
         ≫= λ f, filter (λ u, User.id u = Follow.follower_id f) (user d)).
  destruct Hcase as [Hown|Hedge].
  - destruct (matches (p, author)) as [|u us] eqn:E.
    + exists (p, author, None). split; [done|].
      apply list_elem_of_filter; split.
      { apply where_clause_true. right. simpl. congruence. }
      by apply elem_of_left_outer_join.
    + exists (p, author, Some u). split; [done|].
      apply list_elem_of_filter; split.
      { apply where_clause_true. right. simpl. congruence. }
      apply elem_of_left_outer_join. split; [done|].
      fold matches. rewrite E. left.
  - apply list_elem_of_fmap in HA as (u & HuA & Hu).
    exists (p, author, Some u). split; [done|].
    apply list_elem_of_filter; split.
    { apply where_clause_true. left. simpl. congruence. }
    apply elem_of_left_outer_join. split; [done|].
    apply list_elem_of_bind. eexists; split; [|
      apply list_elem_of_filter; split; [|exact Hedge]]; simpl.
    + apply list_elem_of_filter. split; [simpl; congruence | done].
    + congruence.
Qed.

End timeline.

(** C1. For an account A (a row of the user table), every post that
    [following_posts] returns is a post whose author is A or is followed
    by A, and every such post whose author is a row of the user table is
    returned, so every post of A; hence, in a store that keeps the foreign
    key of posts, the result is exactly those posts.  No post occurs
    twice, however many edges lead to its author, and no post id does
    when ids are a primary key; the posts come newest first. *)
Theorem following_posts_timeline (A : User.t) (d : database) :
  User.id A ∈ User.id <$> user d →
  (∀ p, p ∈ following_posts A d →
        p ∈ post d
        ∧ (Post.user_id p = User.id A
           ∨ Follow.mk (User.id A) (Post.user_id p) ∈ followers d))
  ∧ (∀ p, p ∈ post d →
          Post.user_id p ∈ User.id <$> user d →
          Post.user_id p = User.id A
          ∨ Follow.mk (User.id A) (Post.user_id p) ∈ followers d →
          p ∈ following_posts A d)
  ∧ (∀ p, p ∈ post d → Post.user_id p = User.id A →
          p ∈ following_posts A d)
  ∧ ((∀ q, q ∈ post d → Post.user_id q ∈ User.id <$> user d) →
     ∀ p, p ∈ following_posts A d ↔
          p ∈ post d
          ∧ (Post.user_id p = User.id A
             ∨ Follow.mk (User.id A) (Post.user_id p) ∈ followers d))
  ∧ NoDup (following_posts A d)
  ∧ (NoDup (Post.id <$> post d) → NoDup (Post.id <$> following_posts A d))
  ∧ StronglySorted timestamp_desc (following_posts A d).
Proof.
  intros HA.
  assert (Hnd : NoDup (following_posts A d)).
  { unfold following_posts, order_by, group_by.
    rewrite merge_sort_Permutation. apply NoDup_remove_dups. }
  split_and!.
  - intros p. apply following_posts_sound.
  - intros p. by apply following_posts_complete.
  - intros p Hp Hown. apply following_posts_complete; auto.
    by rewrite Hown.
  - intros Hfk p. split; [apply following_posts_sound|].
    intros [Hp Hcase]. apply following_posts_complete; auto.
  - done.
  - intros Hpk. apply NoDup_fmap_2_strong; [|done].
    intros p q Hp Hq. apply (NoDup_fmap_inj_on Post.id (post d)); [done| |].
    + by apply following_posts_sound in Hp as [? _].
    + by apply following_posts_sound in Hq as [? _].
  - apply StronglySorted_merge_sort; apply _.
Qed.

(** C1 at work: alice follows bob, so her timeline is bob's two posts and
    her own, newest first; carol's is empty. *)
Lemma following_posts_timeline_example :
  User.id alice ∈ User.id <$> user example_db
  ∧ following_posts alice example_db
    = [Post.mk 3 "again" 200 2; Post.mk 1 "hello" 100 2;
       Post.mk 2 "first" 50 1]
  ∧ following_posts carol example_db = []
  ∧ NoDup (Post.id <$> following_posts alice example_db)
  ∧ StronglySorted timestamp_desc (following_posts alice example_db).
Proof.
  assert (H1 : User.id alice ∈ User.id <$> user example_db)
    by by_computation.
  assert (H3 : NoDup (Post.id <$> post example_db)) by by_computation.
  destruct (following_posts_timeline alice example_db H1)
    as (_ & _ & _ & _ & _ & Hids & Hsorted).
  split_and!; [exact H1 | vm_compute; reflexivity | vm_compute; reflexivity
              | exact (Hids H3) | exact Hsorted].
Defined.

(** ** Notification coalescing *)

Section coalescing.
Context `{JsonCodec}.
Implicit Types (A : User.t) (a : app) (d : database) (x : Notification.t).

Lemma add_notification_run A name data a :
  eval (add_notification A name data) a
  = Return (fresh_notification A name data a)
  ∧ db (exec (add_notification A name data) a)
    = set_notification
        (λ t, filter (λ x, ¬ named (User.id A) name x) t
              ++ [fresh_notification A name data a]) (db a)
  ∧ clock (exec (add_notification A name data) a) = clock a.
Proof. done. Qed.

Lemma filter_named_fresh A name data a t :
  filter (named (User.id A) name)
         (filter (λ x, ¬ named (User.id A) name x) t
          ++ [fresh_notification A name data a])
  = [fresh_notification A name data a].
Proof.
  rewrite filter_app, list_filter_filter.
  rewrite (filter_cons_True _ _ []) by done.
  replace (filter _ t) with (@nil Notification.t); [done|].
  symmetry. induction t as [|x t IH]; [done|].
  rewrite filter_cons_False; [done | tauto].
Qed.

Lemma filter_other_fresh A name data a t u nm :
  ¬ (u = User.id A ∧ nm = name) →
  filter (named u nm)
         (filter (λ x, ¬ named (User.id A) name x) t
          ++ [fresh_notification A name data a])
  = filter (named u nm) t.
Proof.
  intros Hne. rewrite filter_app, list_filter_filter.
  rewrite (filter_cons_False _ _ []), app_nil_r
    by (unfold named; simpl; intros [? ?]; apply Hne; split; congruence).
  apply list_filter_iff. intros x. unfold named. split; [tauto|].
  intros [? ?]. split; [done|]. intros [? ?]. apply Hne; split; congruence.
Qed.

Lemma add_notification_coalesced A name data a :
  coalesced (db a) → coalesced (db (exec (add_notification A name data) a)).
Proof.
  intros Hc u nm.
  destruct (add_notification_run A name data a) as (_ & -> & _). simpl.
  destruct (decide (u = User.id A ∧ nm = name)) as [[-> ->]|Hne].
  - by rewrite filter_named_fresh.
  - rewrite filter_other_fresh by done. apply Hc.
Qed.

Lemma add_notifications_run calls a :
  eval (add_notifications calls) a = Return tt
  ∧ (coalesced (db a) → coalesced (db (exec (add_notifications calls) a))).
Proof.
  revert a. induction calls as [|[[A name] data] calls IH]; intros a; [done|].
  unfold add_notifications in *. cbn [for_each fst snd].
  rewrite eval_seq, exec_seq by (by eexists).
  destruct (IH (exec (add_notification A name data ;; mret ()) a))
    as [Hr Hc].
  split; [done|]. intros Hca. apply Hc.
  by apply (add_notification_coalesced A name data a).
Qed.

End coalescing.

(** C2. [add_notification(A, n, v1)] then [add_notification(A, n, v2)]
    leaves exactly one notification named [n] for A, the one the second
    call returned, and its payload decodes to [v2] (for a payload the JSON
    codec reads back as written).  Any sequence of [add_notification]
    calls made on a store with at most one notification per (account,
    name) returns and leaves such a store. *)
Theorem add_notification_coalesces `{JsonCodec} (A : User.t) (n : string)
    (v1 v2 : json) (a : app) (calls : list (User.t * string * json)) :
  json_loads (json_dumps v2) = Some v2 →
  coalesced (db a) →
  (∃ n2 a2,
      (add_notification A n v1 ;; add_notification A n v2) a = (Return n2, a2)
      ∧ filter (named (User.id A) n) (notification (db a2)) = [n2]
      ∧ Notification.payload_json n2 = json_dumps v2
      ∧ eval (get_data n2) a2 = Return v2)
  ∧ eval (add_notifications calls) a = Return tt
  ∧ coalesced (db (exec (add_notifications calls) a)).
Proof.
  intros Hcodec Hc.
  split; [|destruct (add_notifications_run calls a); auto].
  set (a1 := exec (add_notification A n v1) a).
  exists (fresh_notification A n v2 a1), (exec (add_notification A n v2) a1).
  split_and!.
  - done.
  - destruct (add_notification_run A n v2 a1) as (_ & -> & _). simpl.
    apply filter_named_fresh.
  - done.
  - unfold eval, get_data. simpl. by rewrite Hcodec.
Qed.

(** C2 at work: the unread counter of bob written twice, then read; and
    three writes for two accounts. *)
Lemma add_notification_coalesces_example :
  let H := example_codec in
  let a2 := exec (add_notification bob "unread_message_count" (JInt 1) ;;
                  add_notification bob "unread_message_count" (JInt 0))
                 (example_app example_db) in
  let calls := [(alice, "task_progress", JInt 10);
                (bob, "unread_message_count", JInt 3);
                (alice, "task_progress", JInt 20)] in
  json_loads (json_dumps (JInt 0)) = Some (JInt 0)
  ∧ coalesced (db (example_app example_db))
  ∧ (∃ n2, filter (named 2 "unread_message_count") (notification (db a2))
           = [n2]
           ∧ eval (get_data n2) a2 = Return (JInt 0))
  ∧ coalesced (db (exec (add_notifications calls) (example_app example_db))).
Proof.
  intros H a2 calls.
  assert (H1 : json_loads (json_dumps (JInt 0)) = Some (JInt 0))
    by reflexivity.
  assert (H2 : coalesced (db (example_app example_db)))
    by (intros u nm; simpl; lia).
  split_and!; [exact H1 | exact H2 | |].
  - destruct (add_notification_coalesces bob "unread_message_count"
                (JInt 1) (JInt 0) (example_app example_db) calls H1 H2)
      as [(n2 & a2' & Hrun & Hone & _ & Hdata) _].
    exists n2. subst a2. unfold exec. rewrite Hrun. by split.
  - exact (proj2 (proj2 (add_notification_coalesces bob
             "unread_message_count" (JInt 1) (JInt 0)
             (example_app example_db) calls H1 H2))).
Defined.

(** C10. [add_notification(A, n, d)] keeps, in order, every notification
    that belongs to another account or carries another name, adds only the
    row it returns, and leaves every other table as it was. *)
Theorem add_notification_frame `{JsonCodec} (A : User.t) (n : string)
    (d : json) (a : app) :
  let a' := exec (add_notification A n d) a in
  filter (λ x, ¬ named (User.id A) n x) (notification (db a'))
  = filter (λ x, ¬ named (User.id A) n x) (notification (db a))
  ∧ (∀ x, ¬ named (User.id A) n x →
          x ∈ notification (db a') ↔ x ∈ notification (db a))
  ∧ (∀ x, x ∈ notification (db a') →
          x ∈ notification (db a) ∨ eval (add_notification A n d) a = Return x)
  ∧ user (db a') = user (db a)
  ∧ followers (db a') = followers (db a)
  ∧ post (db a') = post (db a)
  ∧ message (db a') = message (db a)
  ∧ task (db a') = task (db a).
Proof.
  intros a'. subst a'.
  destruct (add_notification_run A n d a) as (Hret & Hdb & _).
  rewrite Hdb, Hret. simpl.
  assert (Hfresh : named (User.id A) n (fresh_notification A n d a)) by done.
  split_and!; try done.
  - rewrite filter_app, list_filter_filter.
    rewrite (filter_cons_False _ _ []), app_nil_r by tauto.
    apply list_filter_iff. tauto.
  - intros x Hx. rewrite elem_of_app, list_elem_of_filter,
      list_elem_of_singleton. split; [|tauto].
    intros [[_ ?]| ->]; [done | tauto].
  - intros x. rewrite elem_of_app, list_elem_of_filter,
      list_elem_of_singleton. intros [[_ ?]| ->]; auto.
Qed.

(** ** The notification feed *)

Section feed.
Context `{JsonCodec}.
Implicit Types (A : User.t) (a : app) (d : database) (x : Notification.t).

Global Instance timestamp_asc_total : Total timestamp_asc.
Proof. intros m n. unfold timestamp_asc. lia. Qed.
Global Instance timestamp_asc_trans : Transitive timestamp_asc.
Proof. intros m n o. unfold timestamp_asc. lia. Qed.

Lemma notifications_query_perm A since d :
  notifications_query A since d ≡ₚ filter (later_than A since) (notification d).
Proof.
  unfold notifications_query, notifications_select, order_by.
  rewrite merge_sort_Permutation, list_filter_filter.
  erewrite list_filter_iff; [done|]. unfold later_than. tauto.
Qed.

Lemma later_than_mono A t t' d :
  t' ≤ t →
  filter (later_than A t) (notification d)
  = filter (later_than A t) (filter (later_than A t') (notification d)).
Proof.
  intros Ht. rewrite list_filter_filter. apply list_filter_iff.
  unfold later_than. intros x. split; [|tauto]. intros [? ?].
  repeat split; (done || lia).
Qed.

Lemma render_notifications_run rows a :
  Forall (λ x, is_Some (json_loads (Notification.payload_json x))) rows →
  ∃ items, render_notifications rows a = (Return items, a)
           ∧ item_name <$> items = Notification.name <$> rows
           ∧ item_timestamp <$> items = Notification.timestamp <$> rows
           ∧ Forall2 (λ i x, json_loads (Notification.payload_json x)
                             = Some (item_data i)) items rows.
Proof.
  induction 1 as [|x rows [v Hv] _ (items & Hrun & Hn & Ht & Hd)].
  - by exists [].
  - exists (mk_item (Notification.name x) v (Notification.timestamp x)
            :: items).
    split_and!.
    + cbn [render_notifications]. unfold get_data, mbind, M_bind.
      rewrite Hv. simpl. by rewrite Hrun.
    + rewrite !fmap_cons. by rewrite Hn.
    + rewrite !fmap_cons. by rewrite Ht.
    + by constructor.
Qed.

End feed.

(** C8. The [notifications] view selects exactly A's notifications with a
    timestamp strictly greater than [t], each as often as the table holds
    it, in ascending timestamp order, and answers with their names, decoded
    payloads and timestamps when every stored payload is JSON.  A smaller
    threshold selects a superset, so no fewer rows; a threshold at or above
    A's latest timestamp selects none. *)
Theorem notifications_since `{JsonCodec} (A : User.t) (t t' : Z) (a : app) :
  Forall (λ x, is_Some (json_loads (Notification.payload_json x)))
         (notification (db a)) →
  let rows := notifications_query A t (db a) in
  (∀ x, x ∈ rows ↔ x ∈ notification (db a)
                   ∧ Notification.user_id x = User.id A
                   ∧ t < Notification.timestamp x)
  ∧ rows ≡ₚ filter (later_than A t) (notification (db a))
  ∧ StronglySorted timestamp_asc rows
  ∧ (∃ items, eval (notifications A (Some t)) a = Return items
              ∧ item_name <$> items = Notification.name <$> rows
              ∧ item_timestamp <$> items = Notification.timestamp <$> rows
              ∧ Forall2 (λ i x, json_loads (Notification.payload_json x)
                                = Some (item_data i)) items rows)
  ∧ (t' ≤ t →
       rows ⊆ notifications_query A t' (db a)
       ∧ (length rows ≤ length (notifications_query A t' (db a)))%nat)
  ∧ ((∀ x, x ∈ notification (db a) →
           Notification.user_id x = User.id A →
           Notification.timestamp x ≤ t) → rows = []).
Proof.
  intros Hjson rows.
  assert (Hperm := notifications_query_perm A t (db a)). fold rows in Hperm.
  assert (Hin : ∀ x, x ∈ rows ↔ x ∈ notification (db a)
                               ∧ Notification.user_id x = User.id A
                               ∧ t < Notification.timestamp x).
  { intros x. rewrite Hperm, list_elem_of_filter. unfold later_than. tauto. }
  split_and!; [done | done | | | |].
  - apply StronglySorted_merge_sort; apply _.
  - assert (Hrows : Forall (λ x, is_Some (json_loads
                                   (Notification.payload_json x))) rows).
    { apply Forall_forall. intros x Hx. apply Hin in Hx as [Hx _].
      by apply (proj1 (Forall_forall _ _) Hjson). }
    destruct (render_notifications_run rows
                (exec (scalars (notifications_query A t)) a) Hrows)
      as (items & Hrun & Hitems).
    exists items. split; [|done].
    unfold eval, notifications. simpl.
    by rewrite (bind_run _ _ a rows
                  (exec (scalars (notifications_query A t)) a)), Hrun.
  - intros Ht. split.
    + intros x. rewrite Hin, (notifications_query_perm A t' (db a)),
        list_elem_of_filter. unfold later_than. intros (? & ? & ?).
      repeat split; (done || lia).
    + rewrite Hperm, (notifications_query_perm A t' (db a)).
      rewrite (later_than_mono A t t') by done. apply length_filter.
  - intros Hlate. apply Permutation_nil_r. rewrite Hperm.
    replace (filter _ _) with (@nil Notification.t); [done|]. symmetry.
    clear Hperm Hin Hjson rows.
    induction (notification (db a)) as [|x l IH]; [done|].
    rewrite filter_cons_False.
    + apply IH. intros y Hy. apply Hlate. by right.
    + unfold later_than. intros [Hu Hts].
      specialize (Hlate x (list_elem_of_here _ _) Hu). lia.
Qed.

(** ** Tokens *)

Section tokens.
Implicit Types (u : User.t) (a : app) (token : jwt_token).

Lemma verify_invalid token a e a' :
  jwt_decode token (SECRET_KEY (config a)) ["HS256"] a = (Raise e, a') →
  verify_reset_password_token token a = (Return None, a').
Proof.
  intros Hdec. unfold verify_reset_password_token.
  unfold mbind at 1, M_bind. simpl.
  unfold mbind at 1, M_bind, try_except.
  by rewrite (bind_raise _ _ a e a' Hdec).
Qed.

Lemma try_except_return {X} (m : M X) catches h a x a' :
  m a = (Return x, a') → try_except m catches h a = (Return x, a').
Proof. unfold try_except. by intros ->. Qed.

Lemma jwt_decode_valid payload key exp a :
  dict_get "exp" payload = Some (JInt exp) →
  next_reading a < whole_seconds exp →
  jwt_decode (jwt_signed "HS256" key payload) key ["HS256"] a
  = (Return (JDict payload), exec time a).
Proof.
  intros Hexp Hlt. unfold jwt_decode.
  destruct (decide ("HS256" ∈ ["HS256"])) as [_|Hn];
    [|destruct Hn; apply list_elem_of_here].
  rewrite decide_True by done. rewrite Hexp.
  rewrite (bind_run time _ a (next_reading a) (exec time a)) by done.
  by rewrite decide_False by lia.
Qed.

Lemma verify_valid payload exp id a :
  dict_get "exp" payload = Some (JInt exp) →
  dict_get "reset_password" payload = Some id →
  next_reading a < whole_seconds exp →
  verify_reset_password_token
    (jwt_signed "HS256" (SECRET_KEY (config a)) payload) a
  = get_User_by id (exec time a).
Proof.
  intros Hexp Hid Hlt. unfold verify_reset_password_token.
  rewrite (bind_run get_app _ a a a) by done.
  rewrite (bind_run _ _ a (Some id) (exec time a)); [done|].
  apply try_except_return.
  rewrite (bind_run _ _ a (JDict payload) (exec time a))
    by (by apply (jwt_decode_valid payload _ exp)).
  simpl. by rewrite Hid.
Qed.

Lemma head_filter_unique {X} (P : X → Prop) `{∀ x, Decision (P x)}
    (l : list X) (x : X) :
  x ∈ l → P x → (∀ y, y ∈ l → P y → y = x) → head (filter P l) = Some x.
Proof.
  intros Hx HP Huniq.
  destruct (filter P l) as [|y l'] eqn:E.
  - assert (Hin : x ∈ filter P l) by (by apply list_elem_of_filter).
    rewrite E in Hin. by apply elem_of_nil in Hin.
  - assert (Hin : y ∈ filter P l) by (rewrite E; left).
    apply list_elem_of_filter in Hin as [HPy Hy]. simpl. f_equal. auto.
Qed.

Lemma get_User_found u a :
  u ∈ user (db a) → NoDup (User.id <$> user (db a)) →
  get_User (User.id u) a = (Return (Some u), a).
Proof.
  intros Hu Hnd. unfold get_User, mbind, M_bind, mret, M_ret. simpl.
  do 2 f_equal.
  apply head_filter_unique; [done | done |].
  intros v Hv Hid. by apply (NoDup_fmap_inj_on User.id (user (db a))).
Qed.

Lemma check_token_run (tok : string) u a :
  u ∈ user (db a) → User.token u = Some tok → token_unique (user (db a)) →
  check_token tok a
  = match User.token_expiration u with
    | None => (Raise AttributeError, exec flush a)
    | Some exp =>
        (Return (if decide (exp < next_reading a) then None else Some u),
         exec (flush ;; time) a)
    end.
Proof.
  intros Hu Htok Huniq. unfold check_token.
  rewrite (bind_run _ _ a (Some u) (exec flush a)).
  - destruct (User.token_expiration u) as [exp|]; [|done].
    unfold mbind, M_bind, next_reading. simpl. by case_decide.
  - unfold scalar, scalars, mbind, M_bind, mret, M_ret. simpl. do 2 f_equal.
    apply head_filter_unique; [done | done |].
    intros v Hv Hvt. by apply (Huniq v u tok).
Qed.

Lemma check_token_unknown (tok : string) a :
  (∀ u, u ∈ user (db a) → User.token u ≠ Some tok) →
  check_token tok a = (Return None, exec flush a).
Proof.
  intros Hnone. unfold check_token.
  rewrite (bind_run _ _ a None (exec flush a)); [done|].
  unfold scalar, scalars, mbind, M_bind, mret, M_ret. simpl. do 2 f_equal.
  apply head_None. apply elem_of_nil_inv. intros v Hv.
  apply list_elem_of_filter in Hv as [Hvt Hv]. by apply (Hnone v).
Qed.

Lemma revoke_token_run u a :
  let u' := User.set_token_expiration (Some (next_reading a - seconds 1)) u in
  revoke_token u a = (Return u', exec (revoke_token u) a)
  ∧ user (db (exec (revoke_token u) a))
    = (λ r, if decide (User.id r = User.id u) then u' else r) <$> user (db a)
  ∧ next_reading (exec (revoke_token u) a) = clock a (S (clock_reads a)).
Proof. done. Qed.

End tokens.

(** C9. In a store whose user ids and tokens are unique, for an account
    [u] of it: [verify_reset_password_token] returns [None], and does not
    raise, on every token whose decoding raises, so on a malformed token,
    on one signed with another key, and on one whose [exp], cut to whole
    seconds, has passed; on the token [get_reset_password_token] issued
    for [u], verified before that, it returns [u].  [check_token] returns
    [None] when no account holds the token, when the holder's expiry is
    earlier than the clock, and right after [revoke_token] (the clock not
    running backwards); it returns the holder while the clock has not
    passed the expiry. *)
Theorem token_verification (a : app) (u : User.t) (tok : string) :
  u ∈ user (db a) →
  NoDup (User.id <$> user (db a)) →
  token_unique (user (db a)) →
  (∀ token,
      (∃ e, eval (jwt_decode token (SECRET_KEY (config a)) ["HS256"]) a
            = Raise e) →
      eval (verify_reset_password_token token) a = Return None)
  ∧ (∀ text,
       eval (verify_reset_password_token (jwt_malformed text)) a
       = Return None)
  ∧ (∀ alg key payload,
       key ≠ SECRET_KEY (config a) →
       eval (verify_reset_password_token (jwt_signed alg key payload)) a
       = Return None)
  ∧ (∀ alg key payload exp,
       dict_get "exp" payload = Some (JInt exp) →
       whole_seconds exp ≤ next_reading a →
       eval (verify_reset_password_token (jwt_signed alg key payload)) a
       = Return None)
  ∧ (∀ a0 expires_in,
       SECRET_KEY (config a0) = SECRET_KEY (config a) →
       next_reading a
       < whole_seconds (next_reading a0 + seconds expires_in) →
       ∃ token,
         eval (get_reset_password_token u expires_in) a0 = Return token
         ∧ eval (verify_reset_password_token token) a = Return (Some u))
  ∧ ((∀ v, v ∈ user (db a) → User.token v ≠ Some tok) →
     eval (check_token tok) a = Return None)
  ∧ (∀ exp,
       User.token u = Some tok → User.token_expiration u = Some exp →
       exp < next_reading a →
       eval (check_token tok) a = Return None)
  ∧ (User.token u = Some tok →
     clock a (clock_reads a) ≤ clock a (S (clock_reads a)) →
     eval (revoke_token u ;; check_token tok) a = Return None)
  ∧ (∀ exp,
       User.token u = Some tok → User.token_expiration u = Some exp →
       next_reading a ≤ exp →
       eval (check_token tok) a = Return (Some u)).
Proof.
  intros Hu Hnd Huniq.
  assert (Hinvalid : ∀ token,
    (∃ e, eval (jwt_decode token (SECRET_KEY (config a)) ["HS256"]) a
          = Raise e) →
    eval (verify_reset_password_token token) a = Return None).
  { intros token [e He]. unfold eval in *.
    destruct (jwt_decode token (SECRET_KEY (config a)) ["HS256"] a)
      as [r a'] eqn:Hdec. simpl in He. subst r.
    by rewrite (verify_invalid token a e a' Hdec). }
  split_and!.
  - done.
  - intros text. apply Hinvalid. by exists DecodeError.
  - intros alg key payload Hkey. apply Hinvalid.
    unfold eval, jwt_decode.
    destruct (decide (alg ∈ ["HS256"])); [|by eexists].
    rewrite decide_False by done. by eexists.
  - intros alg key payload exp Hexp Hnow. apply Hinvalid.
    unfold eval, jwt_decode.
    destruct (decide (alg ∈ ["HS256"])); [|by eexists].
    destruct (decide (key = SECRET_KEY (config a))); [|by eexists].
    rewrite Hexp. unfold mbind, M_bind. simpl.
    rewrite decide_True by done. by eexists.
  - intros a0 expires_in Hkey Hnow. eexists. split; [done|].
    change (SECRET_KEY (config (with_clock_reads _ a0)))
      with (SECRET_KEY (config a0)).
    unfold eval, jwt_encode. rewrite Hkey.
    rewrite (verify_valid _ (next_reading a0 + seconds expires_in)
               (JInt (User.id u))) by done.
    cbn [get_User_by]. by rewrite (get_User_found u (exec time a)).
  - intros Hnone. unfold eval. by rewrite check_token_unknown.
  - intros exp Htok Hexp Hlt. unfold eval.
    rewrite (check_token_run tok u a) by done. rewrite Hexp. simpl.
    by rewrite decide_True.
  - intros Htok Hclock.
    destruct (revoke_token_run u a) as (Hrun & Husers & Hnext).
    set (u' := User.set_token_expiration
                 (Some (next_reading a - seconds 1)) u) in *.
    unfold eval. rewrite (bind_run _ _ a u' _ Hrun).
    rewrite (check_token_run tok u').
    + rewrite Hnext. simpl. rewrite decide_True; [done|].
      unfold next_reading, seconds. lia.
    + rewrite Husers. apply list_elem_of_fmap. exists u.
      by rewrite decide_True.
    + done.
    + rewrite Husers. intros v w t Hv Hw Hvt Hwt.
      assert (Hholder : ∀ x, x ∈ (λ r, if decide (User.id r = User.id u)
                                       then u' else r) <$> user (db a) →
                             User.token x = Some t → t = tok → x = u').
      { intros x Hx Hxt ->.
        apply list_elem_of_fmap in Hx as (r & -> & Hr).
        case_decide as Hid; [done|]. destruct Hid.
        f_equal. by apply (Huniq r u tok). }
      destruct (decide (t = tok)) as [->|Hne].
      * by rewrite (Hholder v), (Hholder w).
      * apply list_elem_of_fmap in Hv as (r & -> & Hr).
        apply list_elem_of_fmap in Hw as (s & -> & Hs).
        repeat case_decide; simpl in *; try congruence.
        by apply (Huniq r s t).
  - intros exp Htok Hexp Hle. unfold eval.
    rewrite (check_token_run tok u a) by done. rewrite Hexp. simpl.
    rewrite decide_False; [done | lia].
Qed.

(** ** The search index mirror *)

Section mirror.
Implicit Types (a : app) (es : es_client) (obj : entity) (p : Post.t).

Lemma engine_applied_refl a es :
  elasticsearch a = Some es → engine_applied a a [].
Proof. intros Hes. by exists es, es. Qed.

Lemma engine_applied_trans a a' a'' ops ops' :
  engine_applied a a' ops → engine_applied a' a'' ops' →
  engine_applied a a'' (ops ++ ops').
Proof.
  intros (es & es' & H1 & H2 & H3 & H4 & H5)
         (es1 & es'' & H6 & H7 & H8 & H9 & H10).
  simplify_eq. exists es, es''. split_and!; try done; try congruence.
  by rewrite foldl_app, <- H5.
Qed.

Lemma add_to_index_run a es obj m :
  elasticsearch a = Some es → es_reachable es = true →
  as_SearchableMixin obj = Some m →
  ∃ a' op, add_to_index (__tablename__ m) m a = (Return tt, a')
           ∧ upsert_of obj = Some op ∧ engine_applied a a' [op].
Proof.
  intros Hes Hup Hm. destruct obj as [|p| | |]; simplify_eq/=.
  eexists _, _. split_and!; [|done|].
  - unfold add_to_index. rewrite (bind_run get_app _ a a a) by done.
    rewrite Hes. unfold es_request. rewrite Hup. reflexivity.
  - eexists es, _. split_and!; [done | reflexivity | done | done | done].
Qed.

Lemma remove_from_index_run a es obj m :
  elasticsearch a = Some es → es_reachable es = true →
  as_SearchableMixin obj = Some m →
  is_Some (es_docs es !! (__tablename__ m, model_id m)) →
  ∃ a' op, remove_from_index (__tablename__ m) m a = (Return tt, a')
           ∧ remove_of obj = Some op ∧ engine_applied a a' [op].
Proof.
  intros Hes Hup Hm [doc Hdoc]. destruct obj as [|p| | |]; simplify_eq/=.
  eexists _, _. split_and!; [|done|].
  - unfold remove_from_index. rewrite (bind_run get_app _ a a a) by done.
    rewrite Hes. unfold es_request, es_delete. rewrite Hup.
    change (model_id (Post_model p)) with (Post.id p). rewrite Hdoc.
    reflexivity.
  - eexists es, _. split_and!; [done | reflexivity | done | done | done].
Qed.

(** A removal that finds no document under the id raises. *)
Lemma remove_from_index_missing index m a es :
  elasticsearch a = Some es → es_reachable es = true →
  es_docs es !! (index, model_id m) = None →
  remove_from_index index m a
  = (Raise NotFoundError, with_elasticsearch (Some es) a).
Proof.
  intros Hes Hup Hdoc. unfold remove_from_index.
  rewrite (bind_run get_app _ a a a) by done.
  rewrite Hes. unfold es_request, es_delete. by rewrite Hup, Hdoc.
Qed.

(** One loop of [after_commit]: [call] is [add_to_index] or
    [remove_from_index], [op_of] the operation asked for an object. *)
Lemma mirror_loop (call : string → searchable_model → M unit)
    (op_of : entity → option index_operation) :
  (∀ a es obj m,
      elasticsearch a = Some es → es_reachable es = true →
      as_SearchableMixin obj = Some m →
      ∃ a' op, call (__tablename__ m) m a = (Return tt, a')
               ∧ op_of obj = Some op ∧ engine_applied a a' [op]) →
  (∀ obj, as_SearchableMixin obj = None → op_of obj = None) →
  ∀ objs a es,
    elasticsearch a = Some es → es_reachable es = true →
    ∃ a', for_each objs (λ obj,
            match as_SearchableMixin obj with
            | Some m => call (__tablename__ m) m
            | None => mret tt
            end) a = (Return tt, a')
          ∧ engine_applied a a' (omap op_of objs).
Proof.
  intros Hcall Hskip objs.
  induction objs as [|obj objs IH]; intros a es Hes Hup.
  - exists a. split; [done | by eapply engine_applied_refl].
  - cbn [for_each].
    destruct (as_SearchableMixin obj) as [m|] eqn:Hm.
    + destruct (Hcall a es obj m Hes Hup Hm) as (a1 & op & Hrun & Hop & Hap).
      destruct Hap as (es0 & es1 & ? & Hes1 & Hup1 & Hans1 & Hdocs1).
      simplify_eq.
      destruct (IH a1 es1 Hes1) as (a' & Hrest & Hap'); [congruence|].
      exists a'. split.
      * by rewrite (bind_run _ _ a tt a1 Hrun).
      * cbn [omap list_omap]. rewrite Hop.
        apply (engine_applied_trans a a1 a' [op]); [|done].
        by exists es, es1.
    + destruct (IH a es Hes Hup) as (a' & Hrest & Hap').
      exists a'. split; [done|].
      cbn [omap list_omap]. by rewrite (Hskip obj Hm).
Qed.

(** The removal loop of [after_commit], when every removal finds its
    document. *)
Lemma remove_loop objs a es :
  elasticsearch a = Some es → es_reachable es = true →
  removals_indexed (es_docs es) objs →
  ∃ a', for_each objs (λ obj,
          match as_SearchableMixin obj with
          | Some m => remove_from_index (__tablename__ m) m
          | None => mret tt
          end) a = (Return tt, a')
        ∧ engine_applied a a' (omap remove_of objs).
Proof.
  revert a es. induction objs as [|obj objs IH]; intros a es Hes Hup [Hnd Hall].
  - exists a. split; [done | by eapply engine_applied_refl].
  - cbn [for_each]. destruct obj as [u|p|m|n|k];
      try (destruct (IH a es Hes Hup) as (a' & Hrest & Hap');
           [by split | by exists a']).
    cbn [omap list_omap document_key as_SearchableMixin fmap option_fmap
         option_map] in Hnd, Hall.
    apply NoDup_cons in Hnd as [Hfresh Hnd].
    apply Forall_cons in Hall as [Hdoc Hall].
    destruct (remove_from_index_run a es (EPost p) (Post_model p) Hes Hup
                eq_refl Hdoc) as (a1 & op & Hrun & Hop & Hap).
    destruct Hap as (es0 & es1 & ? & Hes1 & Hup1 & Hans1 & Hdocs1).
    simpl in Hop. simplify_eq.
    destruct (IH a1 es1 Hes1) as (a' & Hrest & Hap'); [congruence | |].
    { split; [done|]. apply Forall_forall. intros k Hk.
      rewrite Hdocs1. simpl. rewrite lookup_delete_ne.
      - by apply (proj1 (Forall_forall _ _) Hall).
      - intros <-. by apply Hfresh. }
    exists a'. split.
    + simpl. by rewrite (bind_run _ _ a tt a1 Hrun).
    + cbn [omap list_omap remove_of].
      apply (engine_applied_trans a a1 a' [Remove "post" (Post.id p)]);
        [|done].
      by exists es, es1.
Qed.

(** Upserts take no document away. *)
Lemma upserts_keep objs docs (k : string * Z) :
  is_Some (docs !! k) →
  is_Some (foldl apply_operation docs (omap upsert_of objs) !! k).
Proof.
  revert docs. induction objs as [|obj objs IH]; intros docs Hk; [done|].
  destruct obj as [|p| | |]; cbn [omap list_omap upsert_of]; try by apply IH.
  simpl. apply IH. apply lookup_insert_is_Some.
  destruct (decide (("post", Post.id p) = k)); [by left | by right].
Qed.

Lemma after_commit_run a es ch :
  _changes (db_session a) = Some ch →
  elasticsearch a = Some es → es_reachable es = true →
  removals_indexed (es_docs es) (changes_delete ch) →
  ∃ a', after_commit a = (Return tt, a')
        ∧ engine_applied a a'
            (omap upsert_of (changes_add ch)
             ++ omap upsert_of (changes_update ch)
             ++ omap remove_of (changes_delete ch))
        ∧ _changes (db_session a') = None.
Proof.
  intros Hch Hes Hup [Hnd Hall].
  assert (Hskip_up : ∀ obj, as_SearchableMixin obj = None →
                            upsert_of obj = None) by (by intros []).
  destruct (mirror_loop add_to_index upsert_of add_to_index_run Hskip_up
              (changes_add ch) a es Hes Hup) as (a1 & Hrun1 & Hap1).
  destruct Hap1 as (? & es1 & ? & Hes1 & Hup1 & Hans1 & Hdocs1) eqn:E1.
  simplify_eq.
  destruct (mirror_loop add_to_index upsert_of add_to_index_run Hskip_up
              (changes_update ch) a1 es1 Hes1) as (a2 & Hrun2 & Hap2);
    [congruence|].
  destruct Hap2 as (? & es2 & ? & Hes2 & Hup2 & Hans2 & Hdocs2) eqn:E2.
  simplify_eq.
  destruct (remove_loop (changes_delete ch) a2 es2 Hes2)
    as (a3 & Hrun3 & Hap3); [congruence | |].
  { split; [done|]. apply Forall_forall. intros k Hk.
    rewrite Hdocs2, Hdocs1. do 2 apply upserts_keep.
    by apply (proj1 (Forall_forall _ _) Hall). }
  eexists. split_and!.
  - unfold after_commit. rewrite (bind_run get_app _ a a a) by done.
    rewrite Hch.
    rewrite (bind_run _ _ a tt a1 Hrun1), (bind_run _ _ a1 tt a2 Hrun2),
      (bind_run _ _ a2 tt a3 Hrun3).
    reflexivity.
  - destruct Hap3 as (? & es3 & ? & Hes3 & Hup3 & Hans3 & Hdocs3).
    simplify_eq. exists es, es3. split_and!; try done; try congruence.
    by rewrite !foldl_app, <- Hdocs1, <- Hdocs2.
  - done.
Qed.

Lemma commit_run a es :
  elasticsearch a = Some es → es_reachable es = true →
  removals_indexed (es_docs es) (deleted (db_session a)) →
  ∃ a', commit a = (Return tt, a')
        ∧ engine_applied a a' (mirror_operations (db_session a)).
Proof.
  intros Hes Hup Hrm. unfold commit.
  set (a2 := exec (before_commit ;; flush) a).
  destruct (after_commit_run a2 es
              (mk_changes (new (db_session a)) (dirty (db_session a))
                          (deleted (db_session a))))
    as (a' & Hrun & Hap & _); [done..|].
  exists a'. split; [|done].
  rewrite (bind_run before_commit _ a tt (exec before_commit a)) by done.
  by rewrite (bind_run flush _ (exec before_commit a) tt a2).
Qed.

(** Where the documents stand after upserts, and after removals. *)
Lemma upserts_lookup objs docs p :
  EPost p ∈ objs →
  ∃ q, EPost q ∈ objs ∧ Post.id q = Post.id p
       ∧ foldl apply_operation docs (omap upsert_of objs)
           !! ("post", Post.id p)
         = Some [("body", JStr (Post.body q))].
Proof.
  induction objs as [|obj objs IH] using rev_ind;
    [by intros ?%elem_of_nil|].
  intros Hin. rewrite omap_app, foldl_app.
  assert (Hrest : (∀ r, obj = EPost r → Post.id r ≠ Post.id p) →
            ∃ q, EPost q ∈ objs ++ [obj] ∧ Post.id q = Post.id p
                 ∧ foldl apply_operation docs (omap upsert_of objs)
                     !! ("post", Post.id p)
                   = Some [("body", JStr (Post.body q))]).
  { intros Hother.
    assert (Hp : EPost p ∈ objs).
    { apply elem_of_app in Hin as [?|Hin]; [done|].
      apply list_elem_of_singleton in Hin as <-. by destruct (Hother p). }
    destruct (IH Hp) as (q & Hq & Hid & Hlook).
    exists q. split_and!; [apply elem_of_app; by left | done | done]. }
  destruct obj as [|r| | |]; simpl; try (by apply Hrest).
  destruct (decide (Post.id r = Post.id p)) as [Heq|Hne].
  - exists r. split_and!; [apply elem_of_app; right; left | done |].
    rewrite Heq. apply lookup_insert_eq.
  - destruct Hrest as (q & Hq & Hid & Hlook); [by intros ? [= <-]|].
    exists q. split_and!; [done | done |].
    rewrite lookup_insert_ne; [done | congruence].
Qed.

Lemma removes_lookup_removed objs docs p :
  EPost p ∈ objs →
  foldl apply_operation docs (omap remove_of objs) !! ("post", Post.id p)
  = None.
Proof.
  induction objs as [|obj objs IH] using rev_ind;
    [by intros ?%elem_of_nil|].
  intros Hin. rewrite omap_app, foldl_app.
  destruct obj as [|r| | |]; simpl;
    try (apply IH; apply elem_of_app in Hin as [?|Hin]; [done|];
         by apply list_elem_of_singleton in Hin).
  destruct (decide (Post.id r = Post.id p)) as [->|Hne].
  - apply lookup_delete_eq.
  - rewrite lookup_delete_ne by congruence.
    apply IH. apply elem_of_app in Hin as [?|Hin]; [done|].
    apply list_elem_of_singleton in Hin. by simplify_eq.
Qed.

Lemma removes_lookup_kept objs docs p :
  (∀ q, EPost q ∈ objs → Post.id q ≠ Post.id p) →
  foldl apply_operation docs (omap remove_of objs) !! ("post", Post.id p)
  = docs !! ("post", Post.id p).
Proof.
  induction objs as [|obj objs IH] using rev_ind; [done|].
  intros Hne. rewrite omap_app, foldl_app.
  assert (Hne' : ∀ q, EPost q ∈ objs → Post.id q ≠ Post.id p)
    by (intros q Hq; apply Hne, elem_of_app; by left).
  destruct obj as [|r| | |]; simpl; try by apply IH.
  rewrite lookup_delete_ne; [by apply IH|].
  intros [=Heq]. apply (Hne r); [|done].
  apply elem_of_app; right; left.
Qed.

Lemma upserts_lookup_other objs docs (k : string * Z) :
  (∀ p, EPost p ∈ objs → k ≠ ("post", Post.id p)) →
  foldl apply_operation docs (omap upsert_of objs) !! k = docs !! k.
Proof.
  induction objs as [|obj objs IH] using rev_ind; [done|].
  intros Hne. rewrite omap_app, foldl_app.
  assert (Hne' : ∀ q, EPost q ∈ objs → k ≠ ("post", Post.id q))
    by (intros q Hq; apply Hne, elem_of_app; by left).
  destruct obj as [|r| | |]; simpl; try by apply IH.
  rewrite lookup_insert_ne; [by apply IH|].
  intros Heq. apply (Hne r); [|done].
  apply elem_of_app; right; left.
Qed.

Lemma no_operations (op_of : entity → option index_operation) objs :
  (∀ obj, as_SearchableMixin obj = None → op_of obj = None) →
  (∀ obj, obj ∈ objs → as_SearchableMixin obj = None) →
  omap op_of objs = [].
Proof.
  intros Hskip. induction objs as [|obj objs IH]; intros Hall; [done|].
  cbn [omap list_omap]. rewrite (Hskip obj) by (apply Hall; left).
  apply IH. intros o Ho. apply Hall. by right.
Qed.

End mirror.

(** C4 fails on the code, with an engine that answers.  A post is added
    in the transaction; a query made before the commit flushes it, so it
    is no longer in [session.new] when [before_commit] takes its
    snapshot.  The commit returns, the post is in the store, and the
    index holds no document of it.  The same post committed with no
    query in between is indexed. *)
Lemma commit_misses_flushed_post :
  EPost new_post ∈ new (db_session (pending_app (Some (empty_engine true))))
  ∧ new (db_session (exec (scalars (following_posts alice))
                          (pending_app (Some (empty_engine true))))) = []
  ∧ eval (scalars (following_posts alice) ;; commit)
         (pending_app (Some (empty_engine true))) = Return tt
  ∧ new_post ∈ post (db (exec (scalars (following_posts alice) ;; commit)
                              (pending_app (Some (empty_engine true)))))
  ∧ (es_docs <$> elasticsearch
       (exec (scalars (following_posts alice) ;; commit)
             (pending_app (Some (empty_engine true)))))
    = Some ∅
  ∧ (es_docs <$> elasticsearch
       (exec commit (pending_app (Some (empty_engine true)))))
    = Some {[ ("post", 4) := [("body", JStr "new post")] ]}.
Proof.
  split_and!; try reflexivity.
  - apply list_elem_of_here.
  - vm_compute. do 3 right. left.
Qed.

(** The mirror when every removal finds its document.  With an engine
    configured and reachable, and a document in the index for each
    searchable entity of [session.deleted] (distinct rows), a commit
    returns, and its engine is the engine before it with exactly these
    operations applied in order: an upsert into the entity type's index,
    under the primary key, of each searchable entity in [session.new] and
    then in [session.dirty], and a removal of each searchable entity in
    [session.deleted].  So a post that is in [session.new] or
    [session.dirty] when the commit starts, and is not deleted, is in the
    index "post" under its id with its searchable fields, a deleted post
    is not, and a session of non-searchable entities leaves the
    documents as they were. *)
Theorem commit_mirrors_index (a : app) (es : es_client) :
  elasticsearch a = Some es →
  es_reachable es = true →
  removals_indexed (es_docs es) (deleted (db_session a)) →
  ∃ a' es',
    commit a = (Return tt, a')
    ∧ elasticsearch a' = Some es'
    ∧ es_docs es'
      = foldl apply_operation (es_docs es)
              (mirror_operations (db_session a))
    ∧ (∀ p, EPost p ∈ new (db_session a) ++ dirty (db_session a) →
            (∀ q, EPost q ∈ deleted (db_session a) →
                  Post.id q ≠ Post.id p) →
            ∃ q, EPost q ∈ new (db_session a) ++ dirty (db_session a)
                 ∧ Post.id q = Post.id p
                 ∧ es_docs es' !! ("post", Post.id p)
                   = Some [("body", JStr (Post.body q))])
    ∧ (∀ p, EPost p ∈ deleted (db_session a) →
            es_docs es' !! ("post", Post.id p) = None)
    ∧ ((∀ obj, obj ∈ new (db_session a) ++ dirty (db_session a)
                     ++ deleted (db_session a) →
               as_SearchableMixin obj = None) →
       es_docs es' = es_docs es).
Proof.
  intros Hes Hup Hrm.
  destruct (commit_run a es Hes Hup Hrm)
    as (a' & Hrun & es0 & es' & ? & Hes' & _ & _ & Hdocs).
  simplify_eq. exists a', es'.
  assert (Hsplit : es_docs es'
            = foldl apply_operation
                (foldl apply_operation (es_docs es)
                   (omap upsert_of (new (db_session a)
                                    ++ dirty (db_session a))))
                (omap remove_of (deleted (db_session a)))).
  { rewrite Hdocs. unfold mirror_operations.
    by rewrite omap_app, !foldl_app. }
  split_and!; [done | done | done | | |].
  - intros p Hp Hkept. rewrite Hsplit, removes_lookup_kept by done.
    by apply upserts_lookup.
  - intros p Hp. rewrite Hsplit. by apply removes_lookup_removed.
  - intros Hnone. rewrite Hdocs. unfold mirror_operations.
    rewrite !(no_operations upsert_of), (no_operations remove_of);
      [done | by intros [] | | by intros [] | | by intros [] |];
      intros obj Hobj; apply Hnone; rewrite !elem_of_app; auto.
Qed.

(** The mirror at work: the added post is indexed when the engine
    answers. *)
Lemma commit_mirrors_index_example :
  elasticsearch (pending_app (Some (empty_engine true)))
  = Some (empty_engine true)
  ∧ es_reachable (empty_engine true) = true
  ∧ ∃ es', elasticsearch (exec commit (pending_app (Some (empty_engine true))))
           = Some es'
           ∧ es_docs es' !! ("post", 4) = Some [("body", JStr "new post")].
Proof.
  assert (H1 : elasticsearch (pending_app (Some (empty_engine true)))
               = Some (empty_engine true)) by reflexivity.
  assert (H2 : es_reachable (empty_engine true) = true) by reflexivity.
  assert (H3 : removals_indexed (es_docs (empty_engine true))
                 (deleted (db_session
                             (pending_app (Some (empty_engine true))))))
    by (split; constructor).
  split_and!; [exact H1 | exact H2 |].
  destruct (commit_mirrors_index _ _ H1 H2 H3)
    as (a' & es' & Hrun & Hes' & _ & Hup & _).
  exists es'. split; [unfold exec; by rewrite Hrun|].
  destruct (Hup new_post) as (q & Hq & _ & Hlook).
  - apply list_elem_of_here.
  - intros q Hq. by apply elem_of_nil in Hq.
  - apply list_elem_of_singleton in Hq. by simplify_eq.
Defined.

(** A removal that finds no document.  The engine answers, the first
    entity of [session.deleted] is a post of which the index holds no
    document, and no post with its id is added or updated in the
    transaction.  Then the commit raises [NotFoundError], which
    [remove_from_index] does not catch: the upserts of the transaction
    were made, and no removal was, so the documents of the deleted
    entities that follow stay in the index. *)
Theorem commit_unindexed_removal_raises (a : app) (es : es_client)
    (p : Post.t) (rest : list entity) :
  elasticsearch a = Some es →
  es_reachable es = true →
  deleted (db_session a) = EPost p :: rest →
  es_docs es !! ("post", Post.id p) = None →
  (∀ q, EPost q ∈ new (db_session a) ++ dirty (db_session a) →
        Post.id q ≠ Post.id p) →
  eval commit a = Raise NotFoundError
  ∧ ∃ es', elasticsearch (exec commit a) = Some es'
           ∧ es_docs es'
             = foldl apply_operation (es_docs es)
                 (omap upsert_of (new (db_session a)
                                  ++ dirty (db_session a)))
           ∧ (∀ q, EPost q ∈ rest →
                   is_Some (es_docs es !! ("post", Post.id q)) →
                   is_Some (es_docs es' !! ("post", Post.id q))).
Proof.
  intros Hes Hup Hdel Hmiss Hother.
  assert (Hskip_up : ∀ obj, as_SearchableMixin obj = None →
                            upsert_of obj = None) by (by intros []).
  set (a0 := exec (before_commit ;; flush) a).
  assert (Hes0 : elasticsearch a0 = Some es) by done.
  destruct (mirror_loop add_to_index upsert_of add_to_index_run Hskip_up
              (new (db_session a)) a0 es Hes0 Hup) as (a1 & Hrun1 & Hap1).
  destruct Hap1 as (? & es1 & ? & Hes1 & Hup1 & Hans1 & Hdocs1) eqn:E1.
  simplify_eq.
  destruct (mirror_loop add_to_index upsert_of add_to_index_run Hskip_up
              (dirty (db_session a)) a1 es1 Hes1) as (a2 & Hrun2 & Hap2);
    [congruence|].
  destruct Hap2 as (? & es2 & ? & Hes2 & Hup2 & Hans2 & Hdocs2) eqn:E2.
  simplify_eq.
  assert (Hdocs : es_docs es2
            = foldl apply_operation (es_docs es)
                (omap upsert_of (new (db_session a)
                                 ++ dirty (db_session a))))
    by (by rewrite omap_app, foldl_app, <- Hdocs1).
  assert (Hgone : es_docs es2 !! ("post", Post.id p) = None).
  { rewrite Hdocs, upserts_lookup_other; [done|].
    intros q Hq [= Heq]. by apply (Hother q). }
  assert (Hrun : commit a
            = (Raise NotFoundError, with_elasticsearch (Some es2) a2)).
  { unfold commit.
    rewrite (bind_run before_commit _ a tt (exec before_commit a)) by done.
    rewrite (bind_run flush _ (exec before_commit a) tt a0) by done.
    unfold after_commit. rewrite (bind_run get_app _ a0 a0 a0) by done.
    simpl (_changes (db_session a0)). cbv iota.
    simpl (changes_add _). simpl (changes_update _). simpl (changes_delete _).
    rewrite (bind_run _ _ a0 tt a1 Hrun1), (bind_run _ _ a1 tt a2 Hrun2).
    apply bind_raise. rewrite Hdel. cbn [for_each as_SearchableMixin].
    apply bind_raise.
    rewrite Hup1 in Hup2. rewrite Hup in Hup2.
    by apply remove_from_index_missing. }
  unfold eval, exec. rewrite Hrun. split; [done|].
  exists es2. split_and!; [done | done |].
  intros q _ Hq. rewrite Hdocs. by apply upserts_keep.
Qed.

(** The removal at work: post 1 is deleted and was never indexed. *)
Lemma commit_unindexed_removal_raises_example :
  eval commit unindexed_removal_app = Raise NotFoundError
  ∧ (es_docs <$> elasticsearch (exec commit unindexed_removal_app))
    = Some {[ ("post", 9) := [("body", JStr "gone")] ]}.
Proof.
  assert (H1 : elasticsearch unindexed_removal_app = Some stale_engine)
    by reflexivity.
  assert (H2 : es_reachable stale_engine = true) by reflexivity.
  assert (H3 : deleted (db_session unindexed_removal_app)
               = [EPost (Post.mk 1 "hello" 100 2)]) by reflexivity.
  assert (H4 : es_docs stale_engine !! ("post", 1) = None) by reflexivity.
  destruct (commit_unindexed_removal_raises unindexed_removal_app
              stale_engine (Post.mk 1 "hello" 100 2) [] H1 H2 H3 H4)
    as (Hret & es' & Hes' & Hdocs & _).
  { intros q Hq. by apply elem_of_nil in Hq. }
  split; [exact Hret|]. rewrite Hes'. simpl. by rewrite Hdocs.
Defined.

(** ** The search engine absent or out of reach *)

Section no_engine.
Implicit Types (a : app) (m : searchable_model).

Lemma add_to_index_unconfigured index m a :
  elasticsearch a = None → add_to_index index m a = (Return tt, a).
Proof.
  intros Hes. unfold add_to_index.
  rewrite (bind_run get_app _ a a a) by done. by rewrite Hes.
Qed.

Lemma remove_from_index_unconfigured index m a :
  elasticsearch a = None → remove_from_index index m a = (Return tt, a).
Proof.
  intros Hes. unfold remove_from_index.
  rewrite (bind_run get_app _ a a a) by done. by rewrite Hes.
Qed.

Lemma query_index_unconfigured index text page per_page a :
  elasticsearch a = None →
  query_index index text page per_page a = (Return ([], 0), a).
Proof.
  intros Hes. unfold query_index.
  rewrite (bind_run get_app _ a a a) by done. by rewrite Hes.
Qed.

Lemma mirror_loop_unconfigured
    (call : string → searchable_model → M unit) objs a :
  (∀ index m, call index m a = (Return tt, a)) →
  for_each objs (λ obj,
    match as_SearchableMixin obj with
    | Some m => call (__tablename__ m) m
    | None => mret tt
    end) a = (Return tt, a).
Proof.
  intros Hcall. induction objs as [|obj objs IH]; [done|].
  cbn [for_each]. rewrite (bind_run _ _ a tt a); [done|].
  by destruct (as_SearchableMixin obj).
Qed.

Lemma commit_unconfigured a :
  elasticsearch a = None →
  eval commit a = Return tt
  ∧ elasticsearch (exec commit a) = None
  ∧ db (exec commit a) = db a.
Proof.
  intros Hes.
  set (a2 := exec (before_commit ;; flush) a).
  assert (Hes2 : elasticsearch a2 = None) by done.
  assert (Hrun : commit a
                 = (Return tt,
                    with_db_session (λ s, mk_session (new s) (dirty s)
                                            (deleted s) None) a2)).
  { unfold commit.
    rewrite (bind_run before_commit _ a tt (exec before_commit a)) by done.
    rewrite (bind_run flush _ (exec before_commit a) tt a2) by done.
    unfold after_commit. rewrite (bind_run get_app _ a2 a2 a2) by done.
    simpl (_changes (db_session a2)). cbv iota.
    rewrite !(bind_run _ _ a2 tt a2); [done | ..];
      apply mirror_loop_unconfigured; intros;
      by (apply add_to_index_unconfigured
          || apply remove_from_index_unconfigured). }
  unfold eval, exec. by rewrite Hrun.
Qed.

End no_engine.

(** C5, as stated, fails for an engine that is configured but cannot be
    reached: the guard tests only whether a client exists, so the client's
    error reaches the caller of the index operations, of [search], and of
    a commit that mirrors a post. *)
Lemma unavailable_engine_raises :
  eval (add_to_index "post" (Post_model new_post))
       (pending_app (Some (empty_engine false))) = Raise ConnectionError
  ∧ eval (remove_from_index "post" (Post_model new_post))
         (pending_app (Some (empty_engine false))) = Raise ConnectionError
  ∧ eval (search Post_class "new" 1 25)
         (pending_app (Some (empty_engine false))) = Raise ConnectionError
  ∧ eval commit (pending_app (Some (empty_engine false)))
    = Raise ConnectionError.
Proof. by split_and!. Qed.

(** C5, amended. When no search engine is configured
    ([current_app.elasticsearch] is [None]), [add_to_index] and
    [remove_from_index] return and change nothing, [query_index] and
    [search] return no hits and a total of 0, and a commit returns with
    the store as the session wrote it. *)
Theorem search_unconfigured_noop (a : app) (index expression : string)
    (m : searchable_model) (page per_page : Z) :
  elasticsearch a = None →
  add_to_index index m a = (Return tt, a)
  ∧ remove_from_index index m a = (Return tt, a)
  ∧ query_index index expression page per_page a = (Return ([], 0), a)
  ∧ search Post_class expression page per_page a = (Return ([], 0), a)
  ∧ eval commit a = Return tt
  ∧ elasticsearch (exec commit a) = None
  ∧ db (exec commit a) = db a.
Proof.
  intros Hes.
  split_and!; try by apply commit_unconfigured.
  - by apply add_to_index_unconfigured.
  - by apply remove_from_index_unconfigured.
  - by apply query_index_unconfigured.
  - unfold search.
    by rewrite (bind_run _ _ a ([], 0) a)
      by (by apply query_index_unconfigured).
Qed.

(** C5 at work: a post is committed and searched for with no engine. *)
Lemma search_unconfigured_noop_example :
  elasticsearch (pending_app None) = None
  ∧ search Post_class "new" 1 25 (pending_app None)
    = (Return ([], 0), pending_app None)
  ∧ eval commit (pending_app None) = Return tt.
Proof.
  assert (H1 : elasticsearch (pending_app None) = None) by reflexivity.
  split; [exact H1|].
  destruct (search_unconfigured_noop (pending_app None) "post" "new"
              (Post_model new_post) 1 25 H1)
    as (_ & _ & _ & Hsearch & Hcommit & _).
  by split.
Defined.

(** ** Search results in the engine's order *)

Section rehydration.
Context {row : Type} (cls : model_class row).
Implicit Types (ids : list Z) (d : database) (a : app).

Global Instance key_le_total : Total key_le.
Proof. intros [x|] [y|]; simpl; auto. lia. Qed.
Global Instance key_le_trans : Transitive key_le.
Proof. intros [x|] [y|] [z|]; simpl; auto; [lia | done]. Qed.

Global Instance case_asc_total when : Total (case_asc cls when).
Proof. intros x y. unfold case_asc. apply total, _. Qed.
Global Instance case_asc_trans when : Transitive (case_asc cls when).
Proof. intros x y z. unfold case_asc. apply transitivity. Qed.

(** The CASE expression gives an id the position of its first occurrence
    in the engine's list. *)
Lemma sql_case_position (k : nat) ids (v : Z) :
  v ∈ ids →
  ∃ n, sql_case (imap (λ i x, (x, (k + i)%nat)) ids) v = Some (k + n)%nat
       ∧ ids !! n = Some v.
Proof.
  revert k. induction ids as [|x ids IH]; intros k Hv;
    [by apply elem_of_nil in Hv|].
  rewrite imap_cons. cbn [sql_case].
  destruct (decide (x = v)) as [->|Hne].
  - exists O. by rewrite Nat.add_0_r.
  - apply elem_of_cons in Hv as [?|Hv]; [congruence|].
    destruct (IH (S k) Hv) as (n & Hcase & Hn).
    exists (S n). split; [|done].
    rewrite <- Nat.add_succ_comm, <- Hcase. f_equal.
    apply imap_ext. intros i y _. simpl. f_equal. lia.
Qed.

Lemma when_list_position ids (v : Z) (n : nat) :
  NoDup ids → ids !! n = Some v → sql_case (when_list ids) v = Some n.
Proof.
  intros Hnd Hn.
  destruct (sql_case_position 0 ids v) as (m & Hcase & Hm);
    [by eapply list_elem_of_lookup_2|].
  unfold when_list. simpl in Hcase. rewrite Hcase. f_equal.
  by apply (NoDup_lookup ids m n v).
Qed.

Lemma position_le_antisym ids i j :
  i ∈ ids → j ∈ ids → position_le ids i j → position_le ids j i → i = j.
Proof.
  intros Hi Hj. unfold position_le, when_list.
  destruct (sql_case_position 0 ids i Hi) as (m & Hci & Hm).
  destruct (sql_case_position 0 ids j Hj) as (n & Hcj & Hn).
  simpl in Hci, Hcj. rewrite Hci, Hcj.
  simpl. intros ? ?. assert (m = n) by lia. congruence.
Qed.

Lemma StronglySorted_offset ids (l : list Z) (k : nat) :
  (∀ n x, l !! n = Some x → sql_case (when_list ids) x = Some (k + n)%nat) →
  StronglySorted (position_le ids) l.
Proof.
  revert k. induction l as [|x l IH]; intros k Hpos; constructor.
  - apply (IH (S k)). intros n y Hy.
    rewrite (Hpos (S n) y Hy). f_equal. lia.
  - apply Forall_forall. intros y Hy.
    apply list_elem_of_lookup in Hy as [n Hn].
    unfold position_le. rewrite (Hpos O x), (Hpos (S n) y) by done.
    simpl. lia.
Qed.

Lemma StronglySorted_filter {X} (R : relation X) (P : X → Prop)
    `{∀ x, Decision (P x)} (l : list X) :
  StronglySorted R l → StronglySorted R (filter P l).
Proof.
  induction 1 as [|x l Hl IH Hx]; [constructor|].
  rewrite filter_cons. case_decide; [|done].
  constructor; [done|]. apply Forall_forall. intros y Hy.
  apply list_elem_of_filter in Hy as [_ Hy].
  by apply (proj1 (Forall_forall _ _) Hx).
Qed.

Lemma StronglySorted_fmap_id ids (rows : list row) :
  StronglySorted (case_asc cls (when_list ids)) rows →
  StronglySorted (position_le ids) (cls_id cls <$> rows).
Proof.
  induction 1 as [|x l Hl IH Hx]; [constructor|].
  rewrite fmap_cons. constructor; [done|].
  apply Forall_fmap. by apply (Forall_impl _ _ _ Hx).
Qed.

(** The rows the statement of [search] selects, read by id: the engine's
    ids that the store still holds, in the engine's order. *)
Lemma search_query_order ids d :
  NoDup ids → NoDup (cls_id cls <$> cls_table cls d) →
  cls_id cls <$> search_query cls ids d
  = filter (λ i, i ∈ cls_id cls <$> cls_table cls d) ids.
Proof.
  intros Hids Hpk. unfold search_query, order_by.
  set (kept := filter (λ x, cls_id cls x ∈ ids) (cls_table cls d)).
  assert (Hperm : cls_id cls <$> merge_sort (case_asc cls (when_list ids)) kept
                  ≡ₚ cls_id cls <$> kept)
    by (by rewrite merge_sort_Permutation).
  assert (Hin : ∀ i, i ∈ cls_id cls <$> kept
                     ↔ i ∈ ids ∧ i ∈ cls_id cls <$> cls_table cls d).
  { intros i. unfold kept. rewrite !list_elem_of_fmap. split.
    - intros (x & -> & Hx). apply list_elem_of_filter in Hx as [? ?]. eauto.
    - intros [Hi (x & -> & Hx)]. exists x. split; [done|].
      by apply list_elem_of_filter. }
  apply (StronglySorted_unique_strong (position_le ids)).
  - intros i j Hi Hj. apply position_le_antisym.
    + rewrite Hperm in Hi. by apply Hin in Hi as [? _].
    + by apply list_elem_of_filter in Hj as [_ ?].
  - apply StronglySorted_fmap_id, StronglySorted_merge_sort; apply _.
  - apply StronglySorted_filter, (StronglySorted_offset ids ids 0).
    intros n x Hx. by apply when_list_position.
  - rewrite Hperm. apply NoDup_Permutation.
    + apply (sublist_NoDup (cls_id cls <$> kept)
                           (cls_id cls <$> cls_table cls d));
        [exact Hpk | apply fmap_sublist, sublist_filter].
    + by apply NoDup_filter.
    + intros i. rewrite Hin, list_elem_of_filter. tauto.
Qed.

End rehydration.

(** ** Task finalization *)

Section finalization.
Context `{JsonCodec}.
Implicit Types (a : app) (j : rq_job) (t : Task.t) (o : User.t).

Lemma head_filter_update (jid : string) (l : list Task.t) t :
  head (filter (λ k, Task.id k = jid) l) = Some t →
  head (filter (λ k, Task.id k = jid)
          ((λ r, if decide (Task.id r = Task.id (Task.set_complete true t))
                 then Task.set_complete true t else r) <$> l))
  = Some (Task.set_complete true t).
Proof.
  intros Hhead.
  assert (Hid : Task.id t = jid).
  { apply head_Some_elem_of, list_elem_of_filter in Hhead. tauto. }
  change (Task.id (Task.set_complete true t)) with (Task.id t).
  rewrite Hid. revert Hhead.
  induction l as [|k l IH]; [done|]. intros Hhead.
  rewrite fmap_cons. rewrite filter_cons in Hhead.
  destruct (decide (Task.id k = jid)) as [Hk|Hk].
  - simpl in Hhead. injection Hhead as ->.
    by rewrite filter_cons_True by done.
  - rewrite filter_cons_False by done. by apply IH.
Qed.

Lemma run_eta {X} (m : M X) a : m a = (eval m a, exec m a).
Proof. unfold eval, exec. by destruct (m a). Qed.

Lemma non_searchable_loop (call : string → searchable_model → M unit)
    (objs : list entity) a :
  (∀ obj, obj ∈ objs → as_SearchableMixin obj = None) →
  for_each objs (λ obj,
    match as_SearchableMixin obj with
    | Some m => call (__tablename__ m) m
    | None => mret tt
    end) a = (Return tt, a).
Proof.
  induction objs as [|obj objs IH]; intros Hall; [done|].
  cbn [for_each]. rewrite (bind_run _ _ a tt a).
  - apply IH. intros o Ho. apply Hall. by right.
  - rewrite (Hall obj) by left. done.
Qed.

Lemma commit_plain a :
  (∀ obj, obj ∈ new (db_session a) ++ dirty (db_session a)
                ++ deleted (db_session a) →
          as_SearchableMixin obj = None) →
  commit a = (Return tt, with_db_session (λ _, mk_session [] [] [] None) a).
Proof.
  intros Hall. unfold commit.
  set (a2 := exec (before_commit ;; flush) a).
  rewrite (bind_run before_commit _ a tt (exec before_commit a)) by done.
  rewrite (bind_run flush _ (exec before_commit a) tt a2) by done.
  unfold after_commit. rewrite (bind_run get_app _ a2 a2 a2) by done.
  simpl (_changes (db_session a2)). cbv iota.
  rewrite !(bind_run _ _ a2 tt a2); [done | ..];
    apply non_searchable_loop; intros obj Hobj; apply Hall;
    rewrite !elem_of_app; auto.
Qed.

Lemma add_notification_session (o : User.t) name data a :
  db_session (exec (add_notification o name data) a)
  = mk_session [ENotification (fresh_notification o name data a)] [] []
      (_changes (db_session a))
  ∧ current_job (exec (add_notification o name data) a) = current_job a
  ∧ error_log (exec (add_notification o name data) a) = error_log a
  ∧ mail_failure (exec (add_notification o name data) a) = mail_failure a
  ∧ config (exec (add_notification o name data) a) = config a.
Proof. done. Qed.

Lemma _set_task_progress_run (progress : Z) a j t o :
  current_job a = Some j →
  head (filter (λ k, Task.id k = job_id j) (task (db a))) = Some t →
  head (filter (λ u, User.id u = Task.user_id t) (user (db a))) = Some o →
  ∃ a', _set_task_progress progress a = (Return tt, a')
        ∧ current_job a' = Some (mk_job (job_id j) (Some progress))
        ∧ db a'
          = (if decide (100 ≤ progress)
             then update_row (ETask (Task.set_complete true t))
             else id)
              (set_notification
                 (λ tl, filter (λ x, ¬ named (User.id o) "task_progress" x) tl
                        ++ [fresh_notification o "task_progress"
                              (progress_payload (job_id j) progress) a])
                 (db a))
        ∧ error_log a' = error_log a
        ∧ mail_failure a' = mail_failure a
        ∧ config a' = config a
        ∧ db_session a' = mk_session [] [] [] None.
Proof.
  intros Hjob Htask Howner. unfold _set_task_progress.
  rewrite (bind_run get_app _ a a a) by reflexivity. rewrite Hjob.
  set (a1 := with_current_job (Some (mk_job (job_id j) (Some progress))) a).
  rewrite (bind_run _ _ a tt a1) by reflexivity.
  rewrite (bind_run _ _ a1 (Some t) a1)
    by (unfold get_Task, mbind, M_bind, mret, M_ret; simpl; by rewrite Htask).
  rewrite (bind_run _ _ a1 (Some o) a1)
    by (unfold get_User, mbind, M_bind, mret, M_ret; simpl; by rewrite Howner).
  set (data := JDict [("task_id", JStr (job_id j)); ("progress", JInt progress)]).
  set (a2 := exec (add_notification o "task_progress" data) a1).
  destruct (add_notification_run o "task_progress" data a1) as (Hret & Hdb & _).
  destruct (add_notification_session o "task_progress" data a1)
    as (Hsess & Hjob2 & Hlog2 & Hmail2 & Hconf2).
  fold a2 in Hdb, Hsess, Hjob2, Hlog2, Hmail2, Hconf2.
  rewrite (bind_run _ _ a1 _ a2) by (by rewrite run_eta, Hret).
  destruct (decide (100 ≤ progress)).
  - set (a3 := exec (session_modified (ETask (Task.set_complete true t))) a2).
    rewrite (bind_run _ _ a2 tt a3) by reflexivity.
    rewrite commit_plain.
    + eexists. split; [reflexivity|]. split_and!; try done.
    + assert (Hsess3 : db_session a3
                = mk_session (new (db_session a2))
                    (dirty (db_session a2)
                     ++ [ETask (Task.set_complete true t)])
                    (deleted (db_session a2)) (_changes (db_session a2)))
        by reflexivity.
      intros obj. rewrite Hsess3, Hsess. simpl.
      rewrite !elem_of_cons, !elem_of_nil. intuition (by subst).
  - rewrite (bind_run _ _ a2 tt a2) by reflexivity.
    rewrite commit_plain.
    + eexists. split; [reflexivity|]. split_and!; try done.
    + intros obj. rewrite Hsess. simpl.
      rewrite !elem_of_cons, !elem_of_nil. intuition (by subst).
Qed.
Lemma _set_task_progress_ready (progress : Z) jid uid a :
  worker_ready jid uid a →
  ∃ a', _set_task_progress progress a = (Return tt, a')
        ∧ worker_ready jid uid a'
        ∧ one_progress_notification jid uid progress a'
        ∧ (100 ≤ progress → task_complete jid a')
        ∧ error_log a' = error_log a
        ∧ mail_failure a' = mail_failure a
        ∧ config a' = config a
        ∧ db_session a' = mk_session [] [] [] None.
Proof.
  intros ((j & Hjob & <-) & (t & Htask & <-) & (o & Howner)).
  destruct (_set_task_progress_run progress a j t o Hjob Htask Howner)
    as (a' & Hrun & Hjob' & Hdb & Hlog & Hmail & Hconfig & Hsession).
  assert (Hoid : User.id o = Task.user_id t).
  { apply head_Some_elem_of, list_elem_of_filter in Howner. tauto. }
  exists a'. split_and!; try done.
  - split_and!.
    + eexists. by split.
    + rewrite Hdb. destruct (decide (100 ≤ progress)).
      * exists (Task.set_complete true t). split; [|done].
        by apply head_filter_update.
      * by exists t.
    + exists o. rewrite Hdb. by destruct (decide (100 ≤ progress)).
  - eexists. rewrite Hdb. split.
    + rewrite <- Hoid.
      destruct (decide (100 ≤ progress)); simpl; apply filter_named_fresh.
    + done.
  - intros Hdone. unfold task_complete. rewrite Hdb, decide_True by done.
    exists (Task.set_complete true t). split; [|done].
    by apply head_filter_update.
Qed.

Lemma worker_ready_same jid uid a a' :
  current_job a' = current_job a → db a' = db a →
  worker_ready jid uid a → worker_ready jid uid a'.
Proof. unfold worker_ready. by intros -> ->. Qed.

Lemma keeps_ready_bind jid uid {X Y} (m : M X) (f : X → M Y) :
  keeps_ready jid uid m → (∀ x, keeps_ready jid uid (f x)) →
  keeps_ready jid uid (m ≫= f).
Proof.
  intros Hm Hf a r a' Ha. unfold mbind, M_bind.
  destruct (m a) as [[x|e] a1] eqn:Hrun.
  - intros Hfx. by apply (Hf x a1 r a'), Hfx; apply (Hm a (Return x) a1).
  - intros [= <- <-]. by apply (Hm a (Raise e) a1).
Qed.

Lemma keeps_ready_pure jid uid {X} (m : M X) :
  (∀ a, current_job (exec m a) = current_job a ∧ db (exec m a) = db a) →
  keeps_ready jid uid m.
Proof.
  intros Hm a r a' Ha Hrun.
  destruct (Hm a) as [Hjob Hdb]. unfold exec in *. rewrite Hrun in *.
  by apply (worker_ready_same jid uid a).
Qed.

Lemma keeps_ready_set_task_progress jid uid progress :
  keeps_ready jid uid (_set_task_progress progress).
Proof.
  intros a r a' Ha Hrun.
  destruct (_set_task_progress_ready progress jid uid a Ha)
    as (a1 & Hrun1 & Ha1 & _). congruence.
Qed.

Lemma keeps_ready_export_loop jid uid posts data posts_count total_posts :
  keeps_ready jid uid (export_loop posts data posts_count total_posts).
Proof.
  revert data posts_count.
  induction posts as [|post posts IH]; intros data posts_count.
  - by apply keeps_ready_pure.
  - cbn [export_loop]. apply keeps_ready_bind; [by apply keeps_ready_pure|].
    intros _. apply keeps_ready_bind; [|intros _; apply IH].
    case_decide; [by apply keeps_ready_pure|].
    apply keeps_ready_set_task_progress.
Qed.

Lemma keeps_ready_mail_send jid uid msg : keeps_ready jid uid (mail_send msg).
Proof.
  apply keeps_ready_pure. intros a. unfold exec, mail_send.
  rewrite (bind_run get_app _ a a a) by done.
  by destruct (mail_failure a).
Qed.

Lemma keeps_ready_export_posts_body jid uid user_id :
  keeps_ready jid uid (export_posts_body user_id).
Proof.
  unfold export_posts_body.
  apply keeps_ready_bind; [by apply keeps_ready_pure|]. intros user.
  apply keeps_ready_bind; [apply keeps_ready_set_task_progress|]. intros _.
  destruct user as [user|]; [|by apply keeps_ready_pure].
  apply keeps_ready_bind; [by apply keeps_ready_pure|]. intros total_posts.
  apply keeps_ready_bind; [by apply keeps_ready_pure|]. intros posts.
  apply keeps_ready_bind; [apply keeps_ready_export_loop|]. intros data.
  apply keeps_ready_bind; [by apply keeps_ready_pure|]. intros a0.
  destruct (ADMINS (config a0)); [by apply keeps_ready_pure|].
  apply keeps_ready_mail_send.
Qed.

End finalization.

(** C3 fails on the code for a job whose [Task] row is not in the store
    when the worker runs it, which happens when the worker starts the job
    before the request that launched it has committed the row
    ([launch_task] enqueues first).  The body of [export_posts] raises
    [AttributeError] at its first progress report.  The handler's report
    raises it again, before the error is logged, and the report of the
    [finally] block raises it once more: [export_posts] ends in
    [AttributeError], nothing is logged, no notification is written and
    no task is marked complete. *)
Lemma export_posts_unfinalized :
  let H := example_codec in
  current_job orphan_worker_app = Some (mk_job "job-7" None)
  ∧ eval (get_Task "job-7") orphan_worker_app = Return None
  ∧ eval (export_posts_body 2) orphan_worker_app = Raise AttributeError
  ∧ eval (export_posts 2) orphan_worker_app = Raise AttributeError
  ∧ error_log (exec (export_posts 2) orphan_worker_app) = []
  ∧ notification (db (exec (export_posts 2) orphan_worker_app)) = []
  ∧ task (db (exec (export_posts 2) orphan_worker_app)) = [].
Proof. by split_and!. Qed.

(** The finalization of [export_posts].  A worker runs a job whose task
    and owner are in the store, and the body of [export_posts] raises
    [e].  Then [export_posts] leaves the task complete and exactly one
    "task_progress" notification for the owner, reporting progress 100
    for this task, and the session committed, with nothing pending.
    When [e] is an [Exception] the call returns normally and the error
    is the last record of the error log; [KeyboardInterrupt] and
    [SystemExit], which [except Exception] does not take, leave the same
    store and go on to the caller. *)
Theorem export_posts_finalizes `{JsonCodec} (user_id : Z) (a a1 : app)
    (e : exn) (jid : string) (uid : Z) :
  worker_ready jid uid a →
  export_posts_body user_id a = (Raise e, a1) →
  task_complete jid (exec (export_posts user_id) a)
  ∧ one_progress_notification jid uid 100 (exec (export_posts user_id) a)
  ∧ db_session (exec (export_posts user_id) a) = mk_session [] [] [] None
  ∧ (is_Exception e = true →
       eval (export_posts user_id) a = Return tt
       ∧ error_log (exec (export_posts user_id) a)
         = error_log a1 ++ [("Unhandled exception", e)])
  ∧ (is_Exception e = false →
       eval (export_posts user_id) a = Raise e).
Proof.
  intros Ha Hbody.
  assert (Ha1 : worker_ready jid uid a1)
    by apply (keeps_ready_export_posts_body jid uid user_id a _ a1 Ha Hbody).
  unfold export_posts, eval, exec, try_finally, try_except.
  rewrite Hbody. destruct (is_Exception e) eqn:He.
  - destruct (_set_task_progress_ready 100 jid uid a1 Ha1)
      as (a2 & Hrun2 & Ha2 & _ & _ & Hlog2 & _).
    rewrite (bind_run _ _ a1 tt a2 Hrun2).
    set (a3 := exec (logger_error "Unhandled exception" e) a2).
    assert (Ha3 : worker_ready jid uid a3)
      by (by apply (worker_ready_same jid uid a2)).
    destruct (_set_task_progress_ready 100 jid uid a3 Ha3)
      as (a4 & Hrun4 & _ & Hone & Hdone & Hlog4 & _ & _ & Hsession).
    change (logger_error "Unhandled exception" e a2) with (Return tt, a3).
    cbv beta iota. rewrite Hrun4. simpl.
    split_and!; [by apply Hdone | done | done | | done].
    intros _. split; [done|]. rewrite Hlog4. subst a3. simpl.
    by rewrite Hlog2.
  - destruct (_set_task_progress_ready 100 jid uid a1 Ha1)
      as (a2 & Hrun2 & _ & Hone & Hdone & _ & _ & _ & Hsession).
    rewrite Hrun2. simpl.
    split_and!; [by apply Hdone | done | done | done | done].
Qed.

(** For an answer with at least one hit, [search] returns the rows of the
    store whose ids the engine listed, in the engine's order; an id the
    store no longer holds is left out. *)
Lemma search_rehydrates_in_engine_order {row} (cls : model_class row)
    (expression : string) (page per_page : Z) (a : app) (es : es_client)
    (ids : list Z) (total : Z) :
  elasticsearch a = Some es → es_reachable es = true →
  es_answer es (cls_tablename cls) expression ((page - 1) * per_page) per_page
  = (ids, total) →
  total ≠ 0 → ids ≠ [] →
  NoDup ids → NoDup (cls_id cls <$> cls_table cls (db a)) →
  ∃ rows a',
    search cls expression page per_page a = (Return (rows, total), a')
    ∧ cls_id cls <$> rows
      = filter (λ i, i ∈ cls_id cls <$> cls_table cls (db a)) ids
    ∧ (∀ x, x ∈ rows → x ∈ cls_table cls (db a)).
Proof.
  intros Hes Hup Hanswer Htotal Hne Hids Hpk.
  set (a1 := with_elasticsearch (Some es) a).
  assert (Hq : query_index (cls_tablename cls) expression page per_page a
               = (Return (ids, total), a1)).
  { unfold query_index. rewrite (bind_run get_app _ a a a) by done.
    rewrite Hes. unfold es_request, es_search. rewrite Hup, Hanswer.
    by destruct es. }
  exists (search_query cls ids (db a)), (exec flush a1). split_and!.
  - unfold search. rewrite (bind_run _ _ a (ids, total) a1 Hq).
    rewrite decide_False by done.
    destruct ids as [|i ids]; [done|]. reflexivity.
  - by apply search_query_order.
  - intros x. unfold search_query, order_by.
    rewrite merge_sort_Permutation, list_elem_of_filter. tauto.
Qed.

(** C6 fails on a page past the last one: the engine answers no hits with
    the total of the matches, the guard [total == 0] does not apply, and
    the statement ordered by a CASE with no WHEN is rejected.  On the
    first page the same search returns posts 3 and 1 in the engine's
    order, without the id 9 that the store does not hold. *)
Lemma search_past_last_page_raises :
  eval (query_index "post" "hello" 2 25) search_app = Return ([], 3)
  ∧ eval (search Post_class "hello" 2 25) search_app = Raise OperationalError
  ∧ eval (search Post_class "hello" 1 25) search_app
    = Return ([Post.mk 3 "again" 200 2; Post.mk 1 "hello" 100 2], 3).
Proof. by split_and!. Qed.

(** ** The remaining properties at work *)

(** C8 at work: bob polls since 1000 and since 0. *)
Lemma notifications_since_example :
  let H := example_codec in
  Forall (λ x, is_Some (json_loads (Notification.payload_json x)))
         (notification (db feed_app))
  ∧ eval (notifications bob (Some 1000)) feed_app
    = Return [mk_item "task_count" (JInt 7) 1001]
  ∧ StronglySorted timestamp_asc (notifications_query bob 0 (db feed_app))
  ∧ (length (notifications_query bob 1000 (db feed_app))
     ≤ length (notifications_query bob 0 (db feed_app)))%nat
  ∧ notifications_query bob 1001 (db feed_app) = [].
Proof.
  intros H.
  assert (H1 : Forall (λ x, is_Some (json_loads (Notification.payload_json x)))
                      (notification (db feed_app))) by by_computation.
  split_and!; [exact H1 | reflexivity | | |].
  - exact (proj1 (proj2 (proj2 (notifications_since bob 0 0 feed_app H1)))).
  - destruct (notifications_since bob 1000 0 feed_app H1)
      as (_ & _ & _ & _ & Hmono & _).
    apply Hmono. lia.
  - destruct (notifications_since bob 1001 0 feed_app H1)
      as (_ & _ & _ & _ & _ & Hlatest).
    apply Hlatest.
    apply (proj1 (Forall_forall
             (λ x, Notification.user_id x = User.id bob
                   → Notification.timestamp x ≤ 1001) _)).
    by_computation.
Defined.

(** C9 at work: dave's token is accepted at clock reading 1000, refused
    once revoked, and the reset token issued for dave verifies. *)
Lemma token_verification_example :
  dave ∈ user (db token_app)
  ∧ NoDup (User.id <$> user (db token_app))
  ∧ token_unique (user (db token_app))
  ∧ eval (check_token "9f86d081884c7d659a2feaa0c55ad015") token_app
    = Return (Some dave)
  ∧ eval (revoke_token dave ;;
          check_token "9f86d081884c7d659a2feaa0c55ad015") token_app
    = Return None
  ∧ eval (verify_reset_password_token (jwt_malformed "not.a.token")) token_app
    = Return None
  ∧ ∃ token, eval (get_reset_password_token dave 600) token_app = Return token
             ∧ eval (verify_reset_password_token token) token_app
               = Return (Some dave).
Proof.
  assert (H1 : dave ∈ user (db token_app)) by by_computation.
  assert (H2 : NoDup (User.id <$> user (db token_app))) by by_computation.
  assert (H3 : token_unique (user (db token_app))).
  { intros u v tok Hu Hv Hut Hvt. simpl in Hu, Hv.
    rewrite !elem_of_cons, elem_of_nil in Hu, Hv.
    destruct Hu as [->|[->|[->|[->|[]]]]]; try discriminate Hut;
    destruct Hv as [->|[->|[->|[->|[]]]]]; try discriminate Hvt; done. }
  destruct (token_verification token_app dave
              "9f86d081884c7d659a2feaa0c55ad015" H1 H2 H3)
    as (_ & Hmal & _ & _ & Hreset & _ & _ & Hrevoke & Hvalid).
  split_and!; [exact H1 | exact H2 | exact H3 | | | |].
  - apply (Hvalid 5000); [done | done | by vm_compute].
  - apply Hrevoke; [done | by vm_compute].
  - apply Hmal.
  - apply (Hreset token_app 600); [done | by vm_compute].
Defined.

(** The finalization at work: the export reaches progress 100, then the
    mail fails. *)
Lemma export_posts_finalizes_example :
  let H := example_codec in
  worker_ready "job-1" 2 worker_app
  ∧ eval (export_posts_body 2) worker_app = Raise SMTPException
  ∧ task_complete "job-1" (exec (export_posts 2) worker_app)
  ∧ one_progress_notification "job-1" 2 100 (exec (export_posts 2) worker_app)
  ∧ new (db_session (exec (export_posts 2) worker_app)) = []
  ∧ eval (export_posts 2) worker_app = Return tt
  ∧ error_log (exec (export_posts 2) worker_app)
    = [("Unhandled exception", SMTPException)].
Proof.
  intros H.
  assert (H1 : worker_ready "job-1" 2 worker_app).
  { split_and!; eexists; split_and?; reflexivity. }
  assert (H2 : export_posts_body 2 worker_app
               = (Raise SMTPException, exec (export_posts_body 2) worker_app)).
  { rewrite (run_eta (export_posts_body 2) worker_app). f_equal. }
  destruct (export_posts_finalizes 2 worker_app _ SMTPException "job-1" 2
              H1 H2) as (Hdone & Hone & Hsession & Hexc & _).
  destruct (Hexc eq_refl) as [Hret Hlog].
  split_and!; [exact H1 | reflexivity | exact Hdone | exact Hone
              | by rewrite Hsession | exact Hret | ].
  rewrite Hlog. reflexivity.
Defined.

(* ===================================================================== *)
(** * Further properties of the code                                      *)
(* ===================================================================== *)

(** The search at work on its first page: the engine ranks 3, 9, 1 and
    the store holds no post 9. *)
Lemma search_rehydrates_in_engine_order_example :
  ∃ rows a',
    search Post_class "hello" 1 25 search_app = (Return (rows, 3), a')
    ∧ Post.id <$> rows = [3; 1].
Proof.
  destruct (search_rehydrates_in_engine_order Post_class "hello" 1 25
              search_app (paged_engine [3; 9; 1]) [3; 9; 1] 3)
    as (rows & a' & Hrun & Hids & _);
    [reflexivity | reflexivity | reflexivity | lia | discriminate
    | by_computation | by_computation |].
  exists rows, a'. split; [exact Hrun|]. exact Hids.
Defined.

(** ** The index: documents and re-indexing *)

Section index_documents.
Implicit Types (a : app) (es : es_client) (m : searchable_model) (p : Post.t).

Lemma build_payload_run m fields a :
  (∀ f, f ∈ fields → is_Some (getattr m f)) →
  ∃ payload, build_payload m fields a = (Return payload, a)
             ∧ payload.*1 = fields
             ∧ Forall (λ kv, getattr m kv.1 = Some kv.2) payload.
Proof.
  induction fields as [|f fields IH]; intros Hall.
  - exists []. by split_and!.
  - destruct (Hall f) as [v Hv]; [left|].
    destruct IH as (payload & Hrun & Hkeys & Hvals).
    { intros g Hg. apply Hall. by right. }
    exists ((f, v) :: payload). split_and!.
    + cbn [build_payload]. rewrite Hv.
      by rewrite (bind_run _ _ a payload a Hrun).
    + rewrite fmap_cons. simpl. by f_equal.
    + by constructor.
Qed.

Lemma build_payload_missing m fields a f :
  f ∈ fields → getattr m f = None →
  build_payload m fields a = (Raise AttributeError, a).
Proof.
  induction fields as [|g fields IH]; intros Hin Hf;
    [by apply elem_of_nil in Hin|].
  cbn [build_payload].
  destruct (getattr m g) as [v|] eqn:Hg.
  - apply elem_of_cons in Hin as [->|Hin]; [congruence|].
    by rewrite (bind_raise _ _ a AttributeError a (IH Hin Hf)).
  - done.
Qed.

Lemma add_to_index_payload index m a es payload :
  elasticsearch a = Some es → es_reachable es = true →
  build_payload m (__searchable__ m) a = (Return payload, a) →
  add_to_index index m a
  = (Return tt,
     with_elasticsearch
       (Some (es_index index (model_id m) payload es).2) a).
Proof.
  intros Hes Hup Hrun. unfold add_to_index.
  rewrite (bind_run get_app _ a a a) by done. rewrite Hes.
  rewrite (bind_run _ _ a payload a Hrun).
  unfold es_request. by rewrite Hup.
Qed.

Lemma remove_from_index_docs index m a es :
  elasticsearch a = Some es → es_reachable es = true →
  is_Some (es_docs es !! (index, model_id m)) →
  remove_from_index index m a
  = (Return tt,
     with_elasticsearch
       (Some (mk_es (es_reachable es)
                    (base.delete (index, model_id m) (es_docs es))
                    (es_answer es))) a).
Proof.
  intros Hes Hup [doc Hdoc]. unfold remove_from_index.
  rewrite (bind_run get_app _ a a a) by done. rewrite Hes.
  unfold es_request, es_delete. by rewrite Hup, Hdoc.
Qed.

(** The loop of [reindex]: one upsert per row, in table order. *)
Lemma reindex_loop index (rows : list Post.t) a es :
  elasticsearch a = Some es → es_reachable es = true →
  for_each rows (λ obj, add_to_index index (Post_model obj)) a
  = (Return tt,
     with_elasticsearch
       (Some (mk_es (es_reachable es)
                (foldl (λ docs p, <[(index, Post.id p)
                                    := [("body", JStr (Post.body p))]]> docs)
                       (es_docs es) rows)
                (es_answer es))) a).
Proof.
  revert a es. induction rows as [|p rows IH]; intros a es Hes Hup.
  - simpl. unfold mret, M_ret. f_equal.
    destruct a, es; simpl in *; by subst.
  - cbn [for_each].
    rewrite (bind_run _ _ a tt _
               (add_to_index_payload index (Post_model p) a es
                  [("body", JStr (Post.body p))] Hes Hup eq_refl)).
    by rewrite (IH _ (es_index index (model_id (Post_model p))
                        [("body", JStr (Post.body p))] es).2).
Qed.

Lemma foldl_upserts (rows : list Post.t) docs :
  foldl (λ docs p, <[("post", Post.id p)
                     := [("body", JStr (Post.body p))]]> docs) docs rows
  = foldl apply_operation docs (omap upsert_of (EPost <$> rows)).
Proof.
  revert docs. induction rows as [|p rows IH]; intros docs; [done|].
  simpl. by rewrite IH.
Qed.

End index_documents.

(** [add_to_index] on an engine that answers.  When the searchable
    fields are distinct attributes of the model, the call stores, under
    the given index and the model's id, a document that holds exactly the
    searchable fields with the model's values; indexing the same model
    again changes nothing, and [remove_from_index] afterwards leaves no
    document under that id.  When a searchable field is no attribute of
    the model the call raises [AttributeError] and nothing was sent to
    the engine. *)
Theorem add_to_index_document (index : string) (m : searchable_model)
    (a : app) (es : es_client) :
  elasticsearch a = Some es →
  es_reachable es = true →
  (NoDup (__searchable__ m) →
   (∀ f, f ∈ __searchable__ m → is_Some (getattr m f)) →
   ∃ payload a' es',
     add_to_index index m a = (Return tt, a')
     ∧ elasticsearch a' = Some es'
     ∧ db a' = db a
     ∧ payload.*1 = __searchable__ m
     ∧ Forall (λ kv, getattr m kv.1 = Some kv.2) payload
     ∧ es_docs es' = <[(index, model_id m) := payload]> (es_docs es)
     ∧ add_to_index index m a' = (Return tt, a')
     ∧ (es_docs <$> elasticsearch (exec (remove_from_index index m) a'))
       = Some (base.delete (index, model_id m) (es_docs es)))
  ∧ (∀ f, f ∈ __searchable__ m → getattr m f = None →
          add_to_index index m a = (Raise AttributeError, a)).
Proof.
  intros Hes Hup. split.
  - intros _ Hall.
    destruct (build_payload_run m (__searchable__ m) a Hall)
      as (payload & Hrun & Hkeys & Hvals).
    set (es' := (es_index index (model_id m) payload es).2).
    exists payload, (with_elasticsearch (Some es') a), es'.
    split_and!; try done.
    + by apply add_to_index_payload.
    + destruct (build_payload_run m (__searchable__ m)
                  (with_elasticsearch (Some es') a) Hall)
        as (payload' & Hrun' & Hkeys' & Hvals').
      assert (payload' = payload) as ->.
      { clear Hrun Hrun'. revert payload' Hkeys' Hvals'.
        revert Hkeys Hvals. generalize (__searchable__ m).
        induction payload as [|[k v] payload IH];
          intros fields <- Hv [|[k' v'] payload'] Hk' Hv'; try done.
        simpl in Hk'. injection Hk' as -> Hk'.
        apply Forall_cons in Hv as [Hv1 Hv], Hv' as [Hv1' Hv'].
        simpl in *. f_equal; [congruence|].
        by apply (IH _ eq_refl Hv payload'). }
      rewrite (add_to_index_payload index m _ es' payload); try done.
      subst es'. simpl. unfold with_elasticsearch. simpl.
      by rewrite insert_insert_eq.
    + unfold exec.
      rewrite (remove_from_index_docs index m _ es');
        [| done | done | subst es'; simpl; rewrite lookup_insert_eq; by eexists].
      simpl. by rewrite delete_insert_eq.
  - intros f Hf Hnone. unfold add_to_index.
    rewrite (bind_run get_app _ a a a) by done. rewrite Hes.
    by rewrite (bind_raise _ _ a AttributeError a
                  (build_payload_missing m _ a f Hf Hnone)).
Qed.

(** [add_to_index] at work: the new post is indexed by its body alone. *)
Lemma add_to_index_document_example :
  elasticsearch (pending_app (Some (empty_engine true)))
  = Some (empty_engine true)
  ∧ es_reachable (empty_engine true) = true
  ∧ ∃ a' es',
      add_to_index "post" (Post_model new_post)
        (pending_app (Some (empty_engine true))) = (Return tt, a')
      ∧ elasticsearch a' = Some es'
      ∧ es_docs es' = {[ ("post", 4) := [("body", JStr "new post")] ]}.
Proof.
  assert (H1 : elasticsearch (pending_app (Some (empty_engine true)))
               = Some (empty_engine true)) by reflexivity.
  assert (H2 : es_reachable (empty_engine true) = true) by reflexivity.
  split_and!; [exact H1 | exact H2 |].
  destruct (add_to_index_document "post" (Post_model new_post) _ _ H1 H2)
    as [Hok _].
  destruct Hok as (payload & a' & es' & Hrun & Hes' & _ & Hkeys & Hvals
                   & Hdocs & _).
  { by_computation. }
  { intros f Hf. apply list_elem_of_singleton in Hf as ->. by eexists. }
  exists a', es'. split_and!; [exact Hrun | exact Hes' |].
  rewrite Hdocs. simpl in Hkeys.
  destruct payload as [|[k v] [|? ?]]; try discriminate Hkeys.
  injection Hkeys as ->. apply Forall_cons in Hvals as [Hv _].
  simpl in Hv. injection Hv as <-. reflexivity.
Defined.

(** [reindex] on an engine that answers returns, leaves the store as it
    was, and leaves in the index "post", under the id of every post of
    the table, that post's body (the body of a post with that id; the
    post's own when ids are a primary key).  It removes nothing: every
    document under another key, so the document of a post that is no
    longer in the table, stays as it was. *)
Theorem reindex_upserts_every_row (a : app) (es : es_client) :
  elasticsearch a = Some es →
  es_reachable es = true →
  ∃ a' es',
    reindex Post_class a = (Return tt, a')
    ∧ elasticsearch a' = Some es'
    ∧ db a' = db a
    ∧ (∀ p, p ∈ post (db a) →
            ∃ q, q ∈ post (db a) ∧ Post.id q = Post.id p
                 ∧ es_docs es' !! ("post", Post.id p)
                   = Some [("body", JStr (Post.body q))])
    ∧ (NoDup (Post.id <$> post (db a)) →
       ∀ p, p ∈ post (db a) →
            es_docs es' !! ("post", Post.id p)
            = Some [("body", JStr (Post.body p))])
    ∧ (∀ k, (∀ p, p ∈ post (db a) → k ≠ ("post", Post.id p)) →
            es_docs es' !! k = es_docs es !! k).
Proof.
  intros Hes Hup.
  set (es' := mk_es (es_reachable es)
                (foldl apply_operation (es_docs es)
                       (omap upsert_of (EPost <$> post (db a))))
                (es_answer es)).
  exists (with_elasticsearch (Some es') (exec flush a)), es'.
  assert (Hsome : ∀ p, p ∈ post (db a) →
            ∃ q, q ∈ post (db a) ∧ Post.id q = Post.id p
                 ∧ es_docs es' !! ("post", Post.id p)
                   = Some [("body", JStr (Post.body q))]).
  { intros p Hp.
    destruct (upserts_lookup (EPost <$> post (db a)) (es_docs es) p)
      as (q & Hq & Hid & Hlook); [by apply list_elem_of_fmap_2|].
    exists q. split_and!; [|done|done].
    apply list_elem_of_fmap in Hq as (q' & [= ->] & Hq'). done. }
  split_and!; try done.
  - unfold reindex.
    rewrite (bind_run _ _ a (post (db a)) (exec flush a)) by done.
    etransitivity;
      [by apply (reindex_loop "post" (post (db a)) (exec flush a) es)|].
    subst es'. by rewrite foldl_upserts.
  - intros Hpk p Hp. destruct (Hsome p Hp) as (q & Hq & Hid & ->).
    by rewrite (NoDup_fmap_inj_on Post.id (post (db a)) q p).
  - intros k Hk. simpl. apply upserts_lookup_other.
    intros p Hp. apply Hk.
    apply list_elem_of_fmap in Hp as (q' & [= ->] & Hq'). done.
Qed.

(** [reindex] at work: an index that holds only a stale document of a
    post 9 gets the three posts of the table, and keeps the stale one. *)
Lemma reindex_upserts_every_row_example :
  elasticsearch stale_index_app = Some stale_engine
  ∧ es_reachable stale_engine = true
  ∧ ∃ es', elasticsearch (exec (reindex Post_class) stale_index_app)
           = Some es'
           ∧ es_docs es' !! ("post", 3) = Some [("body", JStr "again")]
           ∧ es_docs es' !! ("post", 9) = Some [("body", JStr "gone")].
Proof.
  assert (H1 : elasticsearch stale_index_app = Some stale_engine)
    by reflexivity.
  assert (H2 : es_reachable stale_engine = true) by reflexivity.
  split_and!; [exact H1 | exact H2 |].
  destruct (reindex_upserts_every_row stale_index_app stale_engine H1 H2)
    as (a' & es' & Hrun & Hes' & _ & _ & Hpk & Hother).
  exists es'. split_and!.
  - unfold exec. by rewrite Hrun.
  - apply (Hpk ltac:(by_computation) (Post.mk 3 "again" 200 2)).
    by_computation.
  - etransitivity; [apply (Hother ("post", 9))|reflexivity].
    intros p Hp. simpl in Hp.
    rewrite !elem_of_cons, elem_of_nil in Hp.
    destruct Hp as [->|[->|[->|[]]]]; discriminate.
Defined.

(** ** The follower graph: counts, frame, and the timeline *)

Section follower_counts.
Implicit Types (A B X : User.t) (a : app) (d : database) (e f : Follow.t).

Lemma length_bind_add {Y W} (l : list Y) (g g1 g2 : Y → list W) :
  (∀ y, y ∈ l → length (g y) = (length (g1 y) + length (g2 y))%nat) →
  length (l ≫= g) = (length (l ≫= g1) + length (l ≫= g2))%nat.
Proof.
  induction l as [|y l IH]; intros Hg; [done|].
  rewrite !bind_cons, !length_app, (Hg y) by left.
  rewrite IH; [lia|]. intros z Hz. apply Hg. by right.
Qed.

Lemma bind_singleton {Y W} (y : Y) (k : Y → list W) : [y] ≫= k = k y.
Proof. rewrite bind_cons. apply app_nil_r. Qed.

Lemma length_bind_if {Y} (P : Y → Prop) `{∀ y, Decision (P y)} (l : list Y) :
  length (l ≫= λ y, if decide (P y) then [y] else []) = length (filter P l).
Proof.
  induction l as [|y l IH]; [done|].
  rewrite bind_cons, length_app, filter_cons, IH.
  by destruct (decide (P y)).
Qed.

Lemma length_filter_key {Y} (key : Y → Z) (l : list Y) (i : Z) :
  NoDup (key <$> l) → i ∈ key <$> l →
  length (filter (λ y, key y = i) l) = 1%nat.
Proof.
  induction l as [|y l IH]; intros Hnd Hi; [by apply elem_of_nil in Hi|].
  rewrite fmap_cons in Hnd, Hi. apply NoDup_cons in Hnd as [Hy Hnd].
  rewrite filter_cons. destruct (decide (key y = i)) as [<-|Hne].
  - simpl. f_equal. apply length_zero_iff_nil, elem_of_nil_inv.
    intros z Hz. apply list_elem_of_filter in Hz as [Hk Hz].
    apply Hy. rewrite <- Hk. by apply list_elem_of_fmap_2.
  - apply IH; [done|]. apply elem_of_cons in Hi as [?|?]; congruence.
Qed.

Lemma length_filter_none {Y} (P : Y → Prop) `{∀ y, Decision (P y)}
    (l : list Y) :
  (∀ y, y ∈ l → ¬ P y) → length (filter P l) = 0%nat.
Proof.
  intros Hno. apply length_zero_iff_nil, elem_of_nil_inv.
  intros y Hy. apply list_elem_of_filter in Hy as [HP Hy]. by apply (Hno y).
Qed.

Lemma length_bind_filter {Y W} (P : Y → Prop) `{∀ y, Decision (P y)}
    (l : list Y) (k : Y → list W) :
  length (l ≫= k)
  = (length (filter P l ≫= k) + length (filter (λ y, ¬ P y) l ≫= k))%nat.
Proof.
  induction l as [|y l IH]; [done|].
  rewrite bind_cons, length_app, !filter_cons, IH.
  destruct (decide (P y)) as [HP|HP].
  - rewrite decide_False by tauto. rewrite bind_cons, length_app. lia.
  - rewrite decide_True by done. rewrite bind_cons, length_app. lia.
Qed.

Lemma filter_edge_NoDup (l : list Follow.t) e :
  NoDup l → e ∈ l →
  filter (λ f, Follow.follower_id f = Follow.follower_id e
               ∧ Follow.followed_id f = Follow.followed_id e) l = [e].
Proof.
  induction l as [|f l IH]; intros Hnd He; [by apply elem_of_nil in He|].
  apply NoDup_cons in Hnd as [Hf Hnd]. rewrite filter_cons.
  assert (Hsame : ∀ g, Follow.follower_id g = Follow.follower_id e
                       ∧ Follow.followed_id g = Follow.followed_id e
                       → g = e).
  { intros [g1 g2] [? ?]. destruct e. simpl in *. congruence. }
  case_decide as Hd.
  - apply Hsame in Hd as ->. f_equal.
    apply elem_of_nil_inv. intros g Hg.
    apply list_elem_of_filter in Hg as [Hg1 Hg]. apply Hsame in Hg1 as ->.
    done.
  - apply IH; [done|]. apply elem_of_cons in He as [->|?]; [|done].
    by destruct Hd.
Qed.

(** The two counters after one edge was appended to the table. *)
Lemma following_select_edge_added X d e :
  length (following_select X
            (set_followers (λ t, t ++ [e]) d))
  = (length (following_select X d)
     + length (filter (λ u, Follow.follower_id e = User.id X
                            ∧ User.id u = Follow.followed_id e) (user d)))%nat.
Proof.
  unfold following_select. simpl.
  rewrite <- (length_bind_if _ (user d)).
  apply length_bind_add. intros u _.
  by rewrite bind_app, length_app, bind_singleton.
Qed.

Lemma followers_select_edge_added X d e :
  length (followers_select X
            (set_followers (λ t, t ++ [e]) d))
  = (length (followers_select X d)
     + length (filter (λ u, Follow.followed_id e = User.id X
                            ∧ User.id u = Follow.follower_id e) (user d)))%nat.
Proof.
  unfold followers_select. simpl.
  rewrite <- (length_bind_if _ (user d)).
  apply length_bind_add. intros u _.
  by rewrite bind_app, length_app, bind_singleton.
Qed.

(** The two counters after the edges equal to [e] were deleted from a
    table that holds [e] once. *)
Lemma following_select_edge_removed X d e :
  NoDup (followers d) → e ∈ followers d →
  length (following_select X d)
  = (length (following_select X
               (set_followers
                  (filter (λ f, ¬ (Follow.follower_id f = Follow.follower_id e
                                   ∧ Follow.followed_id f
                                     = Follow.followed_id e))) d))
     + length (filter (λ u, Follow.follower_id e = User.id X
                            ∧ User.id u = Follow.followed_id e) (user d)))%nat.
Proof.
  intros Hnd He. unfold following_select. simpl.
  rewrite <- (length_bind_if _ (user d)).
  apply length_bind_add. intros u _.
  rewrite (length_bind_filter
             (λ f, Follow.follower_id f = Follow.follower_id e
                   ∧ Follow.followed_id f = Follow.followed_id e)).
  rewrite filter_edge_NoDup by done.
  rewrite bind_singleton. lia.
Qed.

Lemma followers_select_edge_removed X d e :
  NoDup (followers d) → e ∈ followers d →
  length (followers_select X d)
  = (length (followers_select X
               (set_followers
                  (filter (λ f, ¬ (Follow.follower_id f = Follow.follower_id e
                                   ∧ Follow.followed_id f
                                     = Follow.followed_id e))) d))
     + length (filter (λ u, Follow.followed_id e = User.id X
                            ∧ User.id u = Follow.follower_id e) (user d)))%nat.
Proof.
  intros Hnd He. unfold followers_select. simpl.
  rewrite <- (length_bind_if _ (user d)).
  apply length_bind_add. intros u _.
  rewrite (length_bind_filter
             (λ f, Follow.follower_id f = Follow.follower_id e
                   ∧ Follow.followed_id f = Follow.followed_id e)).
  rewrite filter_edge_NoDup by done.
  rewrite bind_singleton. lia.
Qed.

(** How many accounts one end of an edge is joined to. *)
Lemma length_filter_end d (i j x : Z) :
  NoDup (User.id <$> user d) → j ∈ User.id <$> user d →
  length (filter (λ u, i = x ∧ User.id u = j) (user d))
  = if decide (x = i) then 1%nat else 0%nat.
Proof.
  intros Hnd Hj. case_decide as Hx.
  - rewrite <- (length_filter_key User.id (user d) j Hnd Hj).
    f_equal. apply list_filter_iff. intros u. split; [tauto|].
    by intros ->.
  - apply length_filter_none. intros u _ [? _]. congruence.
Qed.

Lemma is_following_false A B a :
  eval (is_following A B) a = Return false → has_edge (db a) A B = false.
Proof. unfold eval. rewrite is_following_run. simpl. congruence. Qed.

Lemma is_following_true A B a :
  eval (is_following A B) a = Return true → has_edge (db a) A B = true.
Proof. unfold eval. rewrite is_following_run. simpl. congruence. Qed.

Lemma no_edge d A B :
  User.id B ∈ User.id <$> user d → has_edge d A B = false →
  Follow.mk (User.id A) (User.id B) ∉ followers d.
Proof.
  intros HB Hno Hin. apply not_true_iff_false in Hno. apply Hno.
  by apply has_edge_spec.
Qed.

End follower_counts.

(** In a store whose user ids are unique, when A does not yet follow B
    (both accounts of the store), [follow(A, B)] raises the following
    count of A and the follower count of B by exactly one, and leaves
    both counts of every other account as they were. *)
Theorem follow_adds_one (A B X : User.t) (a : app) :
  NoDup (User.id <$> user (db a)) →
  User.id A ∈ User.id <$> user (db a) →
  User.id B ∈ User.id <$> user (db a) →
  eval (is_following A B) a = Return false →
  ∃ n m : Z,
    eval (following_count X) a = Return n
    ∧ eval (followers_count X) a = Return m
    ∧ eval (follow A B ;; following_count X) a
      = Return (if decide (User.id X = User.id A) then n + 1 else n)
    ∧ eval (follow A B ;; followers_count X) a
      = Return (if decide (User.id X = User.id B) then m + 1 else m).
Proof.
  intros Hnd HA HB Hno. apply is_following_false in Hno.
  destruct (follow_run A B a) as [Hret Hdb].
  exists (Z.of_nat (length (following_select X (db a)))),
         (Z.of_nat (length (followers_select X (db a)))).
  split_and!; [apply following_count_run | apply followers_count_run | |].
  - rewrite eval_seq by eauto. rewrite following_count_run, Hdb.
    unfold follow_db. rewrite Hno, following_select_edge_added. simpl.
    rewrite (length_filter_end _ _ _ _ Hnd HB).
    f_equal. case_decide; lia.
  - rewrite eval_seq by eauto. rewrite followers_count_run, Hdb.
    unfold follow_db. rewrite Hno, followers_select_edge_added. simpl.
    rewrite (length_filter_end _ _ _ _ Hnd HA).
    f_equal. case_decide; lia.
Qed.

(** [follow] at work: carol follows bob, who had one follower. *)
Lemma follow_adds_one_example :
  eval (follow carol bob ;; followers_count bob) (example_app example_db)
  = Return 2
  ∧ eval (follow carol bob ;; following_count carol) (example_app example_db)
    = Return 1
  ∧ eval (follow carol bob ;; following_count alice) (example_app example_db)
    = Return 1.
Proof.
  assert (H1 : NoDup (User.id <$> user (db (example_app example_db))))
    by by_computation.
  assert (H2 : User.id carol ∈ User.id <$> user (db (example_app example_db)))
    by by_computation.
  assert (H3 : User.id bob ∈ User.id <$> user (db (example_app example_db)))
    by by_computation.
  assert (H4 : eval (is_following carol bob) (example_app example_db)
               = Return false) by reflexivity.
  split_and!.
  - destruct (follow_adds_one carol bob bob _ H1 H2 H3 H4)
      as (n & m & _ & Hm & _ & ->).
    injection Hm as <-. reflexivity.
  - destruct (follow_adds_one carol bob carol _ H1 H2 H3 H4)
      as (n & m & Hn & _ & -> & _).
    injection Hn as <-. reflexivity.
  - destruct (follow_adds_one carol bob alice _ H1 H2 H3 H4)
      as (n & m & Hn & _ & -> & _).
    injection Hn as <-. reflexivity.
Defined.

(** In a store whose user ids are unique and whose followers table holds
    no edge twice (its compound primary key), when A follows B (A an
    account of the store), [unfollow(A, B)] lowers the following count of
    A and the follower count of B by exactly one, and leaves both counts
    of every other account as they were. *)
Theorem unfollow_removes_one (A B X : User.t) (a : app) :
  NoDup (User.id <$> user (db a)) →
  NoDup (followers (db a)) →
  User.id A ∈ User.id <$> user (db a) →
  eval (is_following A B) a = Return true →
  ∃ n m : Z,
    eval (following_count X) a = Return n
    ∧ eval (followers_count X) a = Return m
    ∧ eval (unfollow A B ;; following_count X) a
      = Return (if decide (User.id X = User.id A) then n - 1 else n)
    ∧ eval (unfollow A B ;; followers_count X) a
      = Return (if decide (User.id X = User.id B) then m - 1 else m).
Proof.
  intros Hnd Hpk HA Hyes. apply is_following_true in Hyes.
  destruct (proj1 (has_edge_spec _ _ _) Hyes) as [Hedge HB].
  destruct (unfollow_run A B a) as [Hret Hdb].
  exists (Z.of_nat (length (following_select X (db a)))),
         (Z.of_nat (length (followers_select X (db a)))).
  split_and!; [apply following_count_run | apply followers_count_run | |].
  - rewrite eval_seq by eauto. rewrite following_count_run, Hdb.
    unfold unfollow_db. rewrite Hyes.
    rewrite (following_select_edge_removed X (db a) _ Hpk Hedge). simpl.
    rewrite (length_filter_end _ _ _ _ Hnd HB).
    f_equal. case_decide; lia.
  - rewrite eval_seq by eauto. rewrite followers_count_run, Hdb.
    unfold unfollow_db. rewrite Hyes.
    rewrite (followers_select_edge_removed X (db a) _ Hpk Hedge). simpl.
    rewrite (length_filter_end _ _ _ _ Hnd HA).
    f_equal. case_decide; lia.
Qed.

(** [unfollow] at work: alice unfollows bob, her only followed account. *)
Lemma unfollow_removes_one_example :
  eval (unfollow alice bob ;; following_count alice) (example_app example_db)
  = Return 0
  ∧ eval (unfollow alice bob ;; followers_count bob) (example_app example_db)
    = Return 0.
Proof.
  assert (H1 : NoDup (User.id <$> user (db (example_app example_db))))
    by by_computation.
  assert (H2 : NoDup (followers (db (example_app example_db))))
    by by_computation.
  assert (H3 : User.id alice ∈ User.id <$> user (db (example_app example_db)))
    by by_computation.
  assert (H4 : eval (is_following alice bob) (example_app example_db)
               = Return true) by reflexivity.
  split_and!.
  - destruct (unfollow_removes_one alice bob alice _ H1 H2 H3 H4)
      as (n & m & Hn & _ & -> & _).
    injection Hn as <-. reflexivity.
  - destruct (unfollow_removes_one alice bob bob _ H1 H2 H3 H4)
      as (n & m & _ & Hm & _ & ->).
    injection Hm as <-. reflexivity.
Defined.

(** [follow(A, B)] and [unfollow(A, B)] write the followers table only,
    and of it only the edge from A to B: every other edge is in the table
    afterwards exactly if it was before, [follow] deletes no row and
    [unfollow] adds none, and [is_following] answers for every other
    pair of accounts as it did before. *)
Theorem follow_unfollow_frame (A B : User.t) (a : app) :
  (∀ m, m = follow A B ∨ m = unfollow A B →
        user (db (exec m a)) = user (db a)
        ∧ post (db (exec m a)) = post (db a)
        ∧ message (db (exec m a)) = message (db a)
        ∧ notification (db (exec m a)) = notification (db a)
        ∧ task (db (exec m a)) = task (db a)
        ∧ (∀ f, f ≠ Follow.mk (User.id A) (User.id B) →
                f ∈ followers (db (exec m a)) ↔ f ∈ followers (db a))
        ∧ (∀ X Y, ¬ (User.id X = User.id A ∧ User.id Y = User.id B) →
                  eval (m ;; is_following X Y) a
                  = eval (is_following X Y) a))
  ∧ followers (db a) `sublist_of` followers (db (exec (follow A B) a))
  ∧ followers (db (exec (unfollow A B) a)) `sublist_of` followers (db a).
Proof.
  destruct (follow_run A B a) as [Hfr Hfd].
  destruct (unfollow_run A B a) as [Hur Hud].
  assert (Hedges : ∀ m, m = follow A B ∨ m = unfollow A B →
            user (db (exec m a)) = user (db a)
            ∧ post (db (exec m a)) = post (db a)
            ∧ message (db (exec m a)) = message (db a)
            ∧ notification (db (exec m a)) = notification (db a)
            ∧ task (db (exec m a)) = task (db a)
            ∧ (∀ f, f ≠ Follow.mk (User.id A) (User.id B) →
                    f ∈ followers (db (exec m a)) ↔ f ∈ followers (db a))).
  { intros m [-> | ->].
    - rewrite Hfd. unfold follow_db.
      destruct (has_edge (db a) A B); [done|]. simpl.
      split_and!; try done. intros f Hf.
      rewrite elem_of_app, list_elem_of_singleton. tauto.
    - rewrite Hud. unfold unfollow_db.
      destruct (has_edge (db a) A B); [|done]. simpl.
      split_and!; try done. intros f Hf.
      rewrite list_elem_of_filter. split; [tauto|]. intros Hin.
      split; [|done]. intros [? ?]. apply Hf. destruct f; simpl in *.
      congruence. }
  split_and!.
  - intros m Hm.
    destruct (Hedges m Hm) as (Hu & Hp & Hms & Hn & Ht & Hf).
    split_and!; try done. intros X Y Hother.
    rewrite eval_seq by (destruct Hm as [-> | ->]; eauto).
    unfold eval. rewrite !is_following_run. simpl. f_equal.
    apply eq_true_iff_eq. rewrite !has_edge_spec, Hu, Hf; [done|].
    intros [= ? ?]. by apply Hother.
  - rewrite Hfd. unfold follow_db.
    destruct (has_edge (db a) A B); [done|]. simpl.
    by apply sublist_inserts_r.
  - rewrite Hud. unfold unfollow_db.
    destruct (has_edge (db a) A B); [|done]. simpl.
    apply sublist_filter.
Qed.

(** When A does not follow B, an account of the store, [follow(A, B)]
    followed by [unfollow(A, B)] returns and leaves the store exactly as
    it was. *)
Theorem unfollow_undoes_follow (A B : User.t) (a : app) :
  User.id B ∈ User.id <$> user (db a) →
  eval (is_following A B) a = Return false →
  eval (follow A B ;; unfollow A B) a = Return tt
  ∧ db (exec (follow A B ;; unfollow A B) a) = db a.
Proof.
  intros HB Hno. apply is_following_false in Hno.
  destruct (follow_run A B a) as [Hfr Hfd].
  destruct (unfollow_run A B (exec (follow A B) a)) as [Hur Hud].
  rewrite eval_seq, exec_seq by eauto. split; [done|].
  rewrite Hud, Hfd. unfold unfollow_db.
  rewrite has_edge_follow by done.
  unfold follow_db. rewrite Hno.
  assert (Hnone := no_edge (db a) A B HB Hno).
  destruct (db a) as [us fl ps ms ns ts]. unfold set_followers. simpl in *.
  f_equal. rewrite filter_app.
  rewrite (filter_cons_False _ _ []), app_nil_r by (simpl; tauto).
  clear -Hnone. induction fl as [|f fl IH]; [done|].
  rewrite filter_cons_True.
  - f_equal. apply IH. intros Hin. apply Hnone. by right.
  - intros [? ?]. apply Hnone. destruct f; simpl in *. subst. left.
Qed.

(** The round trip at work: carol follows bob and unfollows him. *)
Lemma unfollow_undoes_follow_example :
  db (exec (follow carol bob ;; unfollow carol bob) (example_app example_db))
  = example_db.
Proof.
  refine (proj2 (unfollow_undoes_follow carol bob (example_app example_db)
                   _ _)); [by_computation | reflexivity].
Defined.

(** The follower graph drives the timeline.  For accounts A and B of the
    store and a post of B: after [follow(A, B)] the post is on A's
    timeline, and after [unfollow(A, B)] it is not, unless A is B. *)
Theorem follow_shows_posts (A B : User.t) (a : app) (p : Post.t) :
  User.id A ∈ User.id <$> user (db a) →
  User.id B ∈ User.id <$> user (db a) →
  p ∈ post (db a) →
  Post.user_id p = User.id B →
  p ∈ following_posts A (db (exec (follow A B) a))
  ∧ (User.id A ≠ User.id B →
     p ∉ following_posts A (db (exec (unfollow A B) a))).
Proof.
  intros HA HB Hp Hauthor.
  destruct (follow_run A B a) as [_ Hfd].
  destruct (unfollow_run A B a) as [_ Hud].
  split.
  - assert (Hedge : has_edge (db (exec (follow A B) a)) A B = true)
      by (rewrite Hfd; by apply has_edge_follow).
    apply has_edge_spec in Hedge as [Hedge _].
    assert (Hu : user (db (exec (follow A B) a)) = user (db a)
                 ∧ post (db (exec (follow A B) a)) = post (db a)).
    { rewrite Hfd. unfold follow_db. by destruct (has_edge (db a) A B). }
    destruct Hu as [Hu Hps].
    apply following_posts_complete; rewrite ?Hu, ?Hps, ?Hauthor; auto.
  - intros Hne Hin. apply following_posts_sound in Hin as [_ [Hown|Hedge]].
    + congruence.
    + assert (Hno : has_edge (db (exec (unfollow A B) a)) A B = false)
        by (rewrite Hud; apply has_edge_unfollow).
      apply not_true_iff_false in Hno. apply Hno, has_edge_spec.
      rewrite <- Hauthor. split; [done|].
      rewrite Hauthor, Hud. unfold unfollow_db.
      by destruct (has_edge (db a) A B).
Qed.

(** The timeline at work: carol sees bob's post once she follows him,
    and alice no longer does once she unfollows him. *)
Lemma follow_shows_posts_example :
  Post.mk 1 "hello" 100 2
    ∈ following_posts carol
        (db (exec (follow carol bob) (example_app example_db)))
  ∧ Post.mk 1 "hello" 100 2
      ∉ following_posts alice
          (db (exec (unfollow alice bob) (example_app example_db))).
Proof.
  split.
  - refine (proj1 (follow_shows_posts carol bob (example_app example_db)
                     (Post.mk 1 "hello" 100 2) _ _ _ _));
      (by_computation || reflexivity).
  - refine (proj2 (follow_shows_posts alice bob (example_app example_db)
                     (Post.mk 1 "hello" 100 2) _ _ _ _) _);
      (by_computation || reflexivity || discriminate).
Defined.

(** ** API tokens: issue, check, revoke *)

Section api_tokens.
Implicit Types (u v : User.t) (a : app) (users : list User.t).

Lemma update_user_elem users u u' :
  u ∈ users → User.id u' = User.id u →
  u' ∈ (λ r, if decide (User.id r = User.id u') then u' else r) <$> users.
Proof.
  intros Hu Hid. apply list_elem_of_fmap. exists u.
  by rewrite decide_True.
Qed.

Lemma token_unique_update users u u' :
  NoDup (User.id <$> users) → u ∈ users → User.id u' = User.id u →
  token_unique users →
  (∀ v tok, v ∈ users → User.token u' = Some tok →
            User.token v = Some tok → v = u) →
  token_unique
    ((λ r, if decide (User.id r = User.id u') then u' else r) <$> users).
Proof.
  intros Hnd Hu Hid Huniq Hfresh x y tok Hx Hy Hxt Hyt.
  apply list_elem_of_fmap in Hx as (r & -> & Hr).
  apply list_elem_of_fmap in Hy as (s & -> & Hs).
  destruct (decide (User.id r = User.id u')) as [Hr'|Hr'],
           (decide (User.id s = User.id u')) as [Hs'|Hs']; try done.
  - exfalso. apply Hs'. by rewrite (Hfresh s tok Hs Hxt Hyt).
  - exfalso. apply Hr'. by rewrite (Hfresh r tok Hr Hyt Hxt).
  - by apply (Huniq r s tok).
Qed.

(** [get_token] when it issues a new token. *)
Lemma get_token_fresh u expires_in a :
  (User.token u = None ∨ User.token u = Some ""
   ∨ ∃ exp, User.token_expiration u = Some exp
            ∧ exp ≤ next_reading a + seconds 60) →
  let drawn := token_source a (tokens_drawn a) in
  let u' := User.set_token_expiration
              (Some (next_reading a + seconds expires_in))
              (User.set_token (Some drawn) u) in
  ∃ a', get_token u expires_in a = (Return (drawn, u'), a')
        ∧ db a' = update_row (EUser u') (db a)
        ∧ clock a' = clock a
        ∧ clock_reads a' = S (clock_reads a)
        ∧ tokens_drawn a' = S (tokens_drawn a).
Proof.
  intros Hcase drawn u'.
  set (a1 := exec time a).
  exists (exec (session_modified (EUser u'))
               (with_tokens_drawn (S (tokens_drawn a)) a1)).
  split; [|by split_and!].
  unfold get_token.
  rewrite (bind_run time _ a (next_reading a) a1) by done.
  assert (Hfresh :
    (tok ← token_hex;
     let self' := User.set_token_expiration
                    (Some (next_reading a + seconds expires_in))
                    (User.set_token (Some tok) u) in
     session_modified (EUser self') ;; mret (tok, self')) a1
    = (Return (drawn, u'),
       exec (session_modified (EUser u'))
            (with_tokens_drawn (S (tokens_drawn a)) a1))) by done.
  destruct (User.token u) as [tok|] eqn:Htok; [|exact Hfresh].
  destruct (decide (tok = "")) as [_|Hne]; [exact Hfresh|].
  destruct Hcase as [?|[[= ?]|(exp & -> & Hexp)]]; try done.
  rewrite decide_False; [exact Hfresh|]. lia.
Qed.

End api_tokens.

(** The token [get_token] hands out is accepted by [check_token].  In a
    store whose user ids and tokens are unique, for an account [u] of it
    whose token, if any, has an expiry, and when the token the source
    draws next is no other account's: [get_token] returns a token and the
    account as it then stands, holder of that token with an expiry; it is
    [u] itself, unchanged, when [u] holds a non-empty token with more
    than 60 seconds left, and otherwise [u] with the drawn token and the
    expiry [expires_in] seconds ahead.  A [check_token] of the returned
    token that reads the clock no later than that expiry returns that
    account. *)
Theorem get_token_is_accepted (u : User.t) (expires_in : Z) (a : app) :
  u ∈ user (db a) →
  NoDup (User.id <$> user (db a)) →
  token_unique (user (db a)) →
  (∀ v, v ∈ user (db a) →
        User.token v = Some (token_source a (tokens_drawn a)) → v = u) →
  (is_Some (User.token u) → is_Some (User.token_expiration u)) →
  ∃ tok u' exp,
    eval (get_token u expires_in) a = Return (tok, u')
    ∧ User.id u' = User.id u
    ∧ User.token u' = Some tok
    ∧ User.token_expiration u' = Some exp
    ∧ (reusable_token u (next_reading a) → u' = u)
    ∧ (¬ reusable_token u (next_reading a) →
       tok = token_source a (tokens_drawn a)
       ∧ exp = next_reading a + seconds expires_in)
    ∧ (clock a (S (clock_reads a)) ≤ exp →
       eval (r ← get_token u expires_in; check_token r.1) a
       = Return (Some u')).
Proof.
  intros Hu Hnd Huniq Hdrawn Hexpiry.
  destruct (decide (reusable_token u (next_reading a))) as [Hyes|Hno].
  - (* the token is reused *)
    unfold reusable_token in Hyes.
    destruct (User.token u) as [held|] eqn:Hheld; [|done].
    destruct (User.token_expiration u) as [e|] eqn:He; [|done].
    destruct Hyes as [Hne Hlate].
    assert (Hrun : get_token u expires_in a = (Return (held, u), exec time a)).
    { unfold get_token.
      rewrite (bind_run time _ a (next_reading a) (exec time a)) by done.
      rewrite Hheld, decide_False by done. rewrite He.
      by rewrite decide_True by done. }
    exists held, u, e. unfold eval. rewrite Hrun.
    split_and!; try done.
    { intros Hno. destruct Hno. unfold reusable_token.
      by rewrite Hheld, He. }
    intros Hclock. rewrite (bind_run _ _ a (held, u) _ Hrun). cbn [fst].
    rewrite (check_token_run held u (exec time a)) by done.
    rewrite He. simpl.
    by rewrite decide_False by (unfold next_reading; simpl; lia).
  - (* a new token is drawn *)
    destruct (get_token_fresh u expires_in a)
      as (a' & Hrun & Hdb & Hclock & Hreads & _).
    { unfold reusable_token in Hno.
      destruct (User.token u) as [held|] eqn:Hheld; [|by left].
      destruct (decide (held = "")) as [->|Hne]; [by right; left|].
      destruct (Hexpiry ltac:(eauto)) as [e He].
      right; right. exists e. split; [done|].
      rewrite He in Hno.
      destruct (decide (next_reading a + seconds 60 < e)); [|lia].
      by destruct Hno. }
    set (drawn := token_source a (tokens_drawn a)) in *.
    set (u' := User.set_token_expiration
                 (Some (next_reading a + seconds expires_in))
                 (User.set_token (Some drawn) u)) in *.
    exists drawn, u', (next_reading a + seconds expires_in).
    unfold eval. rewrite Hrun. split_and!; try done.
    intros Hcheck. rewrite (bind_run _ _ a (drawn, u') a' Hrun).
    cbn [fst].
    rewrite (check_token_run drawn u' a').
    + simpl. unfold next_reading in *. rewrite Hclock, Hreads.
      by rewrite decide_False by lia.
    + rewrite Hdb. by apply (update_user_elem (user (db a)) u u').
    + done.
    + rewrite Hdb. apply (token_unique_update (user (db a)) u u'); try done.
      intros v tok Hv [= <-] Hvt. by apply Hdrawn.
Qed.

(** The round trip at work: alice, who has no token, is issued one for
    an hour, and it is accepted at the next clock reading. *)
Lemma get_token_is_accepted_example :
  ∃ u', eval (get_token alice 3600) (example_app example_db)
        = Return ("0f1e2d3c4b5a69788796a5b4c3d2e1f0", u')
        ∧ eval (r ← get_token alice 3600; check_token r.1)
               (example_app example_db) = Return (Some u').
Proof.
  destruct (get_token_is_accepted alice 3600 (example_app example_db))
    as (tok & u' & exp & Hrun & _ & _ & _ & _ & Hfresh & Hcheck).
  - by_computation.
  - by_computation.
  - intros u v tok Hu Hv Hut Hvt. simpl in Hu.
    rewrite !elem_of_cons, elem_of_nil in Hu.
    destruct Hu as [->|[->|[->|[]]]]; discriminate Hut.
  - intros v Hv Hvt. simpl in Hv.
    rewrite !elem_of_cons, elem_of_nil in Hv.
    destruct Hv as [->|[->|[->|[]]]]; discriminate Hvt.
  - intros [? [=]].
  - destruct Hfresh as [-> ->]; [by intros []|].
    exists u'. split; [exact Hrun|]. apply Hcheck. by vm_compute.
Defined.

(** Once [revoke_token] has run, the next [get_token] on the account
    never hands the old token out as still valid: with a clock that does
    not run backwards it draws a new token, whose expiry lies
    [expires_in] seconds after the reading it took, and does not
    raise. *)
Theorem revoke_then_get_token (u : User.t) (expires_in : Z) (a : app) :
  clock a (clock_reads a) ≤ clock a (S (clock_reads a)) →
  ∃ u2,
    eval (u1 ← revoke_token u; get_token u1 expires_in) a
    = Return (token_source a (tokens_drawn a), u2)
    ∧ User.id u2 = User.id u
    ∧ User.token u2 = Some (token_source a (tokens_drawn a))
    ∧ User.token_expiration u2
      = Some (clock a (S (clock_reads a)) + seconds expires_in).
Proof.
  intros Hclock.
  destruct (revoke_token_run u a) as (Hrun & _ & Hnext).
  set (u1 := User.set_token_expiration
               (Some (next_reading a - seconds 1)) u) in *.
  set (a1 := exec (revoke_token u) a) in *.
  destruct (get_token_fresh u1 expires_in a1)
    as (a2 & Hrun2 & _).
  { right; right. eexists. split; [reflexivity|].
    rewrite Hnext. unfold next_reading, seconds. lia. }
  eexists. unfold eval.
  rewrite (bind_run _ _ a u1 a1 Hrun), Hrun2. rewrite Hnext.
  by split_and!.
Qed.

(** Revocation at work: dave's token is revoked and a new one issued. *)
Lemma revoke_then_get_token_example :
  ∃ u2, eval (u1 ← revoke_token dave; get_token u1 3600) token_app
        = Return ("0f1e2d3c4b5a69788796a5b4c3d2e1f0", u2)
        ∧ User.token_expiration u2 = Some (1001 + seconds 3600).
Proof.
  destruct (revoke_then_get_token dave 3600 token_app)
    as (u2 & Hrun & _ & _ & Hexp); [by vm_compute|].
  exists u2. split; [exact Hrun | exact Hexp].
Defined.

(** ** Background tasks: launching, progress, completion *)

Section tasks_in_progress.
Implicit Types (u : User.t) (a : app) (t k : Task.t).

Lemma head_filter_snoc {X} (P : X → Prop) `{∀ x, Decision (P x)}
    (l : list X) (x : X) :
  P x →
  head (filter P (l ++ [x]))
  = Some (default x (head (filter P l))).
Proof.
  intros HP. rewrite filter_app, (filter_cons_True _ _ []) by done.
  by destruct (filter P l).
Qed.

Lemma filter_update_complete (R : Task.t → Prop) `{∀ k, Decision (R k)}
    (jid : string) (t' : Task.t) (l : list Task.t) :
  Task.complete t' = true →
  (∀ k, R k → Task.complete k = false) →
  filter R ((λ r, if decide (Task.id r = jid) then t' else r) <$> l)
  = filter (λ k, Task.id k ≠ jid) (filter R l).
Proof.
  intros Ht' HR. induction l as [|r l IH]; [done|].
  rewrite fmap_cons. destruct (decide (Task.id r = jid)) as [Hr|Hr].
  - rewrite filter_cons_False
      by (intros HRt%HR; congruence).
    rewrite IH. rewrite (filter_cons R). case_decide; [|done].
    by rewrite filter_cons_False by tauto.
  - rewrite !(filter_cons R). case_decide; [|done].
    rewrite filter_cons_True by done. by rewrite IH.
Qed.

Lemma get_tasks_in_progress_run u a :
  eval (get_tasks_in_progress u) a
  = Return (filter (λ k, Task.complete k = false) (tasks_select u (db a))).
Proof. reflexivity. Qed.

Lemma get_task_in_progress_run u name a :
  eval (get_task_in_progress u name) a
  = Return (head (filter (λ k, Task.name k = name ∧ Task.complete k = false)
                         (tasks_select u (db a)))).
Proof. reflexivity. Qed.

End tasks_in_progress.

(** [launch_task]: when the queue accepts the job, the task row carries
    the job's id, the name and the description, belongs to the account
    and is not complete; it is the last of the account's tasks in
    progress, it changes no other account's list, and
    [get_task_in_progress] for its name finds a task of that name in
    progress, the new one when there was none before.  When the queue
    raises, [launch_task] raises the same error and adds no row. *)
Theorem launch_task_in_progress (enqueue : string → Z → outcome rq_job)
    (u : User.t) (name description : string) (a : app) :
  (∀ j, enqueue ("app.tasks." +:+ name) (User.id u) = Return j →
        let t := Task.mk (job_id j) name (Some description) (User.id u)
                         false in
        ∃ a',
          launch_task enqueue u name description a = (Return t, a')
          ∧ task (db a') = task (db a) ++ [t]
          ∧ (∃ before,
               eval (get_tasks_in_progress u) a = Return before
               ∧ eval (get_tasks_in_progress u) a' = Return (before ++ [t]))
          ∧ (∀ v, User.id v ≠ User.id u →
                  eval (get_tasks_in_progress v) a'
                  = eval (get_tasks_in_progress v) a)
          ∧ (∃ t0, eval (get_task_in_progress u name) a' = Return (Some t0)
                   ∧ Task.name t0 = name ∧ Task.complete t0 = false
                   ∧ Task.user_id t0 = User.id u)
          ∧ (eval (get_task_in_progress u name) a = Return None →
             eval (get_task_in_progress u name) a' = Return (Some t)))
  ∧ (∀ e, enqueue ("app.tasks." +:+ name) (User.id u) = Raise e →
          launch_task enqueue u name description a = (Raise e, a)).
Proof.
  split.
  - intros j Hj t.
    set (a' := exec (session_add (ETask t)) a).
    assert (Htasks : task (db a') = task (db a) ++ [t]) by done.
    exists a'. split_and!.
    + unfold launch_task. by rewrite Hj.
    + done.
    + eexists. split; [apply get_tasks_in_progress_run|].
      rewrite get_tasks_in_progress_run. unfold tasks_select.
      rewrite Htasks, !filter_app.
      by rewrite !(filter_cons_True _ _ []) by done.
    + intros v Hv. rewrite !get_tasks_in_progress_run. unfold tasks_select.
      rewrite Htasks, !filter_app.
      rewrite (filter_cons_False _ t []) by (simpl; congruence).
      by rewrite app_nil_r.
    + assert (Hhead : eval (get_task_in_progress u name) a'
                = Return (Some (default t (head
                    (filter (λ k, Task.name k = name ∧ Task.complete k = false)
                            (tasks_select u (db a))))))).
      { rewrite get_task_in_progress_run. unfold tasks_select.
        rewrite Htasks, filter_app, (filter_cons_True _ _ []) by done.
        rewrite filter_nil. by rewrite head_filter_snoc. }
      eexists. split; [exact Hhead|].
      destruct (head _) as [t0|] eqn:Ht0; [|done]. simpl.
      apply head_Some_elem_of, list_elem_of_filter in Ht0 as [[? ?] Ht0].
      apply list_elem_of_filter in Ht0 as [? _]. done.
    + rewrite !get_task_in_progress_run. intros [= Hnone].
      unfold tasks_select in *.
      rewrite Htasks, filter_app, (filter_cons_True _ _ []) by done.
      rewrite filter_nil, head_filter_snoc by done. by rewrite Hnone.
  - intros e He. unfold launch_task. by rewrite He.
Qed.

(** [_set_task_progress] in a worker whose job has its task and owner in
    the store: the call returns and records the progress in the job.
    Below 100 it leaves the task table as it was.  From 100 on, every
    task with the job's id is complete afterwards and every other task
    is as before, so each account's tasks in progress are those it had,
    without the job's task, and [get_task_in_progress] no longer finds
    it.  A task that was complete stays complete. *)
Theorem set_task_progress_completes `{JsonCodec} (progress : Z)
    (jid : string) (uid : Z) (a : app) :
  worker_ready jid uid a →
  ∃ a',
    _set_task_progress progress a = (Return tt, a')
    ∧ current_job a' = Some (mk_job jid (Some progress))
    ∧ (progress < 100 → task (db a') = task (db a))
    ∧ (100 ≤ progress →
       (∀ k, k ∈ task (db a') → Task.id k = jid → Task.complete k = true)
       ∧ (∀ k, Task.id k ≠ jid → k ∈ task (db a') ↔ k ∈ task (db a))
       ∧ (∀ u, eval (get_tasks_in_progress u) a'
               = Return (filter (λ k, Task.id k ≠ jid)
                           (filter (λ k, Task.complete k = false)
                                   (tasks_select u (db a)))))
       ∧ (∀ u name,
            eval (get_task_in_progress u name) a'
            = Return (head (filter (λ k, Task.id k ≠ jid)
                              (filter (λ k, Task.name k = name
                                            ∧ Task.complete k = false)
                                      (tasks_select u (db a)))))))
    ∧ (∀ k, k ∈ task (db a) → Task.complete k = true →
            ∃ k', k' ∈ task (db a') ∧ Task.id k' = Task.id k
                  ∧ Task.complete k' = true).
Proof.
  intros ((j & Hjob & <-) & (t & Htask & <-) & (o & Howner)).
  destruct (_set_task_progress_run progress a j t o Hjob Htask Howner)
    as (a' & Hrun & Hjob' & Hdb & _).
  assert (Hid : Task.id t = job_id j).
  { apply head_Some_elem_of, list_elem_of_filter in Htask. tauto. }
  set (t' := Task.set_complete true t).
  assert (Hlow : progress < 100 → task (db a') = task (db a)).
  { intros Hp. rewrite Hdb. by rewrite decide_False by lia. }
  assert (Hhigh : 100 ≤ progress →
            task (db a')
            = (λ r, if decide (Task.id r = job_id j) then t' else r)
                <$> task (db a)).
  { intros Hp. rewrite Hdb. rewrite decide_True by done. simpl.
    by rewrite Hid. }
  exists a'. split_and!; [done | done | done | |].
  - intros Hp. specialize (Hhigh Hp). split_and!.
    + intros k Hk Hkid. rewrite Hhigh in Hk.
      apply list_elem_of_fmap in Hk as (r & -> & Hr).
      case_decide; [done|]. congruence.
    + intros k Hkid. rewrite Hhigh, list_elem_of_fmap. split.
      * intros (r & -> & Hr). case_decide; [|done].
        destruct Hkid. done.
      * intros Hk. exists k. by rewrite decide_False.
    + intros u. rewrite get_tasks_in_progress_run. unfold tasks_select.
      rewrite Hhigh. f_equal.
      rewrite !(list_filter_filter (λ k, Task.complete k = false)).
      apply filter_update_complete; [done | tauto].
    + intros u name. rewrite get_task_in_progress_run. unfold tasks_select.
      rewrite Hhigh. do 2 f_equal.
      rewrite !(list_filter_filter
                  (λ k, Task.name k = name ∧ Task.complete k = false)).
      apply filter_update_complete; [done | tauto].
  - intros k Hk Hdone.
    destruct (decide (100 ≤ progress)) as [Hp|Hp].
    + rewrite (Hhigh Hp).
      destruct (decide (Task.id k = job_id j)) as [Hk'|Hk'].
      * exists t'. split_and!; [|by rewrite Hk'|done].
        apply list_elem_of_fmap. exists k. by rewrite decide_True.
      * exists k. split_and!; [|done|done].
        apply list_elem_of_fmap. exists k. by rewrite decide_False.
    + exists k. rewrite Hlow by lia. done.
Qed.

(** Progress at work: the export job of bob reports 50, then 100. *)
Lemma set_task_progress_completes_example :
  let H := example_codec in
  worker_ready "job-1" 2 worker_app
  ∧ eval (_set_task_progress 50 ;; get_task_in_progress bob "export_posts")
         worker_app
    = Return (Some (Task.mk "job-1" "export_posts"
                      (Some "Exporting posts...") 2 false))
  ∧ eval (_set_task_progress 100 ;; get_task_in_progress bob "export_posts")
         worker_app
    = Return None.
Proof.
  intros H.
  assert (H1 : worker_ready "job-1" 2 worker_app).
  { split_and!; eexists; split_and?; reflexivity. }
  split_and!; [exact H1 | reflexivity |].
  destruct (set_task_progress_completes 100 "job-1" 2 worker_app H1)
    as (a' & Hrun & _ & _ & Hhigh & _).
  destruct (Hhigh ltac:(lia)) as (_ & _ & _ & Hget).
  unfold eval. rewrite (bind_run _ _ worker_app tt a' Hrun).
  specialize (Hget bob "export_posts"). unfold eval in Hget.
  rewrite Hget. reflexivity.
Defined.

(** ** The export of posts: what it leaves alone, and what it sends *)

Section frames.
Context `{JsonCodec}.
Implicit Types (a : app) (R : relation app).

Global Instance untouched_refl : Reflexive untouched.
Proof. intros a. by repeat split. Qed.
Global Instance untouched_trans : Transitive untouched.
Proof.
  intros a b c (?&?&?&?&?&?&?&?) (?&?&?&?&?&?&?&?).
  repeat split; congruence.
Qed.
Global Instance jobless_refl : Reflexive jobless.
Proof. by intros a. Qed.
Global Instance jobless_trans : Transitive jobless.
Proof.
  intros a b c Hab Hbc Ha. destruct (Hab Ha) as [Hdb Hb].
  destruct (Hbc Hb) as [Hdb' Hc]. split; congruence.
Qed.
Global Instance same_db_refl : Reflexive same_db.
Proof. by intros a. Qed.
Global Instance same_db_trans : Transitive same_db.
Proof. unfold same_db. intros a b c. congruence. Qed.

Lemma preserves_bind R `{!Transitive R} {X Y} (m : M X) (f : X → M Y) :
  preserves R m → (∀ x, preserves R (f x)) → preserves R (m ≫= f).
Proof.
  intros Hm Hf a. specialize (Hm a). unfold exec, mbind, M_bind in *.
  destruct (m a) as [[x|e] a1]; simpl in *; [|done].
  etransitivity; [exact Hm|]. apply (Hf x a1).
Qed.

Lemma preserves_ret R `{!Reflexive R} {X} (x : X) : preserves R (mret x).
Proof. intros a. apply reflexivity. Qed.

Lemma preserves_raise R `{!Reflexive R} {X} (e : exn) :
  preserves R (raise (A:=X) e).
Proof. intros a. apply reflexivity. Qed.

Lemma preserves_get_app R `{!Reflexive R} : preserves R get_app.
Proof. intros a. apply reflexivity. Qed.

Lemma preserves_for_each R `{!Reflexive R, !Transitive R} {X}
    (l : list X) (body : X → M unit) :
  (∀ x, preserves R (body x)) → preserves R (for_each l body).
Proof.
  intros Hbody. induction l as [|x l IH]; [by apply preserves_ret|].
  cbn [for_each]. apply preserves_bind; [done | apply Hbody | by intros _].
Qed.

Lemma preserves_try_except R `{!Transitive R} {X} (m : M X) catches h :
  preserves R m → (∀ e, preserves R (h e)) →
  preserves R (try_except m catches h).
Proof.
  intros Hm Hh a. specialize (Hm a). unfold exec, try_except in *.
  destruct (m a) as [[x|e] a1]; simpl in *; [done|].
  destruct (catches e); [|done].
  etransitivity; [exact Hm|]. apply (Hh e a1).
Qed.

Lemma preserves_try_finally R `{!Transitive R} {X} (m : M X) fin :
  preserves R m → preserves R fin → preserves R (try_finally m fin).
Proof.
  intros Hm Hfin a. specialize (Hm a). specialize (Hfin (m a).2).
  unfold exec, try_finally in *.
  destruct (m a) as [r a1]; simpl in *.
  destruct (fin a1) as [[[]|e] a2]; simpl in *;
    (etransitivity; [exact Hm | exact Hfin]).
Qed.

Lemma untouched_blind : blind untouched.
Proof. intros a. by repeat split. Qed.
Lemma jobless_blind : blind jobless.
Proof. intros a. by repeat split. Qed.
Lemma same_db_blind : blind same_db.
Proof. intros a. by repeat split. Qed.

Lemma preserves_build_payload R `{!Reflexive R} model fields :
  preserves R (build_payload model fields).
Proof.
  intros a. replace (exec (build_payload model fields) a) with a;
    [apply reflexivity|].
  unfold exec. induction fields as [|f fields IH]; [done|].
  cbn [build_payload]. destruct (getattr model f); [|done].
  unfold mbind, M_bind.
  destruct (build_payload model fields a) as [[payload|e] a1];
    simpl in *; congruence.
Qed.

Lemma preserves_add_to_index R `{!Reflexive R, !Transitive R} index model :
  blind R → preserves R (add_to_index index model).
Proof.
  intros HR. unfold add_to_index.
  apply preserves_bind; [done | by apply preserves_get_app |]. intros a0.
  destruct (elasticsearch a0) as [es|]; [|by apply preserves_ret].
  apply preserves_bind; [done | by apply preserves_build_payload |].
  intros payload a. unfold es_request, exec.
  destruct (es_reachable es); [|apply reflexivity]. apply HR.
Qed.

Lemma preserves_remove_from_index R `{!Reflexive R, !Transitive R}
    index model :
  blind R → preserves R (remove_from_index index model).
Proof.
  intros HR. unfold remove_from_index.
  apply preserves_bind; [done | by apply preserves_get_app |]. intros a0.
  destruct (elasticsearch a0) as [es|]; [|by apply preserves_ret].
  intros a. unfold es_request, es_delete, exec.
  destruct (es_reachable es); [|apply reflexivity].
  destruct (es_docs es !! (index, model_id model)); apply HR.
Qed.

Lemma preserves_flush R : blind R → preserves R flush.
Proof. intros HR a. apply HR. Qed.

Lemma preserves_commit R `{!Reflexive R, !Transitive R} :
  blind R → preserves R commit.
Proof.
  intros HR. unfold commit.
  apply preserves_bind; [done | intros a; apply HR |]. intros _.
  apply preserves_bind; [done | by apply preserves_flush |]. intros _.
  unfold after_commit.
  apply preserves_bind; [done | by apply preserves_get_app |]. intros a0.
  destruct (_changes (db_session a0)) as [ch|]; [|by apply preserves_raise].
  repeat (apply preserves_bind; [done | | intros _]).
  - apply preserves_for_each; try done. intros obj.
    destruct (as_SearchableMixin obj);
      [by apply preserves_add_to_index | by apply preserves_ret].
  - apply preserves_for_each; try done. intros obj.
    destruct (as_SearchableMixin obj);
      [by apply preserves_add_to_index | by apply preserves_ret].
  - apply preserves_for_each; try done. intros obj.
    destruct (as_SearchableMixin obj);
      [by apply preserves_remove_from_index | by apply preserves_ret].
  - intros a. apply HR.
Qed.

Lemma preserves_scalars R `{!Transitive R} {X} (q : query X) :
  blind R → preserves R (scalars q).
Proof. intros HR a. apply HR. Qed.

Lemma preserves_scalar_count R `{!Transitive R} {X} (q : query X) :
  blind R → preserves R (scalar_count q).
Proof. intros HR a. apply HR. Qed.

(** [_set_task_progress] touches the job, the notifications, the tasks,
    the session and the engine, nothing else. *)
Lemma untouched_set_task_progress progress :
  preserves untouched (_set_task_progress progress).
Proof.
  unfold _set_task_progress.
  apply preserves_bind; [apply _ | by apply preserves_get_app |]. intros a0.
  destruct (current_job a0) as [job|]; [|by apply preserves_ret].
  apply preserves_bind; [apply _ | intros a; by repeat split |]. intros _.
  apply preserves_bind; [apply _ | intros a; by repeat split |].
  intros [task|]; [|by apply preserves_raise].
  apply preserves_bind; [apply _ | intros a; by repeat split |].
  intros [owner|]; [|by apply preserves_raise].
  apply preserves_bind; [apply _ | intros a; by repeat split |]. intros _.
  apply preserves_bind; [apply _ | |].
  - case_decide; [intros a; by repeat split | by apply preserves_ret].
  - intros _. apply preserves_commit; [apply _ .. | apply untouched_blind].
Qed.

Lemma jobless_set_task_progress progress :
  preserves jobless (_set_task_progress progress).
Proof.
  intros a Hjob. unfold exec, _set_task_progress.
  rewrite (bind_run get_app _ a a a) by done. by rewrite Hjob.
Qed.

Lemma jobless_export_loop posts data posts_count total_posts :
  preserves jobless (export_loop posts data posts_count total_posts).
Proof.
  revert data posts_count.
  induction posts as [|post posts IH]; intros data posts_count;
    [by apply preserves_ret|].
  cbn [export_loop].
  apply preserves_bind; [apply _ | by apply preserves_ret |]. intros _.
  apply preserves_bind; [apply _ | | intros _; apply IH].
  case_decide; [by apply preserves_raise|].
  apply jobless_set_task_progress.
Qed.

Lemma jobless_mail_send msg : preserves jobless (mail_send msg).
Proof.
  intros a Hjob. unfold exec, mail_send.
  rewrite (bind_run get_app _ a a a) by done.
  by destruct (mail_failure a).
Qed.

Lemma jobless_export_posts user_id :
  preserves jobless (export_posts user_id).
Proof.
  unfold export_posts.
  apply preserves_try_finally;
    [apply _ | | apply jobless_set_task_progress].
  apply preserves_try_except; [apply _ | |].
  - unfold export_posts_body.
    apply preserves_bind; [apply _ | intros a; by intros ? |]. intros user.
    apply preserves_bind; [apply _ | apply jobless_set_task_progress |].
    intros _. destruct user as [user|]; [|by apply preserves_raise].
    apply preserves_bind;
      [apply _ | apply preserves_scalar_count, jobless_blind; apply _ |].
    intros total_posts.
    apply preserves_bind;
      [apply _ | apply preserves_scalars, jobless_blind; apply _ |].
    intros posts.
    apply preserves_bind; [apply _ | apply jobless_export_loop |].
    intros data.
    apply preserves_bind; [apply _ | by apply preserves_get_app |].
    intros a0.
    destruct (ADMINS (config a0)); [by apply preserves_raise|].
    apply jobless_mail_send.
  - intros e.
    apply preserves_bind; [apply _ | apply jobless_set_task_progress |].
    intros _ a. by intros ?.
Qed.

(** The loop of [export_posts] in a worker that can report: it never
    divides by zero when the total counts the posts it walks. *)
Lemma export_loop_run jid uid posts data posts_count total_posts a :
  worker_ready jid uid a → (posts ≠ [] → total_posts ≠ 0) →
  ∃ a', export_loop posts data posts_count total_posts a
        = (Return (data ++ (exported_post <$> posts)), a')
        ∧ worker_ready jid uid a' ∧ untouched a a'.
Proof.
  revert data posts_count a.
  induction posts as [|post posts IH]; intros data posts_count a Ha Htotal.
  - exists a. rewrite app_nil_r. by split_and!.
  - cbn [export_loop].
    rewrite (bind_run (sleep 5) _ a tt a) by done.
    rewrite decide_False by (by apply Htotal).
    destruct (_set_task_progress_ready
                ((100 * (posts_count + 1)) `div` total_posts) jid uid a Ha)
      as (a1 & Hrun & Ha1 & _).
    assert (Hun : untouched a a1).
    { generalize (untouched_set_task_progress
                    ((100 * (posts_count + 1)) `div` total_posts) a).
      unfold exec. by rewrite Hrun. }
    rewrite (bind_run _ _ a tt a1 Hrun).
    destruct (IH (data ++ [exported_post post]) (posts_count + 1) a1 Ha1)
      as (a' & Hloop & Ha' & Hun').
    { intros _. apply Htotal. done. }
    exists a'. split_and!; [|done|by etransitivity].
    unfold exported_post in *. rewrite Hloop.
    by rewrite fmap_cons, <- app_assoc.
Qed.

Lemma export_loop_jobless posts data posts_count total_posts a :
  current_job a = None → (posts ≠ [] → total_posts ≠ 0) →
  export_loop posts data posts_count total_posts a
  = (Return (data ++ (exported_post <$> posts)), a).
Proof.
  intros Hjob. revert data posts_count.
  induction posts as [|post posts IH]; intros data posts_count Htotal.
  - by rewrite app_nil_r.
  - cbn [export_loop].
    rewrite (bind_run (sleep 5) _ a tt a) by done.
    rewrite decide_False by (by apply Htotal).
    rewrite (bind_run _ _ a tt a).
    + rewrite IH by (intros _; by apply Htotal).
      by rewrite fmap_cons, <- app_assoc.
    + unfold _set_task_progress.
      rewrite (bind_run get_app _ a a a) by done. by rewrite Hjob.
Qed.

Lemma posts_total_nonzero (u : User.t) (d : database) :
  order_by post_timestamp_asc (posts_select u d) ≠ [] →
  Z.of_nat (length (posts_select u d)) ≠ 0.
Proof.
  unfold order_by. intros Hne Hlen.
  apply Hne, Permutation_nil_r. rewrite merge_sort_Permutation.
  by destruct (posts_select u d).
Qed.

End frames.

Section export.
Context `{JsonCodec}.
Implicit Types (a : app) (u : User.t).

Lemma set_task_progress_jobless progress a :
  current_job a = None → _set_task_progress progress a = (Return tt, a).
Proof.
  intros Hjob. unfold _set_task_progress.
  rewrite (bind_run get_app _ a a a) by done. by rewrite Hjob.
Qed.

Lemma get_User_run (pk : Z) a :
  get_User pk a
  = (Return (head (filter (λ v, User.id v = pk) (user (db a)))), a).
Proof. reflexivity. Qed.

Lemma mail_send_run msg a :
  mail_send msg a
  = match mail_failure a with
    | Some e => (Raise e, a)
    | None => (Return tt, with_outbox (outbox a ++ [msg]) a)
    end.
Proof.
  unfold mail_send. rewrite (bind_run get_app _ a a a) by done.
  by destruct (mail_failure a).
Qed.

(** The [try] block of [export_posts] when nothing fails. *)
Lemma export_posts_body_run user_id a u jid uid admin admins :
  worker_ready jid uid a →
  head (filter (λ v, User.id v = user_id) (user (db a))) = Some u →
  mail_failure a = None →
  ADMINS (config a) = admin :: admins →
  ∃ a3,
    export_posts_body user_id a
    = (Return tt,
       with_outbox
         (outbox a ++ [export_mail admin u
                         (order_by post_timestamp_asc
                                   (posts_select u (db a)))]) a3)
    ∧ worker_ready jid uid a3 ∧ untouched a a3.
Proof.
  intros Ha Huser Hmail Hadmins. unfold export_posts_body.
  rewrite (bind_run _ _ a (Some u) a) by (by rewrite get_User_run, Huser).
  destruct (_set_task_progress_ready 0 jid uid a Ha) as (a1 & Hrun1 & Ha1 & _).
  assert (Hun1 : untouched a a1).
  { generalize (untouched_set_task_progress 0 a). unfold exec.
    by rewrite Hrun1. }
  rewrite (bind_run _ _ a tt a1 Hrun1).
  set (a2 := exec flush a1).
  rewrite (bind_run (scalar_count (posts_select u)) _ a1
             (Z.of_nat (length (posts_select u (db a1)))) a2) by done.
  rewrite (bind_run (scalars _) _ a2
             (order_by post_timestamp_asc (posts_select u (db a1))) a2)
    by done.
  assert (Hposts : posts_select u (db a1) = posts_select u (db a)).
  { unfold posts_select. by rewrite (proj1 (proj2 (proj2 Hun1))). }
  rewrite Hposts.
  destruct (export_loop_run jid uid
              (order_by post_timestamp_asc (posts_select u (db a))) [] 0
              (Z.of_nat (length (posts_select u (db a)))) a2)
    as (a3 & Hloop & Ha3 & Hun3).
  { by apply (worker_ready_same jid uid a1). }
  { apply posts_total_nonzero. }
  rewrite (bind_run _ _ a2 _ a3 Hloop).
  rewrite (bind_run get_app _ a3 a3 a3) by done.
  assert (Hun : untouched a a3).
  { etransitivity; [exact Hun1|]. etransitivity; [|exact Hun3].
    by repeat split. }
  destruct Hun as (Hu & Hf & Hp & Hm & Hconf & Hfail & Hout & Hlog).
  rewrite Hconf, Hadmins. unfold send_email.
  rewrite mail_send_run, Hfail, Hmail, Hout.
  exists a3. split_and!; [done | done | by repeat split].
Qed.

Lemma export_posts_body_jobless user_id a u admin admins :
  current_job a = None →
  head (filter (λ v, User.id v = user_id) (user (db a))) = Some u →
  ADMINS (config a) = admin :: admins →
  export_posts_body user_id a
  = mail_send (export_mail admin u
                 (order_by post_timestamp_asc (posts_select u (db a))))
              (exec flush a).
Proof.
  intros Hjob Huser Hadmins. unfold export_posts_body.
  rewrite (bind_run _ _ a (Some u) a) by (by rewrite get_User_run, Huser).
  rewrite (bind_run _ _ a tt a) by (by apply set_task_progress_jobless).
  set (a2 := exec flush a).
  rewrite (bind_run (scalar_count (posts_select u)) _ a
             (Z.of_nat (length (posts_select u (db a)))) a2) by done.
  rewrite (bind_run (scalars _) _ a2
             (order_by post_timestamp_asc (posts_select u (db a))) a2)
    by done.
  rewrite (bind_run _ _ a2 _ a2
             (export_loop_jobless _ [] 0 _ a2 Hjob
                (posts_total_nonzero u (db a)))).
  rewrite (bind_run get_app _ a2 a2 a2) by done.
  change (config a2) with (config a). by rewrite Hadmins.
Qed.

End export.

(** [export_posts] when nothing fails.  A worker runs a job whose task
    and owner are in the store, the account [user_id] exists, an
    administrator address is configured and the mail transport
    delivers.  Then [export_posts] returns, and it has sent exactly one
    mail: from the first administrator to the account's address, with
    the attachment [posts.json] that lists the account's posts, each
    with body and timestamp, oldest first.  It logs no error, it never
    divides by zero (an account without posts gets an empty archive), it
    leaves the posts as they were, and the task ends complete with one
    progress notification at 100. *)
Theorem export_posts_sends_archive `{JsonCodec} (user_id : Z) (a : app)
    (u : User.t) (jid : string) (uid : Z) (admin : string)
    (admins : list string) :
  worker_ready jid uid a →
  head (filter (λ v, User.id v = user_id) (user (db a))) = Some u →
  mail_failure a = None →
  ADMINS (config a) = admin :: admins →
  eval (export_posts user_id) a = Return tt
  ∧ outbox (exec (export_posts user_id) a)
    = outbox a ++ [export_mail admin u
                     (order_by post_timestamp_asc (posts_select u (db a)))]
  ∧ StronglySorted post_timestamp_asc
      (order_by post_timestamp_asc (posts_select u (db a)))
  ∧ (∀ p, p ∈ order_by post_timestamp_asc (posts_select u (db a))
          ↔ p ∈ post (db a) ∧ Post.user_id p = User.id u)
  ∧ error_log (exec (export_posts user_id) a) = error_log a
  ∧ post (db (exec (export_posts user_id) a)) = post (db a)
  ∧ task_complete jid (exec (export_posts user_id) a)
  ∧ one_progress_notification jid uid 100 (exec (export_posts user_id) a).
Proof.
  intros Ha Huser Hmail Hadmins.
  destruct (export_posts_body_run user_id a u jid uid admin admins
              Ha Huser Hmail Hadmins) as (a3 & Hbody & Ha3 & Hun3).
  set (msg := export_mail admin u
                (order_by post_timestamp_asc (posts_select u (db a)))) in *.
  set (a4 := with_outbox (outbox a ++ [msg]) a3) in *.
  assert (Ha4 : worker_ready jid uid a4)
    by (by apply (worker_ready_same jid uid a3)).
  destruct (_set_task_progress_ready 100 jid uid a4 Ha4)
    as (a5 & Hrun5 & _ & Hone & Hdone & _).
  assert (Hun5 : untouched a4 a5).
  { generalize (untouched_set_task_progress 100 a4). unfold exec.
    by rewrite Hrun5. }
  assert (Hrun : export_posts user_id a = (Return tt, a5)).
  { unfold export_posts, try_finally, try_except.
    by rewrite Hbody, Hrun5. }
  unfold eval, exec. rewrite Hrun. simpl.
  destruct Hun3 as (_ & _ & Hp3 & _ & _ & _ & _ & Hlog3).
  destruct Hun5 as (_ & _ & Hp5 & _ & _ & _ & Hout5 & Hlog5).
  split_and!; try done.
  - unfold order_by. apply StronglySorted_merge_sort.
    + intros p q r. unfold post_timestamp_asc. lia.
    + intros p q. unfold post_timestamp_asc. lia.
  - intros p. unfold order_by, posts_select.
    rewrite merge_sort_Permutation, list_elem_of_filter. tauto.
  - by rewrite Hlog5.
  - by rewrite Hp5.
  - by apply Hdone.
Qed.

(** The export at work: bob's two posts are archived oldest first. *)
Lemma export_posts_sends_archive_example :
  let H := example_codec in
  eval (export_posts 2) delivering_worker_app = Return tt
  ∧ outbox (exec (export_posts 2) delivering_worker_app)
    = [export_mail "admin@example.com" bob
         [Post.mk 1 "hello" 100 2; Post.mk 3 "again" 200 2]]
  ∧ task_complete "job-1" (exec (export_posts 2) delivering_worker_app).
Proof.
  intros H.
  assert (H1 : worker_ready "job-1" 2 delivering_worker_app).
  { split_and!; eexists; split_and?; reflexivity. }
  destruct (export_posts_sends_archive 2 delivering_worker_app bob "job-1" 2
              "admin@example.com" [] H1 eq_refl eq_refl eq_refl)
    as (Hret & Hout & _ & _ & _ & _ & Hdone & _).
  split_and!; [exact Hret | | exact Hdone].
  rewrite Hout. reflexivity.
Defined.

(** [export_posts] outside a worker, where [get_current_job()] is
    [None]: the store stays exactly as it was, so no notification is
    written and no task is marked.  When the account exists and an
    administrator address is configured, the mail is sent and nothing is
    logged if the transport delivers, and the transport's error is
    logged, with no mail, if it raises an [Exception]; when the account
    does not exist the call returns with an [AttributeError] logged and
    no mail. *)
Theorem export_posts_without_job `{JsonCodec} (user_id : Z) (a : app) :
  current_job a = None →
  db (exec (export_posts user_id) a) = db a
  ∧ (∀ u admin admins,
       head (filter (λ v, User.id v = user_id) (user (db a))) = Some u →
       ADMINS (config a) = admin :: admins →
       (mail_failure a = None →
        eval (export_posts user_id) a = Return tt
        ∧ outbox (exec (export_posts user_id) a)
          = outbox a ++ [export_mail admin u
                           (order_by post_timestamp_asc
                                     (posts_select u (db a)))]
        ∧ error_log (exec (export_posts user_id) a) = error_log a)
       ∧ (∀ e, mail_failure a = Some e → is_Exception e = true →
               eval (export_posts user_id) a = Return tt
               ∧ outbox (exec (export_posts user_id) a) = outbox a
               ∧ error_log (exec (export_posts user_id) a)
                 = error_log a ++ [("Unhandled exception", e)]))
  ∧ (head (filter (λ v, User.id v = user_id) (user (db a))) = None →
     eval (export_posts user_id) a = Return tt
     ∧ outbox (exec (export_posts user_id) a) = outbox a
     ∧ error_log (exec (export_posts user_id) a)
       = error_log a ++ [("Unhandled exception", AttributeError)]).
Proof.
  intros Hjob. split_and!.
  - by apply (jobless_export_posts user_id a).
  - intros u admin admins Huser Hadmins.
    assert (Hbody := export_posts_body_jobless user_id a u admin admins
                       Hjob Huser Hadmins).
    rewrite mail_send_run in Hbody.
    change (mail_failure (exec flush a)) with (mail_failure a) in Hbody.
    unfold eval, exec, export_posts, try_finally, try_except. split.
    + intros Hmail. rewrite Hmail in Hbody. rewrite Hbody.
      by rewrite set_task_progress_jobless.
    + intros e Hmail He. rewrite Hmail in Hbody. rewrite Hbody, He.
      rewrite (bind_run _ _ (exec flush a) tt (exec flush a))
        by (by apply set_task_progress_jobless).
      unfold logger_error.
      rewrite (bind_run get_app _ (exec flush a) _ (exec flush a)) by done.
      unfold modify_app.
      by rewrite set_task_progress_jobless.
  - intros Hnone.
    assert (Hbody : export_posts_body user_id a = (Raise AttributeError, a)).
    { unfold export_posts_body.
      rewrite (bind_run _ _ a None a) by (by rewrite get_User_run, Hnone).
      by rewrite (bind_run _ _ a tt a)
        by (by apply set_task_progress_jobless). }
    unfold eval, exec, export_posts, try_finally, try_except.
    rewrite Hbody. simpl.
    rewrite (bind_run _ _ a tt a) by (by apply set_task_progress_jobless).
    unfold logger_error.
    rewrite (bind_run get_app _ a _ a) by done. unfold modify_app.
    by rewrite set_task_progress_jobless.
Qed.

(** The export at work outside a worker: the mail goes out and the
    store is as before. *)
Lemma export_posts_without_job_example :
  let H := example_codec in
  current_job (example_app example_db) = None
  ∧ db (exec (export_posts 2) (example_app example_db)) = example_db
  ∧ length (outbox (exec (export_posts 2) (example_app example_db))) = 1%nat
  ∧ error_log (exec (export_posts 9) (example_app example_db))
    = [("Unhandled exception", AttributeError)].
Proof.
  intros H.
  assert (H1 : current_job (example_app example_db) = None) by reflexivity.
  destruct (export_posts_without_job 2 (example_app example_db) H1)
    as (Hdb & Hfound & _).
  destruct (export_posts_without_job 9 (example_app example_db) H1)
    as (_ & _ & Hmissing).
  split_and!; [exact H1 | exact Hdb | |].
  - destruct (Hfound bob "admin@example.com" [] eq_refl eq_refl)
      as [Hsent _].
    destruct (Hsent eq_refl) as (_ & -> & _). reflexivity.
  - destruct (Hmissing eq_refl) as (_ & _ & ->). reflexivity.
Defined.

(** ** The views that write: [follow] and [unfollow] *)

Section follow_views.
Implicit Types (a : app) (d : database).

Lemma follow_session (A B : User.t) a :
  ∀ obj, obj ∈ new (db_session (exec (follow A B) a))
               ++ dirty (db_session (exec (follow A B) a))
               ++ deleted (db_session (exec (follow A B) a)) →
         as_SearchableMixin obj = None.
Proof.
  unfold exec, follow, mbind, M_bind. rewrite is_following_run.
  destruct (has_edge (db a) A B); simpl; intros obj Hobj.
  - by apply elem_of_nil in Hobj.
  - apply list_elem_of_singleton in Hobj. by subst.
Qed.

Lemma unfollow_session (A B : User.t) a :
  ∀ obj, obj ∈ new (db_session (exec (unfollow A B) a))
               ++ dirty (db_session (exec (unfollow A B) a))
               ++ deleted (db_session (exec (unfollow A B) a)) →
         as_SearchableMixin obj = None.
Proof.
  unfold exec, unfollow, mbind, M_bind. rewrite is_following_run.
  destruct (has_edge (db a) A B); simpl; intros obj Hobj.
  - apply list_elem_of_singleton in Hobj. by subst.
  - by apply elem_of_nil in Hobj.
Qed.

(** What the view [follow] does, case by case. *)
Lemma follow_view_run (current_user : User.t) (valid : bool)
    (username : string) a :
  routes.follow current_user valid username a
  = if valid then
      match head (filter (λ u, User.username u = username) (user (db a)))
      with
      | None =>
          (Return (mk_reply [("User %(username)s not found",
                              [("username", username)])]
                            (redirect (url_for "main.index" []))),
           exec flush a)
      | Some target =>
          if decide (User.id target = User.id current_user) then
            (Return (mk_reply [("You cannot follow yourself!", [])]
                       (redirect (url_for "main.user"
                                          [("username", JStr username)]))),
             exec flush a)
          else
            (Return (mk_reply [("You are now following %(username)s!",
                                [("username", username)])]
                       (redirect (url_for "main.user"
                                          [("username", JStr username)]))),
             with_db_session (λ _, mk_session [] [] [] None)
               (exec (follow current_user target) (exec flush a)))
      end
    else (Return (mk_reply [] (redirect (url_for "main.index" []))), a).
Proof.
  unfold routes.follow. destruct valid; [|done].
  rewrite (bind_run _ _ a
             (head (filter (λ u, User.username u = username) (user (db a))))
             (exec flush a)) by done.
  destruct (head _) as [target|]; [|done].
  case_decide; [done|].
  destruct (follow_run current_user target (exec flush a)) as [Hret _].
  rewrite (bind_run _ _ (exec flush a) tt
             (exec (follow current_user target) (exec flush a)))
    by (by rewrite run_eta, Hret).
  by rewrite (bind_run _ _ _ tt _ (commit_plain _ (follow_session _ _ _))).
Qed.

Lemma unfollow_view_run (current_user : User.t) (valid : bool)
    (username : string) a :
  routes.unfollow current_user valid username a
  = if valid then
      match head (filter (λ u, User.username u = username) (user (db a)))
      with
      | None =>
          (Return (mk_reply [("User %(username)s not found",
                              [("username", username)])]
                            (redirect (url_for "main.index" []))),
           exec flush a)
      | Some target =>
          if decide (User.id target = User.id current_user) then
            (Return (mk_reply [("You cannot unfollow yourself!", [])]
                       (redirect (url_for "main.user"
                                          [("username", JStr username)]))),
             exec flush a)
          else
            (Return (mk_reply [("You successfully unfollowed %(username)s!",
                                [("username", username)])]
                       (redirect (url_for "main.user"
                                          [("username", JStr username)]))),
             with_db_session (λ _, mk_session [] [] [] None)
               (exec (unfollow current_user target) (exec flush a)))
      end
    else (Return (mk_reply [] (redirect (url_for "main.index" []))), a).
Proof.
  unfold routes.unfollow. destruct valid; [|done].
  rewrite (bind_run _ _ a
             (head (filter (λ u, User.username u = username) (user (db a))))
             (exec flush a)) by done.
  destruct (head _) as [target|]; [|done].
  case_decide; [done|].
  destruct (unfollow_run current_user target (exec flush a)) as [Hret _].
  rewrite (bind_run _ _ (exec flush a) tt
             (exec (unfollow current_user target) (exec flush a)))
    by (by rewrite run_eta, Hret).
  by rewrite (bind_run _ _ _ tt _ (commit_plain _ (unfollow_session _ _ _))).
Qed.

End follow_views.

(** The view [follow].  It always returns a redirect.  With an invalid
    form, a name no account has, or the name of the logged-in account
    itself it leaves the store as it was (and says so: nothing, "not
    found", "You cannot follow yourself!").  With the name of another
    account it makes the logged-in account follow the first account of
    that name and commits.  Whatever the request, it adds no edge but one
    from the logged-in account to another account, so a followers table
    without self-edges stays without. *)
Theorem follow_view (current_user : User.t) (valid : bool)
    (username : string) (a : app) :
  let view := routes.follow current_user valid username in
  let found := head (filter (λ u, User.username u = username)
                            (user (db a))) in
  (∃ flashes location, eval view a = Return (mk_reply flashes
                                               (redirect location)))
  ∧ (valid = false ∨ found = None
     ∨ (∃ target, found = Some target
                  ∧ User.id target = User.id current_user) →
     db (exec view a) = db a)
  ∧ (valid = true → found = None →
     eval view a
     = Return (mk_reply [("User %(username)s not found",
                          [("username", username)])]
                        (redirect (url_for "main.index" []))))
  ∧ (∀ target, valid = true → found = Some target →
               User.id target = User.id current_user →
               eval view a
               = Return (mk_reply [("You cannot follow yourself!", [])]
                           (redirect (url_for "main.user"
                                        [("username", JStr username)]))))
  ∧ (∀ target, valid = true → found = Some target →
               User.id target ≠ User.id current_user →
               db (exec view a) = db (exec (follow current_user target) a)
               ∧ eval (view ;; is_following current_user target) a
                 = Return true
               ∧ db_session (exec view a) = mk_session [] [] [] None)
  ∧ (∀ f, f ∈ followers (db (exec view a)) →
          f ∈ followers (db a)
          ∨ (Follow.follower_id f = User.id current_user
             ∧ Follow.followed_id f ≠ User.id current_user))
  ∧ ((∀ f, f ∈ followers (db a) →
           Follow.follower_id f ≠ Follow.followed_id f) →
     ∀ f, f ∈ followers (db (exec view a)) →
          Follow.follower_id f ≠ Follow.followed_id f).
Proof.
  intros view found.
  assert (Hrun := follow_view_run current_user valid username a).
  fold view found in Hrun.
  assert (Hedges : ∀ f, f ∈ followers (db (exec view a)) →
            f ∈ followers (db a)
            ∨ (Follow.follower_id f = User.id current_user
               ∧ Follow.followed_id f ≠ User.id current_user)).
  { intros f. unfold exec. rewrite Hrun.
    destruct valid; [|by left].
    destruct found as [target|]; [|by left].
    case_decide as Hself; [by left|]. simpl.
    destruct (follow_run current_user target (exec flush a)) as [_ ->].
    unfold follow_db. destruct (has_edge _ _ _); [by left|]. simpl.
    rewrite elem_of_app, list_elem_of_singleton. intros [?| ->]; [by left|].
    right. done. }
  split_and!.
  - unfold eval. rewrite Hrun. destruct valid; [|by eexists _, _].
    destruct found as [target|]; [|by eexists _, _].
    case_decide; by eexists _, _.
  - unfold exec. rewrite Hrun. intros [->|[->|(target & -> & Hself)]].
    + done.
    + by destruct valid.
    + destruct valid; [|done]. by rewrite decide_True.
  - intros -> Hnone. unfold eval. by rewrite Hrun, Hnone.
  - intros target -> Hfound Hself. unfold eval.
    by rewrite Hrun, Hfound, decide_True.
  - intros target -> Hfound Hother.
    assert (Hstate : exec view a
              = with_db_session (λ _, mk_session [] [] [] None)
                  (exec (follow current_user target) (exec flush a))).
    { unfold exec at 1. by rewrite Hrun, Hfound, decide_False. }
    assert (Hdb : db (exec view a)
                  = db (exec (follow current_user target) a)).
    { rewrite Hstate. simpl.
      destruct (follow_run current_user target (exec flush a)) as [_ ->].
      by destruct (follow_run current_user target a) as [_ ->]. }
    split_and!; [done | | by rewrite Hstate].
    rewrite eval_seq
      by (unfold eval; rewrite Hrun, Hfound, decide_False by done; eauto).
    unfold eval. rewrite is_following_run. simpl. f_equal.
    rewrite Hdb. destruct (follow_run current_user target a) as [_ ->].
    apply has_edge_follow.
    apply head_Some_elem_of, list_elem_of_filter in Hfound as [_ Hin].
    by apply list_elem_of_fmap_2.
  - done.
  - intros Hloops f Hf. destruct (Hedges f Hf) as [Hold|[-> Hne]];
      [by apply Hloops | congruence].
Qed.

(** The view at work: carol asks to follow herself, then bob. *)
Lemma follow_view_example :
  eval (routes.follow carol true "carol") (example_app example_db)
  = Return (mk_reply [("You cannot follow yourself!", [])]
              (redirect (url_for "main.user" [("username", JStr "carol")])))
  ∧ eval (routes.follow carol true "bob" ;; is_following carol bob)
         (example_app example_db) = Return true.
Proof.
  destruct (follow_view carol true "carol" (example_app example_db))
    as (_ & _ & _ & Hself & _).
  destruct (follow_view carol true "bob" (example_app example_db))
    as (_ & _ & _ & _ & Hother & _).
  split.
  - apply (Hself carol); reflexivity.
  - apply (Hother bob); [reflexivity | reflexivity | discriminate].
Defined.

(** The view [unfollow].  It always returns a redirect.  With an invalid
    form, a name no account has, or the name of the logged-in account
    itself it leaves the store as it was.  With the name of another
    account it makes the logged-in account unfollow the first account of
    that name and commits.  It adds no edge, and removes none but edges
    that leave the logged-in account. *)
Theorem unfollow_view (current_user : User.t) (valid : bool)
    (username : string) (a : app) :
  let view := routes.unfollow current_user valid username in
  let found := head (filter (λ u, User.username u = username)
                            (user (db a))) in
  (∃ flashes location, eval view a = Return (mk_reply flashes
                                               (redirect location)))
  ∧ (valid = false ∨ found = None
     ∨ (∃ target, found = Some target
                  ∧ User.id target = User.id current_user) →
     db (exec view a) = db a)
  ∧ (∀ target, valid = true → found = Some target →
               User.id target = User.id current_user →
               eval view a
               = Return (mk_reply [("You cannot unfollow yourself!", [])]
                           (redirect (url_for "main.user"
                                        [("username", JStr username)]))))
  ∧ (∀ target, valid = true → found = Some target →
               User.id target ≠ User.id current_user →
               db (exec view a) = db (exec (unfollow current_user target) a)
               ∧ eval (view ;; is_following current_user target) a
                 = Return false
               ∧ db_session (exec view a) = mk_session [] [] [] None)
  ∧ followers (db (exec view a)) `sublist_of` followers (db a)
  ∧ (∀ f, f ∈ followers (db a) →
          Follow.follower_id f ≠ User.id current_user →
          f ∈ followers (db (exec view a))).
Proof.
  intros view found.
  assert (Hrun := unfollow_view_run current_user valid username a).
  fold view found in Hrun.
  assert (Hcases : db (exec view a) = db a
            ∨ ∃ target, db (exec view a)
                        = unfollow_db (db a) current_user target).
  { unfold exec. rewrite Hrun. destruct valid; [|by left].
    destruct found as [target|]; [|by left].
    case_decide as Hself; [by left|]. right. exists target. simpl.
    by destruct (unfollow_run current_user target (exec flush a))
      as [_ ->]. }
  split_and!.
  - unfold eval. rewrite Hrun. destruct valid; [|by eexists _, _].
    destruct found as [target|]; [|by eexists _, _].
    case_decide; by eexists _, _.
  - unfold exec. rewrite Hrun. intros [->|[->|(target & -> & Hself)]].
    + done.
    + by destruct valid.
    + destruct valid; [|done]. by rewrite decide_True.
  - intros target -> Hfound Hself. unfold eval.
    by rewrite Hrun, Hfound, decide_True.
  - intros target -> Hfound Hother.
    assert (Hstate : exec view a
              = with_db_session (λ _, mk_session [] [] [] None)
                  (exec (unfollow current_user target) (exec flush a))).
    { unfold exec at 1. by rewrite Hrun, Hfound, decide_False. }
    assert (Hdb : db (exec view a)
                  = db (exec (unfollow current_user target) a)).
    { rewrite Hstate. simpl.
      destruct (unfollow_run current_user target (exec flush a)) as [_ ->].
      by destruct (unfollow_run current_user target a) as [_ ->]. }
    split_and!; [done | | by rewrite Hstate].
    rewrite eval_seq
      by (unfold eval; rewrite Hrun, Hfound, decide_False by done; eauto).
    unfold eval. rewrite is_following_run. simpl. f_equal.
    rewrite Hdb. destruct (unfollow_run current_user target a) as [_ ->].
    apply has_edge_unfollow.
  - destruct Hcases as [->|[target ->]]; [done|].
    unfold unfollow_db. destruct (has_edge _ _ _); [|done]. simpl.
    apply sublist_filter.
  - intros f Hf Hother. destruct Hcases as [->|[target ->]]; [done|].
    unfold unfollow_db. destruct (has_edge _ _ _); [|done]. simpl.
    apply list_elem_of_filter. split; [tauto | done].
Qed.

(** ** The views that write: [index] *)

Section index_view.
Implicit Types (a : app) (p q : Post.t).

Lemma next_id_fresh (ids : list Z) : next_id ids ∉ ids.
Proof.
  assert (Hmax : ∀ i, i ∈ ids → i ≤ foldr Z.max 0 ids).
  { induction ids as [|j ids IH]; intros i Hi; [by apply elem_of_nil in Hi|].
    simpl. apply elem_of_cons in Hi as [->|Hi]; [lia|].
    specialize (IH i Hi). lia. }
  intros Hin. apply Hmax in Hin. unfold next_id in Hin. lia.
Qed.

Lemma head_newest (l : list Post.t) p :
  StronglySorted timestamp_desc l → p ∈ l →
  (∀ q, q ∈ l → q ≠ p → Post.timestamp q < Post.timestamp p) →
  head l = Some p.
Proof.
  intros Hsorted Hp Hnewer. destruct l as [|x l]; [by apply elem_of_nil in Hp|].
  simpl. f_equal. destruct (decide (x = p)) as [|Hne]; [done|].
  apply elem_of_cons in Hp as [?|Hp]; [done|].
  apply StronglySorted_inv in Hsorted as [_ Hall].
  specialize (proj1 (Forall_forall _ _) Hall p Hp). unfold timestamp_desc.
  specialize (Hnewer x (list_elem_of_here _ _) Hne). lia.
Qed.

(** With an engine that cannot be reached, the first loop of
    [after_commit] fails at the first searchable object. *)
Lemma mirror_loop_unreachable (objs : list entity) p a es :
  elasticsearch a = Some es → es_reachable es = false →
  for_each (objs ++ [EPost p]) (λ obj,
    match as_SearchableMixin obj with
    | Some m => add_to_index (__tablename__ m) m
    | None => mret tt
    end) a = (Raise ConnectionError, a).
Proof.
  intros Hes Hdown.
  assert (Hpost : ∀ q, add_to_index "post" (Post_model q) a
                       = (Raise ConnectionError, a)).
  { intros q. unfold add_to_index.
    rewrite (bind_run get_app _ a a a) by done. rewrite Hes.
    rewrite (bind_run _ _ a [("body", JStr (Post.body q))] a) by done.
    unfold es_request. by rewrite Hdown. }
  induction objs as [|obj objs IH].
  - simpl. by rewrite (bind_raise _ _ a ConnectionError a (Hpost p)).
  - rewrite <- app_comm_cons. cbn [for_each].
    destruct obj as [|q| | |]; simpl;
      try (by rewrite (bind_run _ _ a tt a)).
    by rewrite (bind_raise _ _ a ConnectionError a (Hpost q)).
Qed.

Lemma same_db_commit_then {X} (x : X) a :
  db (exec (commit ;; mret x) a) = db a.
Proof.
  apply (preserves_bind same_db commit (λ _, mret x)).
  - apply preserves_commit; [apply _ .. | apply same_db_blind].
  - intros _. by apply preserves_ret.
Qed.

End index_view.

(** The view [index] on a valid post form.  The post is stored with the
    text, the logged-in account as author, the next clock reading as
    timestamp and an id no post has, so post ids stay unique, and this
    whatever the search engine does.  When the author is an account of
    the store the post is on the author's timeline and on the timeline
    of every account that follows the author, and it heads the author's
    timeline when every earlier post is older.  The view answers with a
    redirect to the index and the flash "Your post is now live!" when no
    engine is configured, or when the engine answers and holds a
    document of every post the session is to delete; in the latter case
    (the request having started with nothing pending) the post is in
    the index "post" under its id.  With an engine that cannot be
    reached the post is stored and the view raises the client's
    error. *)
Theorem index_post_publishes (current_user : User.t) (body : string)
    (args_page : option Z) (a : app) :
  let view := routes.index current_user (Some body) args_page in
  let p := Post.mk (next_id (Post.id <$> post (db a))) body (next_reading a)
                   (User.id current_user) in
  let live := mk_reply [("Your post is now live!", [])]
                       (redirect (url_for "main.index" [])) in
  db (exec view a) = set_post (λ t, t ++ [p]) (db a)
  ∧ (Post.id p ∉ Post.id <$> post (db a))
  ∧ (NoDup (Post.id <$> post (db a)) →
     NoDup (Post.id <$> post (db (exec view a))))
  ∧ (User.id current_user ∈ User.id <$> user (db a) →
     p ∈ following_posts current_user (db (exec view a))
     ∧ (∀ F, User.id F ∈ User.id <$> user (db a) →
             Follow.mk (User.id F) (User.id current_user) ∈ followers (db a) →
             p ∈ following_posts F (db (exec view a)))
     ∧ ((∀ q, q ∈ post (db a) → Post.timestamp q < next_reading a) →
        head (following_posts current_user (db (exec view a))) = Some p))
  ∧ (elasticsearch a = None → eval view a = Return live)
  ∧ (∀ es, elasticsearch a = Some es → es_reachable es = true →
           removals_indexed (es_docs es) (deleted (db_session a)) →
           eval view a = Return live
           ∧ (new (db_session a) = [] → dirty (db_session a) = [] →
              deleted (db_session a) = [] →
              (es_docs <$> elasticsearch (exec view a))
              = Some (<[("post", Post.id p) := [("body", JStr body)]]>
                        (es_docs es))))
  ∧ (∀ es, elasticsearch a = Some es → es_reachable es = false →
           eval view a = Raise ConnectionError).
Proof.
  intros view p live.
  set (a1 := exec time a).
  set (a2 := exec (session_add (EPost p)) a1).
  assert (Hrun : view a = (commit ;; mret live) a2).
  { unfold view, routes.index.
    rewrite (bind_run time _ a (next_reading a) a1) by done.
    rewrite (bind_run get_app _ a1 a1 a1) by done.
    by rewrite (bind_run (session_add _) _ a1 tt a2). }
  assert (Hdb : db (exec view a) = set_post (λ t, t ++ [p]) (db a)).
  { unfold exec at 1. rewrite Hrun. apply (same_db_commit_then live a2). }
  assert (Hfresh : Post.id p ∉ Post.id <$> post (db a))
    by apply next_id_fresh.
  split_and!; [done | done | | | | |].
  - intros Hnd. rewrite Hdb. simpl. rewrite fmap_app. apply NoDup_app.
    split_and!; [done | | apply NoDup_singleton].
    intros i Hi Hi'. apply list_elem_of_singleton in Hi' as ->. done.
  - intros Hcu. rewrite Hdb.
    assert (Hp : p ∈ post (set_post (λ t, t ++ [p]) (db a)))
      by (simpl; apply elem_of_app; right; left).
    split_and!.
    + apply following_posts_complete; auto.
    + intros F HF Hedge. apply following_posts_complete; auto.
    + intros Holder. apply head_newest.
      * apply StronglySorted_merge_sort; apply _.
      * apply following_posts_complete; auto.
      * intros q Hq Hne. apply following_posts_sound in Hq as [Hq _].
        simpl in Hq. apply elem_of_app in Hq as [Hq|Hq].
        -- by apply Holder.
        -- apply list_elem_of_singleton in Hq. done.
  - intros Hes. unfold eval. rewrite Hrun.
    assert (Hes2 : elasticsearch a2 = None) by done.
    destruct (commit_unconfigured a2 Hes2) as (Hret & _).
    unfold eval in Hret. unfold mbind, M_bind.
    destruct (commit a2) as [[[]|e] a3]; simpl in *; congruence.
  - intros es Hes Hup Hrm.
    assert (Hes2 : elasticsearch a2 = Some es) by done.
    destruct (commit_run a2 es Hes2 Hup Hrm)
      as (a3 & Hcommit & es0 & es3 & ? & Hes3 & _ & _ & Hdocs).
    simplify_eq.
    assert (Hview : view a = (Return live, a3))
      by (by rewrite Hrun, (bind_run _ _ a2 tt a3 Hcommit)).
    unfold eval, exec. rewrite Hview. split; [done|].
    intros Hnew Hdirty Hdeleted. simpl. rewrite Hes3. simpl. f_equal.
    rewrite Hdocs. unfold mirror_operations. simpl.
    by rewrite Hnew, Hdirty, Hdeleted.
  - intros es Hes Hdown. unfold eval. rewrite Hrun.
    assert (Hcommit : commit a2
              = (Raise ConnectionError, exec (before_commit ;; flush) a2)).
    { unfold commit.
      rewrite (bind_run before_commit _ a2 tt (exec before_commit a2))
        by done.
      rewrite (bind_run flush _ _ tt (exec (before_commit ;; flush) a2))
        by done.
      unfold after_commit.
      rewrite (bind_run get_app _ _ (exec (before_commit ;; flush) a2)
                 (exec (before_commit ;; flush) a2)) by done.
      simpl (_changes _). cbv iota.
      apply bind_raise.
      by apply (mirror_loop_unreachable (new (db_session a)) p _ es). }
    by rewrite (bind_raise _ _ a2 ConnectionError _ Hcommit).
Qed.

(** The view at work: bob posts, and alice, who follows him, finds the
    post at the head of her timeline. *)
Lemma index_post_publishes_example :
  head (following_posts alice
          (db (exec (routes.index bob (Some "news") None)
                    (example_app example_db))))
  = Some (Post.mk 4 "news" 1000 2)
  ∧ eval (routes.index bob (Some "news") None) (example_app example_db)
    = Return (mk_reply [("Your post is now live!", [])]
                       (redirect (url_for "main.index" []))).
Proof.
  destruct (index_post_publishes bob "news" None (example_app example_db))
    as (_ & _ & _ & _ & Hnone & _).
  split; [reflexivity|]. by apply Hnone.
Defined.

(** ** The views that write: private messages *)

Section message_views.
Context `{JsonCodec}.
Implicit Types (a : app) (r : User.t) (m : Message.t).

Global Instance message_timestamp_desc_total : Total message_timestamp_desc.
Proof. intros m n. unfold message_timestamp_desc. lia. Qed.
Global Instance message_timestamp_desc_trans :
  Transitive message_timestamp_desc.
Proof. intros m n o. unfold message_timestamp_desc. lia. Qed.

Lemma StronglySorted_sublist {X} (R : relation X) (l1 l2 : list X) :
  l1 `sublist_of` l2 → StronglySorted R l2 → StronglySorted R l1.
Proof.
  induction 1 as [|x l1 l2 Hs IH|x l1 l2 Hs IH]; intros Hsorted; [done| |].
  - apply StronglySorted_inv in Hsorted as [Hs2 Hall].
    constructor; [by apply IH|]. apply Forall_forall. intros y Hy.
    apply (proj1 (Forall_forall _ _) Hall).
    by apply (elem_of_sublist l1 l2).
  - apply StronglySorted_inv in Hsorted as [Hs2 _]. by apply IH.
Qed.

Lemma unread_message_count_run r a :
  unread_message_count r a
  = (Return (unread_count r (message (db a))), exec flush a).
Proof. reflexivity. Qed.

Lemma scalar_run {X} (q : query X) a :
  scalar q a = (Return (head (q (db a))), exec flush a).
Proof. reflexivity. Qed.

End message_views.

(** The view [send_message].  When no account has the recipient's name
    it answers 404 and writes nothing; with an invalid form it renders
    the form and writes nothing.  With a valid form it stores one
    message, from the logged-in account to the first account of that
    name, with the text and the next clock reading, and leaves the
    recipient exactly one "unread_message_count" notification, whose
    payload is the number of the recipient's unread messages, the new
    one included: one more than before when the recipient's last read
    time is earlier than that reading.  [unread_message_count] then
    returns the same number. *)
Theorem send_message_counts_unread `{JsonCodec} (current_user : User.t)
    (recipient : string) (a : app) :
  let found := head (filter (λ u, User.username u = recipient)
                            (user (db a))) in
  (found = None →
   ∀ form, eval (routes.send_message current_user form recipient) a
           = Return (mk_reply [] not_found)
           ∧ db (exec (routes.send_message current_user form recipient) a)
             = db a)
  ∧ (is_Some found →
     ∃ context,
       eval (routes.send_message current_user None recipient) a
       = Return (mk_reply [] (render_page "send_message.html" context))
       ∧ db (exec (routes.send_message current_user None recipient) a)
         = db a)
  ∧ (∀ r body,
       found = Some r →
       let view := routes.send_message current_user (Some body) recipient in
       let msg := Message.mk (next_id (Message.id <$> message (db a)))
                    (User.id current_user) (User.id r) body
                    (next_reading a) in
       eval view a
       = Return (mk_reply [("Your message has been sent", [])]
                   (redirect (url_for "main.user"
                                      [("username", JStr recipient)])))
       ∧ message (db (exec view a)) = message (db a) ++ [msg]
       ∧ user (db (exec view a)) = user (db a)
       ∧ (∃ n, filter (named (User.id r) "unread_message_count")
                      (notification (db (exec view a))) = [n]
               ∧ Notification.payload_json n
                 = json_dumps
                     (JInt (unread_count r (message (db a) ++ [msg]))))
       ∧ eval (unread_message_count r) (exec view a)
         = Return (unread_count r (message (db a) ++ [msg]))
       ∧ (default datetime_1900_1_1 (User.last_message_read_time r)
          < next_reading a →
          unread_count r (message (db a) ++ [msg])
          = unread_count r (message (db a)) + 1)
       ∧ db_session (exec view a) = mk_session [] [] [] None).
Proof.
  intros found. split_and!.
  - intros Hnone form. unfold eval, exec, routes.send_message.
    rewrite (bind_run _ _ a None (exec flush a))
      by (rewrite scalar_run; by fold found; rewrite Hnone).
    done.
  - intros [r Hr]. eexists. unfold eval, exec, routes.send_message.
    rewrite (bind_run _ _ a (Some r) (exec flush a))
      by (rewrite scalar_run; by fold found; rewrite Hr).
    split; reflexivity.
  - intros r body Hr view msg.
    set (a1 := exec flush a). set (a2 := exec time a1).
    set (a3 := exec (session_add (EMessage msg)) a2).
    set (a4 := exec flush a3).
    set (count := unread_count r (message (db a) ++ [msg])).
    set (a5 := exec (add_notification r "unread_message_count" (JInt count))
                    a4).
    set (a6 := with_db_session (λ _, mk_session [] [] [] None) a5).
    assert (Hrun : view a
              = (Return (mk_reply [("Your message has been sent", [])]
                           (redirect (url_for "main.user"
                                        [("username", JStr recipient)]))),
                 a6)).
    { unfold view, routes.send_message.
      rewrite (bind_run _ _ a (Some r) a1)
        by (rewrite scalar_run; by fold found; rewrite Hr).
      rewrite (bind_run time _ a1 (next_reading a) a2) by done.
      rewrite (bind_run get_app _ a2 a2 a2) by done.
      rewrite (bind_run (session_add _) _ a2 tt a3) by done.
      rewrite (bind_run _ _ a3 count a4)
        by (by rewrite unread_message_count_run).
      destruct (add_notification_run r "unread_message_count" (JInt count) a4)
        as (Hret & _).
      destruct (add_notification_session r "unread_message_count"
                  (JInt count) a4) as (Hsess & _).
      rewrite (bind_run _ _ a4 _ a5) by (by rewrite run_eta, Hret).
      rewrite (bind_run commit _ a5 tt a6); [done|].
      apply commit_plain. intros obj. fold a5 in Hsess. rewrite Hsess. simpl.
      rewrite !elem_of_cons, !elem_of_nil. intuition (by subst). }
    assert (Hdb : db a6
              = set_notification
                  (λ t, filter (λ x, ¬ named (User.id r)
                                       "unread_message_count" x) t
                        ++ [fresh_notification r "unread_message_count"
                              (JInt count) a4])
                  (db a4)).
    { destruct (add_notification_run r "unread_message_count"
                  (JInt count) a4) as (_ & Hd & _). exact Hd. }
    assert (Hmsgs : message (db a6) = message (db a) ++ [msg])
      by (by rewrite Hdb).
    unfold eval, exec. rewrite Hrun. cbn [fst snd].
    split_and!; [done | done | by rewrite Hdb | | | | done].
    + eexists. rewrite Hdb. split; [apply filter_named_fresh | done].
    + rewrite unread_message_count_run. by rewrite Hmsgs.
    + intros Hlate. subst count. unfold unread_count.
      rewrite filter_app, (filter_cons_True _ _ []) by done.
      rewrite length_app. simpl. lia.
Qed.

(** The view at work: alice writes to bob, who had read everything. *)
Lemma send_message_counts_unread_example :
  let H := example_codec in
  ∃ n, filter (named 2 "unread_message_count")
              (notification (db (exec (routes.send_message alice
                                         (Some "hello bob") "bob")
                                      inbox_app))) = [n]
       ∧ Notification.payload_json n = "1".
Proof.
  intros H.
  destruct (send_message_counts_unread alice "bob" inbox_app)
    as (_ & _ & Hsent).
  destruct (Hsent reader_bob "hello bob" eq_refl)
    as (_ & _ & _ & (n & Hn & Hpayload) & _).
  exists n. split; [exact Hn|]. rewrite Hpayload. reflexivity.
Defined.

(** The view [view_message], for a logged-in account that is a row of
    the store.  It renders the page of the messages the account
    received, newest first: the messages of the table addressed to the
    account, each once, sorted by descending timestamp, from which the
    page takes [per_page] items at offset [(page - 1) * per_page], with
    the links the paginator gives; on page 1 with no more messages than
    a page holds these are all of them.  It sets the account's last read
    time to the clock reading it took, so that [unread_message_count]
    afterwards counts only messages stamped later than that reading,
    none when no message is from the future; and it leaves the account
    exactly one "unread_message_count" notification, with payload 0.
    The messages themselves are not touched, and the changes are
    committed. *)
Theorem view_message_marks_read `{JsonCodec} (current_user : User.t)
    (args_page : option Z) (a : app) :
  User.id current_user ∈ User.id <$> user (db a) →
  let view := routes.view_message current_user args_page in
  let reader := set_last_message_read_time (Some (next_reading a))
                  current_user in
  let received := order_by message_timestamp_desc
                    (messages_received_select current_user (db a)) in
  let page := if decide (default 1 args_page < 1) then 1
              else default 1 args_page in
  let per_page := if decide (POSTS_PER_PAGE (config a) < 1) then 20
                  else POSTS_PER_PAGE (config a) in
  let shown := mk_pagination page per_page
                 (take (Z.to_nat per_page)
                       (drop (Z.to_nat ((page - 1) * per_page)) received))
                 (Z.of_nat (length received)) in
  eval view a
  = Return (mk_reply []
      (render_page "view_message.html"
         [("title", CText "View message");
          ("messages", CMessages (pagination_items shown));
          ("next_url",
           CUrl (routes.page_links "main.view_message" [] shown).1);
          ("prev_url",
           CUrl (routes.page_links "main.view_message" [] shown).2)]))
  ∧ received ≡ₚ filter (λ m, Message.recipient_id m = User.id current_user)
                       (message (db a))
  ∧ StronglySorted message_timestamp_desc received
  ∧ StronglySorted message_timestamp_desc (pagination_items shown)
  ∧ (∀ m, m ∈ pagination_items shown →
          m ∈ message (db a)
          ∧ Message.recipient_id m = User.id current_user)
  ∧ (page = 1 → (length received ≤ Z.to_nat per_page)%nat →
     pagination_items shown = received)
  ∧ eval (get_User (User.id current_user)) (exec view a)
    = Return (Some reader)
  ∧ eval (unread_message_count reader) (exec view a)
    = Return (Z.of_nat (length
        (filter (λ m, Message.recipient_id m = User.id current_user
                      ∧ next_reading a < Message.timestamp m)
                (message (db a)))))
  ∧ ((∀ m, m ∈ message (db a) →
           Message.recipient_id m = User.id current_user →
           Message.timestamp m ≤ next_reading a) →
     eval (unread_message_count reader) (exec view a) = Return 0)
  ∧ (∃ n, filter (named (User.id current_user) "unread_message_count")
                 (notification (db (exec view a))) = [n]
          ∧ Notification.payload_json n = json_dumps (JInt 0))
  ∧ message (db (exec view a)) = message (db a)
  ∧ db_session (exec view a) = mk_session [] [] [] None.
Proof.
  intros Hcu view reader received page per_page shown.
  set (a1 := exec time a).
  set (a2 := exec (session_modified (EUser reader)) a1).
  set (a3 := exec (add_notification reader "unread_message_count" (JInt 0))
                  a2).
  set (a4 := with_db_session (λ _, mk_session [] [] [] None) a3).
  set (a5 := exec flush a4).
  assert (Hdb : db a5
            = set_notification
                (λ t, filter (λ x, ¬ named (User.id reader)
                                     "unread_message_count" x) t
                      ++ [fresh_notification reader "unread_message_count"
                            (JInt 0) a2])
                (update_row (EUser reader) (db a))).
  { destruct (add_notification_run reader "unread_message_count" (JInt 0) a2)
      as (_ & Hd & _). exact Hd. }
  assert (Hmsg : message (db a4) = message (db a)).
  { change (db a4) with (db a5). by rewrite Hdb. }
  assert (Hreceived : order_by message_timestamp_desc
                        (messages_received_select reader (db a4))
                      = received).
  { unfold received, messages_received_select. by rewrite Hmsg. }
  assert (Hrun : view a
            = (Return (mk_reply []
                 (render_page "view_message.html"
                    [("title", CText "View message");
                     ("messages", CMessages (pagination_items shown));
                     ("next_url",
                      CUrl (routes.page_links "main.view_message" []
                              shown).1);
                     ("prev_url",
                      CUrl (routes.page_links "main.view_message" []
                              shown).2)])), a5)).
  { unfold view, routes.view_message.
    rewrite (bind_run time _ a (next_reading a) a1) by done.
    rewrite (bind_run (session_modified _) _ a1 tt a2) by done.
    destruct (add_notification_run reader "unread_message_count" (JInt 0) a2)
      as (Hret & _).
    destruct (add_notification_session reader "unread_message_count"
                (JInt 0) a2) as (Hsess & _).
    assert (Hadd : add_notification reader "unread_message_count" (JInt 0) a2
              = (Return (fresh_notification reader "unread_message_count"
                           (JInt 0) a2), a3))
      by (by rewrite run_eta, Hret).
    rewrite (bind_run _ _ a2 _ a3 Hadd).
    rewrite (bind_run commit _ a3 tt a4).
    2:{ apply commit_plain. intros obj. fold a3 in Hsess. rewrite Hsess.
        simpl. rewrite !elem_of_cons, !elem_of_nil. intuition (by subst). }
    rewrite (bind_run get_app _ a4 a4 a4) by done.
    rewrite (bind_run _ _ a4 shown a5).
    - by destruct (routes.page_links "main.view_message" [] shown).
    - unfold paginate.
      rewrite (bind_run (scalars _) _ a4 _ a5 eq_refl).
      unfold shown. rewrite <- Hreceived. reflexivity. }
  assert (Hsorted : StronglySorted message_timestamp_desc received)
    by (apply StronglySorted_merge_sort; apply _).
  assert (Hperm : received
            ≡ₚ filter (λ m, Message.recipient_id m = User.id current_user)
                      (message (db a)))
    by apply merge_sort_Permutation.
  assert (Hitems : pagination_items shown `sublist_of` received)
    by (simpl; etransitivity; [apply sublist_take | apply sublist_drop]).
  assert (Hcount : eval (unread_message_count reader) a5
            = Return (Z.of_nat (length
                (filter (λ m, Message.recipient_id m = User.id current_user
                              ∧ next_reading a < Message.timestamp m)
                        (message (db a)))))).
  { unfold eval. rewrite unread_message_count_run. cbn [fst].
    by rewrite Hdb. }
  unfold eval, exec in *. rewrite Hrun. cbn [fst snd].
  split_and!.
  - done.
  - done.
  - done.
  - by apply (StronglySorted_sublist _ _ received Hitems).
  - intros m Hm. apply (elem_of_sublist _ _ _ Hm) in Hitems.
    rewrite Hperm in Hitems.
    apply list_elem_of_filter in Hitems as [Hto Hin]. by split.
  - intros Hpage Hfits. simpl. rewrite Hpage. simpl.
    by apply take_ge.
  - rewrite get_User_run. cbn [fst]. f_equal. rewrite Hdb. simpl.
    apply list_elem_of_fmap in Hcu as (row & Hid & Hrow).
    apply head_filter_unique.
    + apply list_elem_of_fmap. exists row. by rewrite decide_True.
    + done.
    + intros y Hy Hyid. apply list_elem_of_fmap in Hy as (x & -> & Hx).
      case_decide; [done|]. congruence.
  - exact Hcount.
  - intros Hpast. rewrite Hcount, length_filter_none; [done|].
    intros m Hm [Hto Hlate].
    specialize (Hpast m Hm Hto). lia.
  - eexists. rewrite Hdb. split; [apply (filter_named_fresh reader) | done].
  - by rewrite Hdb.
  - done.
Qed.

(** The view at work: bob opens his inbox at clock reading 1000 and
    finds alice's message. *)
Lemma view_message_marks_read_example :
  let H := example_codec in
  User.id reader_bob ∈ User.id <$> user (db inbox_app)
  ∧ eval (routes.view_message reader_bob None) inbox_app
    = Return (mk_reply []
        (render_page "view_message.html"
           [("title", CText "View message");
            ("messages", CMessages [Message.mk 1 1 2 "hi" 800]);
            ("next_url", CUrl None);
            ("prev_url", CUrl None)]))
  ∧ eval (unread_message_count
            (set_last_message_read_time (Some 1000) reader_bob))
         (exec (routes.view_message reader_bob None) inbox_app)
    = Return 0.
Proof.
  intros H.
  assert (H1 : User.id reader_bob ∈ User.id <$> user (db inbox_app))
    by by_computation.
  destruct (view_message_marks_read reader_bob None inbox_app H1)
    as (Hview & _ & _ & _ & _ & _ & _ & _ & Hzero & _).
  split_and!; [exact H1 | rewrite Hview; reflexivity |].
  apply Hzero. intros m Hm _. simpl in Hm.
  apply list_elem_of_singleton in Hm as ->. by vm_compute.
Defined.

(** ** The views that write: [edit_profile] *)

Section profile_view.
Implicit Types (a : app) (u v : User.t).

Lemma validate_username_run (original data : string) a :
  EditProfileForm.validate_username original data a
  = if decide (data ≠ original) then
      (Return
         (match head (filter (λ u, User.username u = data) (user (db a)))
          with
          | Some _ =>
              Some
           "That username already exists! Please use a different username."
          | None => None
          end),
       exec flush a)
    else (Return None, a).
Proof.
  unfold EditProfileForm.validate_username. case_decide; [|done].
  rewrite (bind_run _ _ a
             (head (filter (λ u, User.username u = data) (user (db a))))
             (exec flush a)) by done.
  by destruct (head _).
Qed.

(** Saving the profile from a state with nothing searchable pending. *)
Lemma edit_profile_save (u' : User.t) (saved : reply) a a0 :
  db a0 = db a →
  (session_modified (EUser u') ;; commit ;; mret saved) a0
  = ((commit ;; mret saved) (exec (session_modified (EUser u')) a0))
  ∧ db (exec (session_modified (EUser u') ;; commit ;; mret saved) a0)
    = update_row (EUser u') (db a)
  ∧ (new (db_session a0) = [] → dirty (db_session a0) = [] →
     deleted (db_session a0) = [] →
     eval (session_modified (EUser u') ;; commit ;; mret saved) a0
     = Return saved
     ∧ db_session (exec (session_modified (EUser u') ;; commit ;;
                         mret saved) a0)
       = mk_session [] [] [] None).
Proof.
  intros Ha0.
  assert (Hstep : (session_modified (EUser u') ;; commit ;; mret saved) a0
            = (commit ;; mret saved) (exec (session_modified (EUser u')) a0))
    by (by rewrite (bind_run (session_modified _) _ a0 tt
                      (exec (session_modified (EUser u')) a0))).
  split_and!; [done | |].
  - unfold exec at 1. rewrite Hstep.
    etransitivity; [apply same_db_commit_then|]. simpl. by rewrite Ha0.
  - intros Hnew Hdirty Hdeleted. unfold eval, exec. rewrite Hstep.
    assert (Hplain : ∀ obj,
              obj ∈ new (db_session (exec (session_modified (EUser u')) a0))
                    ++ dirty (db_session
                                (exec (session_modified (EUser u')) a0))
                    ++ deleted (db_session
                                  (exec (session_modified (EUser u')) a0)) →
              as_SearchableMixin obj = None).
    { intros obj. simpl. rewrite Hnew, Hdirty, Hdeleted. simpl.
      rewrite !elem_of_cons, !elem_of_nil. intuition (by subst). }
    by rewrite (bind_run commit _ _ tt _ (commit_plain _ Hplain)).
Qed.

(** What [edit_profile] does: it renders the form and writes nothing, or
    it rewrites the row of the logged-in account with a name that no
    other row has. *)
Lemma edit_profile_run (current_user : User.t) (method : string)
    (username about_me : option string) (other_validators : bool) a :
  current_user ∈ user (db a) →
  NoDup (User.username <$> user (db a)) →
  let view := routes.edit_profile current_user method username about_me
                                  other_validators in
  let rendered :=
    mk_reply []
      (render_page "edit_profile.html"
         [("title", CText "Edit profile");
          ("form", CForm "EditProfileForm"
             (if decide (method = "GET")
              then [("username", Some (User.username current_user));
                    ("about_me", User.about_me current_user)]
              else []))]) in
  (db (exec view a) = db a
   ∧ eval view a = Return rendered
   ∧ (method ∉ ["POST"; "PUT"; "PATCH"; "DELETE"]
      ∨ username = None ∨ other_validators = false
      ∨ ∃ data v, username = Some data ∧ v ∈ user (db a)
                  ∧ User.username v = data ∧ v ≠ current_user))
  ∨ (∃ data,
       username = Some data
       ∧ method ∈ ["POST"; "PUT"; "PATCH"; "DELETE"]
       ∧ other_validators = true
       ∧ (∀ v, v ∈ user (db a) → User.username v = data → v = current_user)
       ∧ db (exec view a)
         = update_row
             (EUser (set_about_me about_me (set_username data current_user)))
             (db a)
       ∧ (new (db_session a) = [] → dirty (db_session a) = [] →
          deleted (db_session a) = [] →
          eval view a
          = Return (mk_reply [("Your changes have been saved", [])]
                             (redirect (url_for "main.edit_profile" [])))
          ∧ db_session (exec view a) = mk_session [] [] [] None)).
Proof.
  intros Hcu Hnames view rendered.
  unfold view, eval, exec, routes.edit_profile.
  destruct (bool_decide_reflect
              (method ∈ ["POST"; "PUT"; "PATCH"; "DELETE"])) as [Hsub|Hsub];
    [|left; rewrite (bind_run _ _ a false a) by done; split_and!; auto].
  destruct username as [data|];
    [|left; rewrite (bind_run _ _ a false a) by done; split_and!; auto].
  assert (Hv := validate_username_run (User.username current_user) data a).
  assert (Hinner : ∀ error a0,
            EditProfileForm.validate_username (User.username current_user)
              data a = (Return error, a0) →
            (error ← EditProfileForm.validate_username
                       (User.username current_user) data;
             mret (other_validators && bool_decide (error = None))) a
            = (Return (other_validators && bool_decide (error = None)), a0))
    by (intros error a0 Hrun; by rewrite (bind_run _ _ a error a0 Hrun)).
  destruct (decide (data ≠ User.username current_user)) as [Hnew|Hsame].
  - destruct (head (filter (λ u, User.username u = data) (user (db a))))
      as [taken|] eqn:Htaken.
    + left. rewrite (bind_run _ _ a _ _ (Hinner _ _ Hv)).
      rewrite bool_decide_eq_false_2, andb_false_r by done.
      split_and!; [done | done |].
      do 3 right. exists data, taken.
      apply head_Some_elem_of, list_elem_of_filter in Htaken as [? ?].
      split_and!; try done. intros ->. done.
    + rewrite (bind_run _ _ a _ _ (Hinner _ _ Hv)).
      rewrite bool_decide_eq_true_2, andb_true_r by done.
      destruct other_validators; [|left; split_and!; auto].
      right. exists data.
      destruct (edit_profile_save
                  (set_about_me about_me (set_username data current_user))
                  (mk_reply [("Your changes have been saved", [])]
                     (redirect (url_for "main.edit_profile" [])))
                  a (exec flush a) eq_refl) as (_ & Hdb & Hret).
      split_and!; [done | done | done | | exact Hdb |].
      * intros v Hv' Hname. exfalso.
        apply head_None in Htaken.
        assert (Hin : v ∈ filter (λ u, User.username u = data)
                                 (user (db a)))
          by (by apply list_elem_of_filter).
        rewrite Htaken in Hin. by apply elem_of_nil in Hin.
      * intros _ _ _. by apply Hret.
  - rewrite (bind_run _ _ a _ _ (Hinner _ _ Hv)).
    rewrite bool_decide_eq_true_2, andb_true_r by done.
    apply dec_stable in Hsame.
    destruct other_validators; [|left; split_and!; auto].
    right. exists data.
    destruct (edit_profile_save
                (set_about_me about_me (set_username data current_user))
                (mk_reply [("Your changes have been saved", [])]
                   (redirect (url_for "main.edit_profile" [])))
                a a eq_refl) as (_ & Hdb & Hret).
    split_and!; [done | done | done | | exact Hdb | exact Hret].
    intros v Hv' Hname.
    apply (NoDup_fmap_inj_on User.username (user (db a))); try done.
    congruence.
Qed.

Lemma usernames_after_update (users : list User.t) u u' :
  NoDup (User.id <$> users) → NoDup (User.username <$> users) →
  u ∈ users → User.id u' = User.id u →
  (∀ v, v ∈ users → User.username v = User.username u' → v = u) →
  NoDup (User.username
           <$> ((λ r, if decide (User.id r = User.id u') then u' else r)
                  <$> users)).
Proof.
  intros Hids Hnames Hu Hid Hfree.
  rewrite <- list_fmap_compose. apply NoDup_fmap_2_strong.
  - intros x y Hx Hy. simpl.
    destruct (decide (User.id x = User.id u')) as [Hx'|Hx'],
             (decide (User.id y = User.id u')) as [Hy'|Hy'].
    + intros _. apply (NoDup_fmap_inj_on User.id users); congruence.
    + intros Heq. symmetry in Heq. apply Hfree in Heq; [|done]. congruence.
    + intros Heq. apply Hfree in Heq; [|done]. congruence.
    + by apply (NoDup_fmap_inj_on User.username users).
  - by apply (NoDup_fmap_1 User.id).
Qed.

End profile_view.

(** The view [edit_profile] keeps user names unique.  For a logged-in
    account that is a row of a store whose user ids and user names are
    unique, whatever the request: afterwards the user names are still
    unique, the ids are the same, and every other account's row is as it
    was.  A submitted name that another account has is refused: the
    store stays as it was and the form is rendered again.  A POST whose
    name is free, or is the account's own, and that the other validators
    accept (the request having started with nothing pending) saves the
    name and the text, commits, so that nothing is left pending in the
    session, and redirects.  A GET writes nothing and
    renders the form filled in with the account's current name and
    text. *)
Theorem edit_profile_keeps_usernames_unique (current_user : User.t)
    (method : string) (username about_me : option string)
    (other_validators : bool) (a : app) :
  current_user ∈ user (db a) →
  NoDup (User.id <$> user (db a)) →
  NoDup (User.username <$> user (db a)) →
  let view := routes.edit_profile current_user method username about_me
                                  other_validators in
  NoDup (User.username <$> user (db (exec view a)))
  ∧ User.id <$> user (db (exec view a)) = User.id <$> user (db a)
  ∧ (∀ v, v ∈ user (db a) → User.id v ≠ User.id current_user →
          v ∈ user (db (exec view a)))
  ∧ (∀ data v, username = Some data → v ∈ user (db a) →
               User.username v = data → v ≠ current_user →
               db (exec view a) = db a
               ∧ ∃ context,
                   eval view a
                   = Return (mk_reply []
                               (render_page "edit_profile.html" context)))
  ∧ (∀ data, method = "POST" → username = Some data →
             other_validators = true →
             (∀ v, v ∈ user (db a) → User.username v = data →
                   v = current_user) →
             new (db_session a) = [] → dirty (db_session a) = [] →
             deleted (db_session a) = [] →
             eval view a
             = Return (mk_reply [("Your changes have been saved", [])]
                                (redirect (url_for "main.edit_profile" [])))
             ∧ db_session (exec view a) = mk_session [] [] [] None
             ∧ eval (get_User (User.id current_user)) (exec view a)
               = Return (Some (set_about_me about_me
                                 (set_username data current_user))))
  ∧ (method = "GET" →
     eval view a
     = Return (mk_reply []
         (render_page "edit_profile.html"
            [("title", CText "Edit profile");
             ("form", CForm "EditProfileForm"
                [("username", Some (User.username current_user));
                 ("about_me", User.about_me current_user)])]))
     ∧ db (exec view a) = db a).
Proof.
  intros Hcu Hids Hnames view.
  destruct (edit_profile_run current_user method username about_me
              other_validators a Hcu Hnames)
    as [(Hdb & Hret & Hwhy)|(data & Hdata & Hsub & Hother & Hfree & Hdb
                             & Hret)];
    fold view in Hdb, Hret.
  - (* the form is rendered, nothing was written *)
    rewrite Hdb. split_and!; [done | done | done | | |].
    + intros data v Hdata Hv Hname Hne. split; [done|]. by eexists.
    + intros data -> Hdata Hother Hfree _ _ _. exfalso.
      destruct Hwhy as [Hno|[Hno|[Hno|(data' & v & ? & Hv & Hname & Hne)]]].
      * apply Hno. left.
      * congruence.
      * congruence.
      * simplify_eq. by apply Hne, Hfree.
    + intros ->. split; [|done]. by rewrite Hret.
  - (* the row of the logged-in account was rewritten *)
    set (u' := set_about_me about_me (set_username data current_user)) in *.
    assert (Husers : user (db (exec view a))
              = (λ r, if decide (User.id r = User.id u') then u' else r)
                  <$> user (db a)) by (by rewrite Hdb).
    rewrite Husers. split_and!.
    + by apply (usernames_after_update _ current_user).
    + rewrite <- list_fmap_compose. apply list_fmap_ext.
      intros i r _. simpl. by case_decide.
    + intros v Hv Hne. apply list_elem_of_fmap. exists v.
      by rewrite decide_False.
    + intros data' v Hdata' Hv Hname Hne. exfalso. simplify_eq.
      by apply Hne, Hfree.
    + intros data' _ Hdata' _ _ Hnew Hdirty Hdeleted. simplify_eq.
      destruct (Hret Hnew Hdirty Hdeleted) as [Hsaved Hsession].
      split_and!; [done | done |].
      unfold eval. rewrite get_User_run. cbn [fst]. f_equal.
      rewrite Husers. apply head_filter_unique.
      * apply list_elem_of_fmap. exists current_user.
        by rewrite decide_True.
      * done.
      * intros y Hy Hyid. apply list_elem_of_fmap in Hy as (x & -> & Hx).
        case_decide; [done|]. done.
    + intros ->. exfalso. revert Hsub.
      rewrite !elem_of_cons, elem_of_nil. intros [?|[?|[?|[?|[]]]]]; done.
Qed.

(** The view at work: carol may not take bob's name, and may take a
    free one, which is committed. *)
Lemma edit_profile_keeps_usernames_unique_example :
  db (exec (routes.edit_profile carol "POST" (Some "bob") None true)
           (example_app example_db)) = example_db
  ∧ User.username
      <$> user (db (exec (routes.edit_profile carol "POST" (Some "carola")
                            (Some "hello") true)
                         (example_app example_db)))
    = ["alice"; "bob"; "carola"]
  ∧ NoDup (User.username
             <$> user (db (exec (routes.edit_profile carol "POST"
                                   (Some "carola") (Some "hello") true)
                                (example_app example_db))))
  ∧ db_session (exec (routes.edit_profile carol "POST" (Some "carola")
                        (Some "hello") true)
                     (example_app example_db))
    = mk_session [] [] [] None.
Proof.
  assert (H1 : carol ∈ user (db (example_app example_db)))
    by by_computation.
  assert (H2 : NoDup (User.id <$> user (db (example_app example_db))))
    by by_computation.
  assert (H3 : NoDup (User.username <$> user (db (example_app example_db))))
    by by_computation.
  split_and!.
  - destruct (edit_profile_keeps_usernames_unique carol "POST" (Some "bob")
                None true (example_app example_db) H1 H2 H3)
      as (_ & _ & _ & Htaken & _).
    apply (Htaken "bob" bob); [done | by_computation | done | discriminate].
  - reflexivity.
  - exact (proj1 (edit_profile_keeps_usernames_unique carol "POST"
                    (Some "carola") (Some "hello") true
                    (example_app example_db) H1 H2 H3)).
  - destruct (edit_profile_keeps_usernames_unique carol "POST"
                (Some "carola") (Some "hello") true
                (example_app example_db) H1 H2 H3)
      as (_ & _ & _ & _ & Hsave & _).
    destruct (Hsave "carola" eq_refl eq_refl eq_refl) as (_ & Hsession & _);
      [| done | done | done | exact Hsession].
    intros v Hv Hname. simpl in Hv.
    rewrite !elem_of_cons, elem_of_nil in Hv.
    destruct Hv as [->|[->|[->|[]]]]; done.
Defined.

(** ** Tokens on the edges *)

(** A row that holds a non-empty token and no expiry, which the nullable
    columns allow, is not taken for an account without a token:
    [get_token] raises [AttributeError] on it, and neither draws a token
    nor writes; [check_token] raises [AttributeError] for that token
    instead of refusing it. *)
Theorem token_without_expiry_raises (u : User.t) (tok : string)
    (expires_in : Z) (a : app) :
  User.token u = Some tok → tok ≠ "" → User.token_expiration u = None →
  eval (get_token u expires_in) a = Raise AttributeError
  ∧ db (exec (get_token u expires_in) a) = db a
  ∧ tokens_drawn (exec (get_token u expires_in) a) = tokens_drawn a
  ∧ (u ∈ user (db a) → token_unique (user (db a)) →
     eval (check_token tok) a = Raise AttributeError
     ∧ db (exec (check_token tok) a) = db a).
Proof.
  intros Htok Hne Hexp. split_and!.
  - unfold eval, get_token.
    rewrite (bind_run time _ a (next_reading a) (exec time a)) by done.
    by rewrite Htok, decide_False, Hexp by done.
  - unfold exec, get_token.
    rewrite (bind_run time _ a (next_reading a) (exec time a)) by done.
    by rewrite Htok, decide_False, Hexp by done.
  - unfold exec, get_token.
    rewrite (bind_run time _ a (next_reading a) (exec time a)) by done.
    by rewrite Htok, decide_False, Hexp by done.
  - intros Hu Huniq. unfold eval, exec.
    rewrite (check_token_run tok u a) by done. by rewrite Hexp.
Qed.

(** The edge at work: erin's row has a token and no expiry. *)
Lemma token_without_expiry_raises_example :
  eval (get_token erin 3600) expiryless_app = Raise AttributeError
  ∧ eval (check_token "c0ffee00c0ffee00c0ffee00c0ffee00") expiryless_app
    = Raise AttributeError.
Proof.
  assert (H1 : User.token erin = Some "c0ffee00c0ffee00c0ffee00c0ffee00")
    by reflexivity.
  assert (H2 : "c0ffee00c0ffee00c0ffee00c0ffee00" ≠ "") by discriminate.
  assert (H3 : User.token_expiration erin = None) by reflexivity.
  destruct (token_without_expiry_raises erin _ 3600 expiryless_app H1 H2 H3)
    as (Hget & _ & _ & Hcheck).
  split; [exact Hget|].
  apply Hcheck.
  - by_computation.
  - intros u v tok Hu Hv Hut Hvt. simpl in Hu, Hv.
    rewrite !elem_of_cons, elem_of_nil in Hu, Hv.
    destruct Hu as [->|[->|[->|[->|[]]]]]; try discriminate Hut;
    destruct Hv as [->|[->|[->|[->|[]]]]]; try discriminate Hvt; done.
Defined.

Section reset_tokens.
Implicit Types (a : app) (token : jwt_token).

Lemma jwt_decode_payload alg k payload key algorithms a d a' :
  jwt_decode (jwt_signed alg k payload) key algorithms a = (Return d, a') →
  d = JDict payload ∧ db a' = db a.
Proof.
  unfold jwt_decode.
  destruct (decide (alg ∈ algorithms)); [|done].
  destruct (decide (k = key)); [|done].
  destruct (dict_get "exp" payload) as [[]|]; try done.
  - rewrite (bind_run time _ a (next_reading a) (exec time a)) by done.
    case_decide; [done|]. by intros [= <- <-].
  - by intros [= <- <-].
Qed.

Lemma jwt_decode_db token key algorithms a :
  db (exec (jwt_decode token key algorithms) a) = db a.
Proof.
  unfold exec, jwt_decode. destruct token as [|alg k payload]; [done|].
  destruct (decide (alg ∈ algorithms)); [|done].
  destruct (decide (k = key)); [|done].
  destruct (dict_get "exp" payload) as [[]|]; try done.
  rewrite (bind_run time _ a (next_reading a) (exec time a)) by done.
  by case_decide.
Qed.

Lemma verify_without_subject alg k payload a :
  dict_get "reset_password" payload = None →
  eval (verify_reset_password_token (jwt_signed alg k payload)) a
  = Return None.
Proof.
  intros Hsub. unfold eval.
  destruct (jwt_decode (jwt_signed alg k payload) (SECRET_KEY (config a))
              ["HS256"] a) as [[d|e] a'] eqn:Hdec.
  - destruct (jwt_decode_payload _ _ _ _ _ _ _ _ Hdec) as [-> _].
    unfold verify_reset_password_token.
    rewrite (bind_run get_app _ a a a) by done.
    rewrite (bind_run _ _ a None a'); [done|].
    unfold try_except.
    rewrite (bind_run _ _ a (JDict payload) a' Hdec).
    simpl. by rewrite Hsub.
  - by rewrite (verify_invalid _ a e a' Hdec).
Qed.

Lemma verify_db token a :
  db (exec (verify_reset_password_token token) a) = db a.
Proof.
  unfold exec, verify_reset_password_token.
  rewrite (bind_run get_app _ a a a) by done.
  assert (Hdb := jwt_decode_db token (SECRET_KEY (config a)) ["HS256"] a).
  unfold exec in Hdb.
  destruct (jwt_decode token (SECRET_KEY (config a)) ["HS256"] a)
    as [[d|e] a'] eqn:Hdec; simpl in Hdb.
  - destruct (json_getitem d "reset_password") as [id|] eqn:Hid.
    + rewrite (bind_run _ _ a (Some id) a').
      * destruct id; try done; unfold get_User_by;
          rewrite (bind_run get_app _ a' a' a') by done;
          by destruct (get_by_identity a' _ (db a')).
      * apply try_except_return.
        rewrite (bind_run _ _ a d a' Hdec). by rewrite Hid.
    + rewrite (bind_run _ _ a None a'); [done|].
      unfold try_except. rewrite (bind_run _ _ a d a' Hdec). by rewrite Hid.
  - rewrite (bind_run _ _ a None a'); [done|].
    unfold try_except. by rewrite (bind_raise _ _ a e a' Hdec).
Qed.

End reset_tokens.

(** [verify_reset_password_token] beyond the tokens it issued.  A signed
    token whose payload has no [reset_password] entry, whatever its key,
    algorithm and expiry, verifies to [None]: the [KeyError] is caught
    like a decoding error.  A token issued for an account whose row is no
    longer in the store, still unexpired and under the same key, verifies
    to [None] as well.  And verifying never writes to the store. *)
Theorem reset_token_without_account (a : app) :
  (∀ alg key payload,
     dict_get "reset_password" payload = None →
     eval (verify_reset_password_token (jwt_signed alg key payload)) a
     = Return None)
  ∧ (∀ a0 u expires_in,
       SECRET_KEY (config a0) = SECRET_KEY (config a) →
       next_reading a
       < whole_seconds (next_reading a0 + seconds expires_in) →
       User.id u ∉ User.id <$> user (db a) →
       ∃ token,
         eval (get_reset_password_token u expires_in) a0 = Return token
         ∧ eval (verify_reset_password_token token) a = Return None)
  ∧ (∀ token, db (exec (verify_reset_password_token token) a) = db a).
Proof.
  split_and!.
  - intros alg key payload. apply verify_without_subject.
  - intros a0 u expires_in Hkey Hnow Hgone. eexists. split; [done|].
    change (SECRET_KEY (config (with_clock_reads _ a0)))
      with (SECRET_KEY (config a0)).
    unfold eval, jwt_encode. rewrite Hkey.
    rewrite (verify_valid _ (next_reading a0 + seconds expires_in)
               (JInt (User.id u))) by done.
    cbn [get_User_by]. rewrite get_User_run. simpl. do 2 f_equal.
    apply head_None, elem_of_nil_inv. intros v Hv.
    apply list_elem_of_filter in Hv as [Hid Hv]. apply Hgone.
    rewrite <- Hid. by apply list_elem_of_fmap_2.
  - intros token. apply verify_db.
Qed.

(** ** A new notification in the feed *)

Section feed_items.
Context `{JsonCodec}.
Implicit Types (A : User.t) (a : app) (x : Notification.t).

Lemma render_notifications_items rows a :
  Forall (λ x, is_Some (json_loads (Notification.payload_json x))) rows →
  ∃ items, render_notifications rows a = (Return items, a)
           ∧ Forall2 renders items rows.
Proof.
  induction 1 as [|x rows [v Hv] _ (items & Hrun & Hitems)].
  - exists []. by split.
  - exists (mk_item (Notification.name x) v (Notification.timestamp x)
            :: items).
    split.
    + cbn [render_notifications]. unfold get_data, mbind, M_bind.
      rewrite Hv. simpl. by rewrite Hrun.
    + by constructor.
Qed.

Lemma Forall2_elem_of_left {X Y} (P : X → Y → Prop) l k (v : X) :
  Forall2 P l k → v ∈ l → ∃ w, w ∈ k ∧ P v w.
Proof.
  induction 1 as [|v' w' l k HP _ IH]; [by intros ?%elem_of_nil|].
  intros [->|Hv]%elem_of_cons.
  - exists w'. split; [left | done].
  - destruct (IH Hv) as (w & Hw & HPw). exists w. split; [by right | done].
Qed.

Lemma Forall2_elem_of_right {X Y} (P : X → Y → Prop) l k (w : Y) :
  Forall2 P l k → w ∈ k → ∃ v, v ∈ l ∧ P v w.
Proof.
  induction 1 as [|v' w' l k HP _ IH]; [by intros ?%elem_of_nil|].
  intros [->|Hw]%elem_of_cons.
  - exists v'. split; [left | done].
  - destruct (IH Hw) as (v & Hv & HPv). exists v. split; [by right | done].
Qed.

End feed_items.

(** [add_notification] and the feed together.  A writes a notification
    [name] with a payload the codec round-trips, at clock reading [now],
    into a table of decodable payloads.  The [notifications] view for A
    then answers; its answer holds the item ([name], payload, [now])
    when [since] is earlier than [now]; an item called [name] in the
    answer is that item, so the notification it replaced is gone from
    the feed and a poll at or after [now] shows none; and every other
    item renders a row the table already held for A, later than
    [since]. *)
Theorem notification_reaches_feed `{JsonCodec} (A : User.t) (name : string)
    (data : json) (since : Z) (a : app) :
  json_loads (json_dumps data) = Some data →
  Forall (λ x, is_Some (json_loads (Notification.payload_json x)))
         (notification (db a)) →
  let written := exec (add_notification A name data) a in
  let item := mk_item name data (next_reading a) in
  ∃ items,
    eval (notifications A (Some since)) written = Return items
    ∧ (since < next_reading a → item ∈ items)
    ∧ (∀ i, i ∈ items → item_name i = name →
            i = item ∧ since < next_reading a)
    ∧ (∀ i, i ∈ items → item_name i ≠ name →
            ∃ x, x ∈ notification (db a)
                 ∧ Notification.user_id x = User.id A
                 ∧ since < Notification.timestamp x
                 ∧ renders i x).
Proof.
  intros Hcodec Hjson written item.
  set (fresh := fresh_notification A name data a).
  assert (Hdb : notification (db written)
                = filter (λ x, ¬ named (User.id A) name x)
                         (notification (db a)) ++ [fresh]).
  { unfold written.
    by destruct (add_notification_run A name data a) as (_ & -> & _). }
  set (rows := notifications_query A since (db written)).
  assert (Hin : ∀ x, x ∈ rows ↔
                     (x = fresh
                      ∨ (x ∈ notification (db a)
                         ∧ ¬ named (User.id A) name x))
                     ∧ Notification.user_id x = User.id A
                     ∧ since < Notification.timestamp x).
  { intros x. unfold rows.
    rewrite (notifications_query_perm A since (db written)),
      list_elem_of_filter, Hdb, elem_of_app, list_elem_of_filter,
      list_elem_of_singleton.
    unfold later_than. tauto. }
  assert (Hrows : Forall (λ x, is_Some (json_loads
                                 (Notification.payload_json x))) rows).
  { apply Forall_forall. intros x Hx. apply Hin in Hx as [[->|[Hx _]] _].
    - simpl. by rewrite Hcodec.
    - by apply (proj1 (Forall_forall _ _) Hjson). }
  destruct (render_notifications_items rows
              (exec (scalars (notifications_query A since)) written) Hrows)
    as (items & Hrun & Hitems).
  exists items. split_and!.
  - unfold eval, notifications. simpl.
    by rewrite (bind_run _ _ written rows
                  (exec (scalars (notifications_query A since)) written)),
      Hrun.
  - intros Hsince.
    destruct (Forall2_elem_of_right renders items rows fresh Hitems)
      as (i & Hi & Hn & Ht & Hd).
    { apply Hin. split_and!; [by left | done | done]. }
    replace item with i; [done|].
    simpl in Hd. rewrite Hcodec in Hd. injection Hd as Hd.
    destruct i as [n d t]. simpl in *. unfold item. by subst.
  - intros i Hi Hname.
    destruct (Forall2_elem_of_left renders items rows i Hitems Hi)
      as (x & Hx & Hn & Ht & Hd).
    apply Hin in Hx as ([->|[_ Hx]] & Hu & Hs).
    + split; [|done].
      simpl in Hd. rewrite Hcodec in Hd. injection Hd as Hd.
      destruct i as [n d t]. simpl in *. unfold item. by subst.
    + destruct Hx. split; [done|]. by rewrite <- Hn.
  - intros i Hi Hname.
    destruct (Forall2_elem_of_left renders items rows i Hitems Hi)
      as (x & Hx & Hn & Ht & Hd).
    apply Hin in Hx as ([->|[Hx _]] & Hu & Hs).
    + by destruct Hname.
    + exists x. by split_and!.
Qed.

(** The feed at work: bob's new count is what the next poll shows. *)
Lemma notification_reaches_feed_example :
  let H := example_codec in
  ∃ items,
    eval (notifications bob (Some 1000))
         (exec (add_notification bob "unread_message_count" (JInt 3))
               feed_app)
    = Return items
    ∧ mk_item "unread_message_count" (JInt 3) 1003 ∈ items.
Proof.
  intros H.
  assert (H1 : json_loads (json_dumps (JInt 3)) = Some (JInt 3))
    by reflexivity.
  assert (H2 : Forall (λ x, is_Some (json_loads (Notification.payload_json x)))
                      (notification (db feed_app))) by by_computation.
  destruct (notification_reaches_feed bob "unread_message_count" (JInt 3)
              1000 feed_app H1 H2) as (items & Hrun & Hnew & _).
  exists items. split; [exact Hrun|].
  apply Hnew. by vm_compute.
Defined.

(** ** The export without a task row *)

Section orphaned.
Context `{JsonCodec}.
Implicit Types (a : app) (j : rq_job).

Lemma _set_task_progress_orphaned (progress : Z) a j :
  current_job a = Some j → orphaned_job j a →
  _set_task_progress progress a
  = (Raise AttributeError,
     with_current_job (Some (mk_job (job_id j) (Some progress))) a).
Proof.
  intros Hjob Horphan. unfold _set_task_progress.
  rewrite (bind_run get_app _ a a a) by reflexivity. rewrite Hjob.
  set (a1 := with_current_job (Some (mk_job (job_id j) (Some progress))) a).
  rewrite (bind_run _ _ a tt a1) by reflexivity.
  destruct Horphan as [Htask|(t & Htask & Howner)].
  - by rewrite (bind_run _ _ a1 None a1)
      by (unfold get_Task, mbind, M_bind, mret, M_ret; simpl;
          by rewrite Htask).
  - rewrite (bind_run _ _ a1 (Some t) a1)
      by (unfold get_Task, mbind, M_bind, mret, M_ret; simpl;
          by rewrite Htask).
    by rewrite (bind_run _ _ a1 None a1)
      by (unfold get_User, mbind, M_bind, mret, M_ret; simpl;
          by rewrite Howner).
Qed.

End orphaned.

(** [export_posts] in a worker whose job has no task row in the store,
    or whose task has no owner.  The first progress report raises
    [AttributeError]; the handler's report raises it again, before
    anything is logged; and so does the report of the [finally] block.
    The call therefore ends in [AttributeError]: nothing is logged, no
    mail is sent and the store is as it was; only the job's own progress
    entry stands, at 100. *)
Theorem export_posts_orphaned_job `{JsonCodec} (user_id : Z) (a : app)
    (j : rq_job) :
  current_job a = Some j →
  orphaned_job j a →
  eval (export_posts user_id) a = Raise AttributeError
  ∧ error_log (exec (export_posts user_id) a) = error_log a
  ∧ outbox (exec (export_posts user_id) a) = outbox a
  ∧ db (exec (export_posts user_id) a) = db a
  ∧ current_job (exec (export_posts user_id) a)
    = Some (mk_job (job_id j) (Some 100)).
Proof.
  intros Hjob Horphan.
  set (a1 := with_current_job (Some (mk_job (job_id j) (Some 0))) a).
  set (a2 := with_current_job (Some (mk_job (job_id j) (Some 100))) a).
  assert (Hbody : export_posts_body user_id a = (Raise AttributeError, a1)).
  { unfold export_posts_body.
    rewrite (bind_run _ _ a _ a (get_User_run user_id a)).
    apply bind_raise. by apply _set_task_progress_orphaned. }
  assert (Hreport : ∀ p, _set_task_progress 100
                           (with_current_job
                              (Some (mk_job (job_id j) (Some p))) a)
                         = (Raise AttributeError, a2)).
  { intros p.
    by rewrite (_set_task_progress_orphaned 100 _
                  (mk_job (job_id j) (Some p))). }
  assert (Hhandler : (_set_task_progress 100 ;;
                      logger_error "Unhandled exception" AttributeError) a1
                     = (Raise AttributeError, a2)).
  { apply bind_raise. apply (Hreport 0). }
  assert (Hfinally : _set_task_progress 100 a2 = (Raise AttributeError, a2))
    by apply (Hreport 100).
  assert (Hrun : export_posts user_id a = (Raise AttributeError, a2)).
  { unfold export_posts, try_finally, try_except. rewrite Hbody.
    change (is_Exception AttributeError) with true. cbv iota.
    by rewrite Hhandler, Hfinally. }
  unfold eval, exec. by rewrite Hrun.
Qed.

(** The export at work on a job without a task row. *)
Lemma export_posts_orphaned_job_example :
  let H := example_codec in
  eval (export_posts 2) orphan_worker_app = Raise AttributeError
  ∧ error_log (exec (export_posts 2) orphan_worker_app) = []
  ∧ db (exec (export_posts 2) orphan_worker_app) = example_db.
Proof.
  intros H.
  assert (H1 : current_job orphan_worker_app = Some (mk_job "job-7" None))
    by reflexivity.
  assert (H2 : orphaned_job (mk_job "job-7" None) orphan_worker_app)
    by (by left).
  destruct (export_posts_orphaned_job 2 orphan_worker_app _ H1 H2)
    as (Hret & Hlog & _ & Hdb & _).
  by split_and!.
Defined.
